(** * Bias-add + residual-add + LayerNorm + FP8 scale/amax

    A shallow embedding of [nvfuser/bias_add_ln_bf16.py]: the four
    implementation variants of the fused operator (native, compiled,
    Transformer Engine, nvFuser), the dispatcher [bias_add_ln] and the
    comparison loop of [main], followed by the properties the operator's
    specification states about them (Part III) and by further properties
    read off the code: what the nvFuser graph computes, what a call writes
    and what its results share, the metadata side channel, the behaviour
    on missing keywords, empty shapes and empty batches, and the run and
    comparison loops of [main] (Part IV).

    Modelling conventions.
    - Tensor elements live in an abstract scalar type [F] carrying the
      arithmetic the program uses ([Scalar]).  Nothing is assumed about that
      arithmetic unless a theorem lists a law as a hypothesis, so a theorem
      without such a hypothesis holds for rounded machine arithmetic as well
      as for the real numbers.  Element types (bf16, fp32, fp8) and the
      casts between them are not distinguished.
    - Tensors are contiguous row-major views [(buffer, offset, shape)] into
      a heap of storage buffers; every tensor operation allocates a fresh
      buffer for its result, [view] and indexing share the buffer of their
      argument, [fill_] writes in place.
    - Python code is written in a state-and-exception monad over that heap:
      an exception leaves the heap as it was when it was raised. *)

From Stdlib Require Import Reals Lra Lia QArith Floats.
From stdpp Require Import base option list strings pretty gmap.

Set Default Proof Using "Type".

(* ===================================================================== *)
(** * Part I: definitions                                                 *)
(* ===================================================================== *)

(** [torch.dtype] values the harness passes around. *)
Inductive dtype : Type := bfloat16 | float32 | uint8 | kFloat8E4M3.

(** ** Scalar arithmetic *)

Class Scalar (F : Type) := {
  fzero : F;
  fone : F;
  fadd : F -> F -> F;
  fsub : F -> F -> F;
  fmul : F -> F -> F;
  fdiv : F -> F -> F;
  fsqrt : F -> F;
  frsqrt : F -> F;
  fabs : F -> F;
  fmax : F -> F -> F;
  of_nat : nat -> F;
  fcast : dtype -> F -> F
}.

(** The real numbers: the arithmetic the operator's mathematical
    description is written in. *)
#[global] Instance R_scalar : Scalar R := {|
  fzero := 0%R;
  fone := 1%R;
  fadd := Rplus;
  fsub := Rminus;
  fmul := Rmult;
  fdiv := Rdiv;
  fsqrt := R_sqrt.sqrt;
  frsqrt := fun v => (/ R_sqrt.sqrt v)%R;
  fabs := Rabs;
  fmax := Rmax;
  of_nat := INR;
  fcast := fun _ v => v
|}.

(** Binary64 machine arithmetic, on which the definitions below can be run.
    The maximum hands on a NaN, as [torch.amax] does; casts are the
    identity. *)
Definition float_max (a b : float) : float :=
  if PrimFloat.is_nan a then a
  else if PrimFloat.is_nan b then b
  else if PrimFloat.ltb a b then b else a.

#[global] Instance float_scalar : Scalar float := {|
  fzero := 0%float;
  fone := 1%float;
  fadd := PrimFloat.add;
  fsub := PrimFloat.sub;
  fmul := PrimFloat.mul;
  fdiv := PrimFloat.div;
  fsqrt := PrimFloat.sqrt;
  frsqrt := fun v => PrimFloat.div 1%float (PrimFloat.sqrt v);
  fabs := PrimFloat.abs;
  fmax := float_max;
  of_nat := fun n => PrimFloat.of_uint63 (Uint63.of_Z (Z.of_nat n));
  fcast := fun _ v => v
|}.

(** ** Row-major storage helpers *)

(** Number of elements of a shape: the product of its dimensions. *)
Definition numel (s : list nat) : nat := foldr Nat.mul 1 s.
Arguments numel : simpl never.

(** [chunks k m d]: the first [m] consecutive blocks of [k] elements. *)
Fixpoint chunks {A : Type} (k m : nat) (d : list A) : list (list A) :=
  match m with
  | 0 => []
  | S m' => take k d :: chunks k m' (drop k d)
  end.

Definition zip3_with {A B C D : Type} (f : A -> B -> C -> D)
    (a : list A) (b : list B) (c : list C) : list D :=
  zip_with (fun (p : A * B) z => f p.1 p.2 z) (zip a b) c.

(** ** Python exceptions and results *)

Inductive PyErr : Type :=
| ValueError (msg : string)
| KeyError (key : string)
| IndexError (msg : string)
| TypeError (msg : string)
| AttributeError (msg : string)
| UnboundLocalError (name : string)
| RuntimeError (msg : string).

Inductive Res (A : Type) : Type :=
| Ok (a : A)
| Raise (e : PyErr).
Arguments Ok {A} a.
Arguments Raise {A} e.

Definition res_bind {A B : Type} (r : Res A) (k : A -> Res B) : Res B :=
  match r with
  | Ok a => k a
  | Raise e => Raise e
  end.

(** ** Tensors *)

(** The heap: storage buffers, addressed by position. *)
Abbreviation Heap F := (list (list F)) (only parsing).

Section Tensors.
Context {F : Type}.

(** A tensor value: shape and row-major elements. *)
Record Tensor : Type := mkTensor { shape : list nat; data : list F }.

(** A tensor object: a contiguous view into a storage buffer. *)
Record TensorRef : Type := mkRef { t_buf : nat; t_off : nat; t_shape : list nat }.

(** The value a tensor object denotes in a heap. *)
Definition read (h : Heap F) (t : TensorRef) : option Tensor :=
  match h !! t_buf t with
  | Some b =>
      if t_off t + numel (t_shape t) <=? length b
      then Some (mkTensor (t_shape t) (take (numel (t_shape t)) (drop (t_off t) b)))
      else None
  | None => None
  end.

(** *** The monad *)

Definition M (A : Type) : Type := Heap F -> Res A * Heap F.

Definition ret {A : Type} (a : A) : M A := fun h => (Ok a, h).

Definition bind {A B : Type} (m : M A) (k : A -> M B) : M B :=
  fun h => match m h with
           | (Ok a, h') => k a h'
           | (Raise e, h') => (Raise e, h')
           end.

Definition raise {A : Type} (e : PyErr) : M A := fun h => (Raise e, h).

Definition lift {A : Type} (r : Res A) : M A := fun h => (r, h).

Definition load (t : TensorRef) : M Tensor :=
  fun h => match read h t with
           | Some v => (Ok v, h)
           | None => (Raise (RuntimeError "tensor storage is not accessible"), h)
           end.

Definition alloc (v : Tensor) : M TensorRef :=
  fun h => (Ok (mkRef (length h) 0 (shape v)), h ++ [data v]).

(** In-place write of [numel] copies of [v] at the cells of [t]. *)
Definition store_fill (t : TensorRef) (v : F) : M unit :=
  fun h => match h !! t_buf t with
           | Some b =>
               if t_off t + numel (t_shape t) <=? length b
               then (Ok tt,
                     <[t_buf t := take (t_off t) b
                                  ++ replicate (numel (t_shape t)) v
                                  ++ drop (t_off t + numel (t_shape t)) b]> h)
               else (Raise (RuntimeError "tensor storage is not accessible"), h)
           | None => (Raise (RuntimeError "tensor storage is not accessible"), h)
           end.
End Tensors.

Arguments Tensor F : clear implicits.
Arguments M F A : clear implicits.

Declare Scope py_scope.
Delimit Scope py_scope with py.
Notation "x <- c ;; k" := (bind c (fun x => k))
  (at level 100, c at next level, right associativity) : py_scope.
Notation "c ;;; k" := (bind c (fun _ => k))
  (at level 100, right associativity) : py_scope.
Open Scope py_scope.

(** ** Tensor library primitives (torch) *)

Section Torch.
Context {F : Type} {SF : Scalar F}.

(** *** Broadcasting *)

(** A shape padded on the left with ones up to rank [r]. *)
Definition pad_shape (r : nat) (s : list nat) : list nat :=
  replicate (r - length s) 1 ++ s.

Definition broadcast_dim (a b : nat) : option nat :=
  if a =? b then Some a
  else if a =? 1 then Some b
  else if b =? 1 then Some a
  else None.

Fixpoint broadcast_aligned (s1 s2 : list nat) : option (list nat) :=
  match s1, s2 with
  | [], [] => Some []
  | a :: s1', b :: s2' =>
      match broadcast_dim a b, broadcast_aligned s1' s2' with
      | Some d, Some s => Some (d :: s)
      | _, _ => None
      end
  | _, _ => None
  end.

Definition broadcast_shapes (s1 s2 : list nat) : option (list nat) :=
  let r := length s1 `max` length s2 in
  broadcast_aligned (pad_shape r s1) (pad_shape r s2).

(** Elements of a tensor of shape [s] expanded to shape [t] (same rank):
    a dimension of size one is repeated, any other is kept. *)
Fixpoint expand (s t : list nat) (d : list F) : list F :=
  match s, t with
  | a :: s', b :: t' =>
      if a =? b
      then mjoin (expand s' t' <$> chunks (numel s') a d)
      else mjoin (replicate b (expand s' t' d))
  | _, _ => d
  end.

Definition expand_to (t : list nat) (v : Tensor F) : list F :=
  expand (pad_shape (length t) (shape v)) t (data v).

(** Element-wise binary operation with broadcasting. *)
Definition tensor_binop (f : F -> F -> F) (a b : Tensor F) : Res (Tensor F) :=
  match broadcast_shapes (shape a) (shape b) with
  | Some s => Ok (mkTensor s (zip_with f (expand_to s a) (expand_to s b)))
  | None => Raise (RuntimeError "The size of tensor a must match the size of tensor b")
  end.

Definition tensor_map (f : F -> F) (a : Tensor F) : Tensor F :=
  mkTensor (shape a) (f <$> data a).

(** [a + b], [a * b], [a - b] on tensors. *)
Definition torch_binop (f : F -> F -> F) (a b : TensorRef) : M F TensorRef :=
  va <- load a ;; vb <- load b ;;
  v <- lift (tensor_binop f va vb) ;; alloc v.

Definition torch_add : TensorRef -> TensorRef -> M F TensorRef := torch_binop fadd.
Definition torch_mul : TensorRef -> TensorRef -> M F TensorRef := torch_binop fmul.
Definition torch_sub : TensorRef -> TensorRef -> M F TensorRef := torch_binop fsub.

(** [s + a] for a Python number [s]. *)
Definition scalar_add (s : F) (a : TensorRef) : M F TensorRef :=
  va <- load a ;; alloc (tensor_map (fadd s) va).

(** [torch.abs]. *)
Definition torch_abs (a : TensorRef) : M F TensorRef :=
  va <- load a ;; alloc (tensor_map fabs va).

(** [torch.amax] without [dim]: the maximum of all elements, a 0-dim
    tensor; an empty tensor has no maximum and raises. *)
Definition amax_list (d : list F) : Res F :=
  match d with
  | [] => Raise (RuntimeError "amax(): Expected reduction dim to be specified for input.numel() == 0")
  | v :: d' => Ok (foldl fmax v d')
  end.

Definition torch_amax (a : TensorRef) : M F TensorRef :=
  va <- load a ;; m <- lift (amax_list (data va)) ;; alloc (mkTensor [] [m]).

(** [t.fill_(value)] for a 0-dim tensor [value]. *)
Definition fill_ (t value : TensorRef) : M F unit :=
  vv <- load value ;;
  match shape vv, data vv with
  | [], [v] => store_fill t v
  | _, _ => raise (RuntimeError "fill_ only supports 0-dimension value tensor")
  end.

(** [t.view(-1, n)]: same storage, shape [[numel / n; n]]. *)
Definition view_neg1 (t : TensorRef) (n : nat) : M F TensorRef :=
  let total := numel (t_shape t) in
  if n =? 0 then raise (RuntimeError "cannot reshape tensor into shape [-1, 0]")
  else if total mod n =? 0
  then ret (mkRef (t_buf t) (t_off t) [total / n; n])
  else raise (RuntimeError "shape '[-1, n]' is invalid for input size").

(** [t[i]]: indexing the first dimension, a view of the same storage. *)
Definition index (t : TensorRef) (i : nat) : M F TensorRef :=
  match t_shape t with
  | [] => raise (IndexError "invalid index of a 0-dim tensor")
  | d :: s =>
      if i <? d then ret (mkRef (t_buf t) (t_off t + i * numel s) s)
      else raise (IndexError "index is out of bounds for dimension 0")
  end.

(** [tup[-1]] on a Python tuple. *)
Definition tuple_last (tup : list nat) : M F nat :=
  match last tup with
  | Some n => ret n
  | None => raise (IndexError "tuple index out of range")
  end.

(** *** Layer normalization

    [torch.nn.functional.layer_norm] after its documentation:
    [y = (x - E[x]) / sqrt(Var[x] + eps) * weight + bias], mean and biased
    variance taken over the trailing [normalized_shape] dimensions. *)

Definition sum_F (r : list F) : F := foldl fadd fzero r.

Definition mean_F (r : list F) : F := fdiv (sum_F r) (of_nat (length r)).

Definition var_F (r : list F) : F :=
  let m := mean_F r in
  mean_F ((fun v => fmul (fsub v m) (fsub v m)) <$> r).

Definition layer_norm_group (eps : F) (w b r : list F) : list F :=
  let m := mean_F r in
  let s := fsqrt (fadd (var_F r) eps) in
  zip3_with (fun x g c => fadd (fmul (fdiv (fsub x m) s) g) c) r w b.

Definition shape_eqb (s1 s2 : list nat) : bool := bool_decide (s1 = s2).

Definition tensor_layer_norm (x : Tensor F) (normalized_shape : list nat)
    (w b : Tensor F) (eps : F) : Res (Tensor F) :=
  let k := numel normalized_shape in
  if shape_eqb (drop (length (shape x) - length normalized_shape) (shape x))
               normalized_shape
     && (length normalized_shape <=? length (shape x))
     && shape_eqb (shape w) normalized_shape
     && shape_eqb (shape b) normalized_shape
  then Ok (mkTensor (shape x)
             (mjoin (layer_norm_group eps (data w) (data b)
                       <$> chunks k (length (data x) / k) (data x))))
  else Raise (RuntimeError "layer_norm: input, weight or bias does not match normalized_shape").

Definition layer_norm (x : TensorRef) (normalized_shape : list nat)
    (w b : TensorRef) (eps : F) : M F TensorRef :=
  vx <- load x ;; vw <- load w ;; vb <- load b ;;
  v <- lift (tensor_layer_norm vx normalized_shape vw vb eps) ;; alloc v.

(** ** The native implementation (source lines 9-37) *)

Definition bias_add_ln_native
    (x bias residual : TensorRef) (w_shape : list nat)
    (ln_weight ln_bias : TensorRef) (eps : F) (output_dtype : dtype)
    (zero_centered_gamma : bool) (scale_tensor amax_tensor : TensorRef)
    : M F (TensorRef * TensorRef * TensorRef) :=
  (* Bias-Add *)
  t <- torch_add x bias ;;
  out1 <- torch_add t residual ;;
  n <- tuple_last w_shape ;;
  out1 <- view_neg1 out1 n ;;
  (* LayerNorm *)
  w <- (if negb zero_centered_gamma then ret ln_weight
        else scalar_add fone ln_weight) ;;
  out2 <- layer_norm out1 w_shape w ln_bias eps ;;
  (* Obtain FP8 amax *)
  a <- torch_abs out2 ;;
  amax <- torch_amax a ;;
  fill_ amax_tensor amax ;;;
  (* Apply FP8 scale *)
  out2 <- torch_mul out2 scale_tensor ;;
  ret (out1, out2, amax_tensor).

(** ** The compiled implementation (source lines 40-42): the native
    function under [torch.compile], which keeps its meaning. *)
Definition bias_add_ln_compile := bias_add_ln_native.

End Torch.

(** ** The operator reference model, after the specification's words

    The inputs as mathematical objects: [X] and [R] are the rows of [x] and
    of [residual] (all leading axes flattened), [B] the bias vector, [W]
    and [C] the layer-norm weight and bias vectors. *)

Section Reference.
Context {F : Type} {SF : Scalar F}.

(** The rows of length [n] of a row-major array. *)
Definition rows_of (n : nat) (d : list F) : list (list F) :=
  chunks n (length d / n) d.

(** Step 1: [pre = x + bias_broadcast + residual], as rows. *)
Definition spec_pre (X : list (list F)) (B : list F) (R : list (list F))
    : list (list F) :=
  zip_with (fun xr rr => zip3_with (fun x b r => fadd (fadd x b) r) xr B rr) X R.

(** Step 2: per-row mean and biased (divide-by-N) variance. *)
Definition spec_mean (row : list F) : F :=
  fdiv (foldl fadd fzero row) (of_nat (length row)).

Definition spec_variance (row : list F) : F :=
  fdiv (foldl fadd fzero
          ((fun v => fmul (fsub v (spec_mean row)) (fsub v (spec_mean row))) <$> row))
       (of_nat (length row)).

(** Step 3: [normalized = (pre - mean) / sqrt(variance + eps)]. *)
Definition spec_normalized (eps : F) (row : list F) : list F :=
  (fun v => fdiv (fsub v (spec_mean row)) (fsqrt (fadd (spec_variance row) eps)))
    <$> row.

(** Step 4: the effective weight. *)
Definition spec_w_eff (zero_centered_gamma : bool) (W : list F) : list F :=
  if zero_centered_gamma then fadd fone <$> W else W.

(** Step 5: [ln_out_unscaled = normalized * w_eff + ln_bias]. *)
Definition spec_ln_unscaled (eps : F) (zero_centered_gamma : bool)
    (W C : list F) (pre : list (list F)) : list (list F) :=
  (fun row : list F => zip3_with (fun v g c => fadd (fmul v g) c)
                (spec_normalized eps row) (spec_w_eff zero_centered_gamma W) C)
    <$> pre.

(** Step 6: [amax = max(abs(ln_out_unscaled))] over all elements; there is
    no maximum over no elements. *)
Definition spec_amax (u : list (list F)) : option F :=
  match fabs <$> mjoin u with
  | [] => None
  | v :: vs => Some (foldl fmax v vs)
  end.

(** Step 7: [ln_out = ln_out_unscaled * scale]. *)
Definition spec_ln_out (scale : F) (u : list (list F)) : list (list F) :=
  (fun row : list F => (fun v => fmul v scale) <$> row) <$> u.

(** Row statistics used by the normalization invariant. *)
Definition row_mean (row : list F) : F := spec_mean row.
Definition row_variance (row : list F) : F := spec_variance row.
End Reference.

(** ** Well-formed calls

    [valid_inputs] says what the operator contract asks of the tensor
    arguments: [x] and [residual] of shape [lead ++ [n]], [bias],
    [ln_weight] and [ln_bias] one-dimensional of length [n],
    [w_shape = (n,)], and at least one element.  [valid_meta] describes the
    two 0-dim views into the FP8 metadata: the scale and the amax
    accumulator, held in different buffers. *)

Section Validity.
Context {F : Type}.

Record valid_inputs (h : Heap F) (x bias residual : TensorRef)
    (w_shape : list nat) (ln_weight ln_bias : TensorRef)
    (lead : list nat) (n : nat) (X B R W C : list F) : Prop := {
  vi_x : read h x = Some (mkTensor (lead ++ [n]) X);
  vi_bias : read h bias = Some (mkTensor [n] B);
  vi_residual : read h residual = Some (mkTensor (lead ++ [n]) R);
  vi_w_shape : w_shape = [n];
  vi_ln_weight : read h ln_weight = Some (mkTensor [n] W);
  vi_ln_bias : read h ln_bias = Some (mkTensor [n] C);
  vi_nonempty : X <> []
}.

Record valid_meta (h : Heap F) (scale_tensor amax_tensor : TensorRef)
    (s a0 : F) : Prop := {
  vm_scale : read h scale_tensor = Some (mkTensor [] [s]);
  vm_amax : read h amax_tensor = Some (mkTensor [] [a0]);
  vm_disjoint : t_buf scale_tensor <> t_buf amax_tensor
}.
End Validity.




(** ** Python values *)

Definition FP8_TENSOR_INDEX : nat := 0.

(** [tex.FP8TensorMeta]: the quantization metadata, three tensor
    attributes. *)
Record FP8TensorMeta : Type := mkMeta {
  scale : TensorRef;
  scale_inv : TensorRef;
  amax_history : TensorRef
}.

(** The values the harness puts into [kwargs]. *)
Inductive PyVal : Type :=
| VStr (s : string)
| VNum (n : nat)
| VBool (b : bool)
| VMeta (m : FP8TensorMeta)
| VNone.

(** [str(v)], as an f-string formats a value. *)
Definition py_str (v : PyVal) : string :=
  match v with
  | VStr s => s
  | VNum n => pretty n
  | VBool true => "True"
  | VBool false => "False"
  | VMeta _ => "<FP8TensorMeta object>"
  | VNone => "None"
  end.

(** The truth value of [v] in [if v:]. *)
Definition py_truthy (v : PyVal) : bool :=
  match v with
  | VStr s => negb (String.eqb s EmptyString)
  | VNum n => negb (n =? 0)
  | VBool b => b
  | VMeta _ => true
  | VNone => false
  end.

(** [v == s] for a string literal [s]. *)
Definition py_eq_str (v : PyVal) (s : string) : bool :=
  match v with
  | VStr s' => String.eqb s' s
  | _ => false
  end.

Section PyValues.
Context {F : Type}.

(** [d[k]] on a dictionary. *)
Definition dict_get {V : Type} (d : gmap string V) (k : string) : M F V :=
  match d !! k with
  | Some v => ret v
  | None => raise (KeyError k)
  end.

(** Using a value where an [FP8TensorMeta] is expected. *)
Definition as_meta (v : PyVal) : M F FP8TensorMeta :=
  match v with
  | VMeta m => ret m
  | _ => raise (AttributeError "object is not an FP8TensorMeta")
  end.
End PyValues.

(** ** The Transformer Engine implementation (source lines 44-162) *)

Section TE.
Context {F : Type} {SF : Scalar F}.

(** The random masking kernel behind [dropout] for [0 < p] in training
    mode: an external collaborator the program never reaches with
    [p = 0]. *)
Variable native_dropout : Q -> Tensor F -> Tensor F.

(** [tex.layernorm_fwd_fp8(inp, weight, bias, eps, meta, index, fp8_dtype,
    sm_margin, zero_centered_gamma, ln_out=...)]: the external fused
    layer-norm + FP8-cast kernel; it returns [(ln_out, mu, rsigma)]. *)
Variable layernorm_fwd_fp8 :
  TensorRef -> TensorRef -> TensorRef -> F -> FP8TensorMeta -> nat -> dtype ->
  nat -> bool -> TensorRef -> M F (TensorRef * TensorRef * TensorRef).

(** [torch.nn.functional.dropout(input, p, training)]: the probability is
    checked, and the input itself is returned when nothing is to be
    dropped. *)
Definition dropout (input : TensorRef) (p : Q) (training : bool) : M F TensorRef :=
  if negb (Qle_bool 0 p && Qle_bool p 1)
  then raise (ValueError "dropout probability has to be between 0 and 1")
  else if Qeq_bool p 0 || negb training || (numel (t_shape input) =? 0)
  then ret input
  else v <- load input ;; alloc (native_dropout p v).

(** Source lines 45-56: [dropout(inp + bias) + residual]. *)
Definition bias_dropout_add_fused (x bias residual : TensorRef) (prob : Q)
    (training : bool) : M F TensorRef :=
  t <- torch_add x bias ;;
  out <- dropout t prob training ;;
  out <- torch_add residual out ;;
  ret out.

(** [torch.empty_like(t, dtype=...)]: a fresh tensor of the same shape; its
    contents are unspecified, the model fills it with zeros. *)
Definition empty_like (t : TensorRef) (dt : dtype) : M F TensorRef :=
  alloc (mkTensor (t_shape t) (replicate (numel (t_shape t)) fzero)).

(** [t.to(dtype)]: a fresh tensor holding the converted elements. *)
Definition tensor_to (t : TensorRef) (dt : dtype) : M F TensorRef :=
  v <- load t ;; alloc (tensor_map (fcast dt) v).

(** [t.requires_grad_()] and [ctx.save_for_backward(...)]: autograd
    bookkeeping, which touches no tensor storage. *)
Definition requires_grad_ (t : TensorRef) : M F unit := ret tt.
Definition save_for_backward (ts : list TensorRef) : M F unit := ret tt.

(** Source lines 58-110, [_LayerNormFP8TE.forward]. *)
Definition LayerNormFP8TE_forward (inp ln_weight ln_bias : TensorRef) (eps : F)
    (zero_centered_gamma : bool) (output_dtype : dtype) (meta : PyVal)
    (do_bprop : PyVal) : M F TensorRef :=
  ln_out <- empty_like inp uint8 ;;
  m <- as_meta meta ;;
  r <- layernorm_fwd_fp8 inp ln_weight ln_bias eps m FP8_TENSOR_INDEX
         kFloat8E4M3 0 zero_centered_gamma ln_out ;;
  let '(ln_out, mu, rsigma) := r in
  (* Cast LN output to BF16 *)
  ln_out <- tensor_to ln_out output_dtype ;;
  (if py_truthy do_bprop
   then requires_grad_ ln_out ;;;
        save_for_backward [inp; ln_weight; mu; rsigma]
   else ret tt) ;;;
  ret ln_out.

(** Source lines 136-160, [BiasAddLayerNormFP8TE.forward]. *)
Definition bias_add_ln_te (x bias residual : TensorRef) (w_shape : list nat)
    (ln_weight ln_bias : TensorRef) (eps : F) (output_dtype : dtype)
    (zero_centered_gamma : bool) (meta : PyVal) (do_bprop : PyVal)
    : M F (TensorRef * TensorRef * TensorRef) :=
  bda_out <- bias_dropout_add_fused x bias residual 0 true ;;
  n <- tuple_last w_shape ;;
  bda_out <- view_neg1 bda_out n ;;
  ln_out <- LayerNormFP8TE_forward bda_out ln_weight ln_bias eps
              zero_centered_gamma output_dtype meta do_bprop ;;
  m <- as_meta meta ;;
  row <- index (amax_history m) 0 ;;
  amax <- index row FP8_TENSOR_INDEX ;;
  ret (bda_out, ln_out, amax).
End TE.


(** ** The nvFuser implementation (source lines 164-286)

    The [with nvfuser.FusionDefinition() as fd] block records a dataflow
    graph: every [fd.define_*] and [fd.ops.*] call appends a node and hands
    back the number of the value it defines.  [fd.execute] then evaluates
    the nodes in order on the argument tensors and returns the outputs in
    freshly allocated tensors. *)

Inductive BinOp : Type := Add | Sub | Mul.
Inductive UnOp : Type := Rsqrt | Abs.

Section Fusion.
Context {F : Type} {SF : Scalar F}.

Inductive FNode : Type :=
| DefineTensor (sizes strides : list nat)
| DefineScalar (v : F)
| DefineVector (elems : list (nat + nat))
| TensorShape (t : nat)
| TensorSize (t dim : nat)
| Binary (op : BinOp) (a b : nat)
| Unary (op : UnOp) (a : nat)
| Max (a : nat)
| BroadcastInDim (a shp : nat) (broadcast_dims : list nat)
| VarMean (a : nat) (dims : list nat) (correction : nat) (keepdim : bool).

Record FusionDefinition : Type := mkFD {
  fd_nodes : list FNode;
  fd_count : nat;
  fd_outputs : list nat
}.

(** Number of values a node defines, and the values it reads. *)
Definition results_of (nd : FNode) : nat :=
  match nd with
  | VarMean _ _ _ _ => 2
  | _ => 1
  end.

Definition uses_of (nd : FNode) : list nat :=
  match nd with
  | DefineTensor _ _ | DefineScalar _ => []
  | DefineVector elems =>
      omap (fun e => match e with inl i => Some i | inr _ => None end) elems
  | TensorShape t | TensorSize t _ => [t]
  | Binary _ a b => [a; b]
  | Unary _ a | Max a => [a]
  | BroadcastInDim a shp _ => [a; shp]
  | VarMean a _ _ _ => [a]
  end.

(** Every value number read by an operation of the graph or marked as an
    output. *)
Definition fd_uses (fd : FusionDefinition) : list nat :=
  mjoin (uses_of <$> fd_nodes fd) ++ fd_outputs fd.

(** The value numbers of the fusion inputs, in the order [execute] binds
    its arguments to them. *)
Fixpoint input_ids (nodes : list FNode) (next : nat) : list nat :=
  match nodes with
  | [] => []
  | nd :: rest =>
      match nd with
      | DefineTensor _ _ => [next]
      | _ => []
      end ++ input_ids rest (next + results_of nd)
  end.

Definition fd_inputs (fd : FusionDefinition) : list nat := input_ids (fd_nodes fd) 0.

(** *** Recording the graph *)

Definition emit (fd : FusionDefinition) (nd : FNode) : nat * FusionDefinition :=
  (fd_count fd,
   mkFD (fd_nodes fd ++ [nd]) (fd_count fd + results_of nd) (fd_outputs fd)).

Definition add_output (fd : FusionDefinition) (t : nat) : FusionDefinition :=
  mkFD (fd_nodes fd) (fd_count fd) (fd_outputs fd ++ [t]).

Fixpoint contiguous_strides (s : list nat) : list nat :=
  match s with
  | [] => []
  | _ :: s' => numel s' :: contiguous_strides s'
  end.

(** Source lines 165-173. *)
Definition partially_contig_tensor (fd : FusionDefinition) (x : TensorRef)
    : nat * FusionDefinition :=
  emit fd (DefineTensor (t_shape x) (contiguous_strides (t_shape x))).

Definition define_scalar fd (v : F) := emit fd (DefineScalar v).
Definition define_vector fd (elems : list (nat + nat)) := emit fd (DefineVector elems).
Definition tensor_shape fd (t : nat) := emit fd (TensorShape t).
Definition tensor_size fd (t dim : nat) := emit fd (TensorSize t dim).
Definition ops_add fd (a b : nat) := emit fd (Binary Add a b).
Definition ops_sub fd (a b : nat) := emit fd (Binary Sub a b).
Definition ops_mul fd (a b : nat) := emit fd (Binary Mul a b).
Definition ops_rsqrt fd (a : nat) := emit fd (Unary Rsqrt a).
Definition ops_abs fd (a : nat) := emit fd (Unary Abs a).
Definition ops_max fd (a : nat) := emit fd (Max a).
Definition ops_broadcast_in_dim fd (a shp : nat) (broadcast_dims : list nat) :=
  emit fd (BroadcastInDim a shp broadcast_dims).
Definition ops_var_mean fd (a : nat) (dims : list nat) (correction : nat)
    (keepdim : bool) : nat * nat * FusionDefinition :=
  let '(v, fd) := emit fd (VarMean a dims correction keepdim) in (v, S v, fd).

(** The graph of source lines 191-242. *)
Definition fusion_definition (x bias residual ln_weight ln_bias scale_tensor
    amax_tensor : TensorRef) (eps : F) (zero_centered_gamma : bool)
    : FusionDefinition :=
  let fd := mkFD [] 0 [] in
  let '(x_f, fd) := partially_contig_tensor fd x in
  let '(bias_f, fd) := partially_contig_tensor fd bias in
  let '(residual_f, fd) := partially_contig_tensor fd residual in
  let '(ln_weight_f, fd) := partially_contig_tensor fd ln_weight in
  let '(ln_bias_f, fd) := partially_contig_tensor fd ln_bias in
  let '(scale_f, fd) := partially_contig_tensor fd scale_tensor in
  let '(amax_f, fd) := partially_contig_tensor fd amax_tensor in
  (* Add 1 to LayerNorm weights if needed *)
  let '(ln_weight_f, fd) :=
    if zero_centered_gamma
    then let '(G0, fd) := define_scalar fd fone in ops_add fd ln_weight_f G0
    else (ln_weight_f, fd) in
  (* Bias-Add *)
  let '(V17, fd) := tensor_shape fd x_f in
  let '(B0, fd) := ops_broadcast_in_dim fd bias_f V17 [1] in
  let '(T0, fd) := ops_add fd x_f B0 in
  let '(T1, fd) := ops_add fd T0 residual_f in
  (* LayerNorm *)
  let '(T2, T3, fd) := ops_var_mean fd T1 [1] 0 false in
  let '(T1_size0, fd) := tensor_size fd T1 0 in
  let '(V6, fd) := define_vector fd [inl T1_size0; inr 1] in
  let '(T7, fd) := ops_broadcast_in_dim fd T2 V6 [0] in
  let '(T11, fd) := ops_broadcast_in_dim fd T3 V6 [0] in
  let '(S12, fd) := define_scalar fd eps in
  let '(T13, fd) := ops_add fd T7 S12 in
  let '(T14, fd) := ops_rsqrt fd T13 in
  let '(T18, fd) := ops_broadcast_in_dim fd T11 V17 [0; 1] in
  let '(T19, fd) := ops_sub fd T1 T18 in
  let '(T23, fd) := ops_broadcast_in_dim fd T14 V17 [0; 1] in
  let '(T24, fd) := ops_mul fd T19 T23 in
  let '(T25, fd) := ops_broadcast_in_dim fd ln_weight_f V17 [1] in
  let '(T26, fd) := ops_mul fd T24 T25 in
  let '(T27, fd) := ops_broadcast_in_dim fd ln_bias_f V17 [1] in
  let '(T28, fd) := ops_add fd T26 T27 in
  (* Amax *)
  let '(T29, fd) := ops_abs fd T28 in
  let '(T30, fd) := ops_max fd T29 in
  (* Scale *)
  let '(T31, fd) := ops_mul fd T28 scale_f in
  let fd := add_output fd T1 in
  let fd := add_output fd T31 in
  let fd := add_output fd T30 in
  fd.

(** *** Evaluating the graph *)

Inductive FValue : Type :=
| FTensor (t : Tensor F)
| FScalar (v : F)
| FInt (n : nat)
| FVector (l : list nat).

Definition scalar_binop (op : BinOp) : F -> F -> F :=
  match op with
  | Add => fadd
  | Sub => fsub
  | Mul => fmul
  end.

Definition scalar_unop (op : UnOp) : F -> F :=
  match op with
  | Rsqrt => frsqrt
  | Abs => fabs
  end.

(** The shape of the operand of [broadcast_in_dim] once its axes are put at
    the positions [dims] of a rank-[rank] shape, ones elsewhere. *)
Fixpoint position_of (j : nat) (dims : list nat) (i : nat) : option nat :=
  match dims with
  | [] => None
  | d :: dims' => if d =? j then Some i else position_of j dims' (S i)
  end.

Definition unsqueeze_shape (s dims : list nat) (rank : nat) : list nat :=
  (fun j => match position_of j dims 0 with
            | Some i => default 1 (s !! i)
            | None => 1
            end) <$> seq 0 rank.

Fixpoint expandable (s t : list nat) : bool :=
  match s, t with
  | [], [] => true
  | a :: s', b :: t' => ((a =? b) || (a =? 1)) && expandable s' t'
  | _, _ => false
  end.

Fixpoint increasing_below (dims : list nat) (lo rank : nat) : bool :=
  match dims with
  | [] => true
  | d :: dims' => (lo <=? d) && (d <? rank) && increasing_below dims' (S d) rank
  end.

Definition eval_broadcast_in_dim (t : Tensor F) (target dims : list nat)
    : Res (Tensor F) :=
  let s := unsqueeze_shape (shape t) dims (length target) in
  if (length dims =? length (shape t))
     && increasing_below dims 0 (length target)
     && expandable s target
  then Ok (mkTensor target (expand s target (data t)))
  else Raise (RuntimeError "broadcast_in_dim: operand does not fit the shape").

(** Reduction along one axis [k]: the elements that differ only in their
    [k]-th index form a column. *)
Definition column (inner dk j : nat) (blk : list F) : list F :=
  (fun i => nth (i * inner + j) blk fzero) <$> seq 0 dk.

Definition reduce_axis (f : list F -> F) (s : list nat) (k : nat) (d : list F)
    : list F :=
  let dk := default 1 (s !! k) in
  let inner := numel (drop (S k) s) in
  let outer := numel (take k s) in
  mjoin ((fun blk => (fun j => f (column inner dk j blk)) <$> seq 0 inner)
           <$> chunks (dk * inner) outer d).

Definition reduced_shape (s : list nat) (k : nat) (keepdim : bool) : list nat :=
  take k s ++ (if keepdim then [1] else []) ++ drop (S k) s.

(** Variance with a correction: the squared deviations are divided by
    [N - correction]. *)
Definition var_corr (correction : nat) (r : list F) : F :=
  let m := mean_F r in
  fdiv (sum_F ((fun v => fmul (fsub v m) (fsub v m)) <$> r))
       (of_nat (length r - correction)).

Definition eval_binary (op : BinOp) (a b : FValue) : Res FValue :=
  match a, b with
  | FTensor ta, FTensor tb =>
      res_bind (tensor_binop (scalar_binop op) ta tb) (fun t => Ok (FTensor t))
  | FTensor ta, FScalar vb =>
      Ok (FTensor (tensor_map (fun v => scalar_binop op v vb) ta))
  | FScalar va, FTensor tb =>
      Ok (FTensor (tensor_map (fun v => scalar_binop op va v) tb))
  | FScalar va, FScalar vb => Ok (FScalar (scalar_binop op va vb))
  | _, _ => Raise (TypeError "unsupported operand of a fusion operation")
  end.

Definition env_tensor (env : list FValue) (i : nat) : Res (Tensor F) :=
  match env !! i with
  | Some (FTensor t) => Ok t
  | _ => Raise (TypeError "a tensor of the fusion is expected")
  end.

Definition env_value (env : list FValue) (i : nat) : Res FValue :=
  match env !! i with
  | Some v => Ok v
  | None => Raise (RuntimeError "undefined value of the fusion")
  end.

Definition env_vector (env : list FValue) (i : nat) : Res (list nat) :=
  match env !! i with
  | Some (FVector l) => Ok l
  | _ => Raise (TypeError "a vector of the fusion is expected")
  end.

Fixpoint vector_elems (env : list FValue) (elems : list (nat + nat))
    : Res (list nat) :=
  match elems with
  | [] => Ok []
  | e :: elems' =>
      res_bind (match e with
                | inl i => match env !! i with
                           | Some (FInt n) => Ok n
                           | _ => Raise (TypeError "an integer of the fusion is expected")
                           end
                | inr n => Ok n
                end)
        (fun n => res_bind (vector_elems env elems') (fun l => Ok (n :: l)))
  end.

(** One node: the arguments not yet bound, and the values defined so far.
    Of the reductions only those along a single axis are modelled, which
    is what the graph above contains. *)
Definition exec_node (nd : FNode) (inputs : list (Tensor F)) (env : list FValue)
    : Res (list (Tensor F) * list FValue) :=
  match nd with
  | DefineTensor sizes strides =>
      match inputs with
      | t :: rest =>
          if shape_eqb (shape t) sizes then Ok (rest, env ++ [FTensor t])
          else Raise (RuntimeError "argument does not match the tensor definition")
      | [] => Raise (RuntimeError "too few arguments for the fusion")
      end
  | DefineScalar v => Ok (inputs, env ++ [FScalar v])
  | DefineVector elems =>
      res_bind (vector_elems env elems) (fun l => Ok (inputs, env ++ [FVector l]))
  | TensorShape t =>
      res_bind (env_tensor env t) (fun v => Ok (inputs, env ++ [FVector (shape v)]))
  | TensorSize t dim =>
      res_bind (env_tensor env t) (fun v =>
        match shape v !! dim with
        | Some n => Ok (inputs, env ++ [FInt n])
        | None => Raise (IndexError "dimension out of range")
        end)
  | Binary op a b =>
      res_bind (env_value env a) (fun va =>
      res_bind (env_value env b) (fun vb =>
      res_bind (eval_binary op va vb) (fun v => Ok (inputs, env ++ [v]))))
  | Unary op a =>
      res_bind (env_tensor env a) (fun v =>
        Ok (inputs, env ++ [FTensor (tensor_map (scalar_unop op) v)]))
  | Max a =>
      res_bind (env_tensor env a) (fun v =>
      res_bind (amax_list (data v)) (fun m =>
        Ok (inputs, env ++ [FTensor (mkTensor [] [m])])))
  | BroadcastInDim a shp dims =>
      res_bind (env_tensor env a) (fun v =>
      res_bind (env_vector env shp) (fun target =>
      res_bind (eval_broadcast_in_dim v target dims) (fun t =>
        Ok (inputs, env ++ [FTensor t]))))
  | VarMean a dims correction keepdim =>
      res_bind (env_tensor env a) (fun v =>
        match dims with
        | [k] =>
            if k <? length (shape v)
            then Ok (inputs,
                     env ++ [FTensor (mkTensor (reduced_shape (shape v) k keepdim)
                                        (reduce_axis (var_corr correction) (shape v) k (data v)));
                             FTensor (mkTensor (reduced_shape (shape v) k keepdim)
                                        (reduce_axis mean_F (shape v) k (data v)))])
            else Raise (IndexError "reduction axis out of range")
        | _ => Raise (RuntimeError "reduction over several axes")
        end)
  end.

Fixpoint exec_nodes (nodes : list FNode) (inputs : list (Tensor F))
    (env : list FValue) : Res (list FValue) :=
  match nodes with
  | [] => Ok env
  | nd :: rest =>
      match exec_node nd inputs env with
      | Ok (inputs', env') => exec_nodes rest inputs' env'
      | Raise e => Raise e
      end
  end.

Fixpoint load_all (ts : list TensorRef) : M F (list (Tensor F)) :=
  match ts with
  | [] => ret []
  | t :: ts' => v <- load t ;; vs <- load_all ts' ;; ret (v :: vs)
  end.

Fixpoint alloc_all (vs : list (Tensor F)) : M F (list TensorRef) :=
  match vs with
  | [] => ret []
  | v :: vs' => t <- alloc v ;; ts <- alloc_all vs' ;; ret (t :: ts)
  end.

Fixpoint output_tensors (env : list FValue) (outs : list nat) : Res (list (Tensor F)) :=
  match outs with
  | [] => Ok []
  | o :: outs' =>
      res_bind (env_tensor env o) (fun t =>
      res_bind (output_tensors env outs') (fun ts => Ok (t :: ts)))
  end.

(** [fd.execute(args)]. *)
Definition fd_execute (fd : FusionDefinition) (args : list TensorRef)
    : M F (list TensorRef) :=
  vals <- load_all args ;;
  env <- lift (exec_nodes (fd_nodes fd) vals []) ;;
  outs <- lift (output_tensors env (fd_outputs fd)) ;;
  alloc_all outs.

(** Source lines 175-248, [_BiasAddLayerNormFuser.forward]. *)
Definition BiasAddLayerNormFuser_apply (x bias residual : TensorRef)
    (w_shape : list nat) (ln_weight ln_bias : TensorRef) (eps : F)
    (output_dtype : dtype) (zero_centered_gamma : bool)
    (scale_tensor amax_tensor : TensorRef)
    : M F (TensorRef * TensorRef * TensorRef) :=
  let fd := fusion_definition x bias residual ln_weight ln_bias scale_tensor
              amax_tensor eps zero_centered_gamma in
  outs <- fd_execute fd [x; bias; residual; ln_weight; ln_bias;
                         scale_tensor; amax_tensor] ;;
  match outs with
  | [bda_out; ln_out; amax_tensor] => ret (bda_out, ln_out, amax_tensor)
  | _ => raise (ValueError "wrong number of values to unpack")
  end.

(** Source lines 258-284, [BiasAddLayerNormFuser.forward]. *)
Definition bias_add_ln_nvfuser (x bias residual : TensorRef) (w_shape : list nat)
    (ln_weight ln_bias : TensorRef) (eps : F) (output_dtype : dtype)
    (zero_centered_gamma : bool) (scale_tensor amax_tensor : TensorRef)
    (do_bprop : PyVal) : M F (TensorRef * TensorRef * TensorRef) :=
  n <- tuple_last w_shape ;;
  x <- view_neg1 x n ;;
  n <- tuple_last w_shape ;;
  residual <- view_neg1 residual n ;;
  r <- BiasAddLayerNormFuser_apply x bias residual w_shape ln_weight ln_bias eps
         output_dtype zero_centered_gamma scale_tensor amax_tensor ;;
  let '(bda_out, ln_out, amax_tensor) := r in
  ret (bda_out, ln_out, amax_tensor).
End Fusion.


(** ** The dispatcher (source lines 289-305) *)

(** The positional arguments [*args] of [bias_add_ln], in order. *)
Record Args (F : Type) : Type := mkArgs {
  a_x : TensorRef;
  a_bias : TensorRef;
  a_residual : TensorRef;
  a_w_shape : list nat;
  a_ln_weight : TensorRef;
  a_ln_bias : TensorRef;
  a_eps : F;
  a_output_dtype : dtype;
  a_zero_centered_gamma : bool
}.
Arguments mkArgs {F}.
Arguments a_x {F}.
Arguments a_bias {F}.
Arguments a_residual {F}.
Arguments a_w_shape {F}.
Arguments a_ln_weight {F}.
Arguments a_ln_bias {F}.
Arguments a_eps {F}.
Arguments a_output_dtype {F}.
Arguments a_zero_centered_gamma {F}.

(** What [print] writes: a text, or a label followed by a number. *)
Inductive Line (F : Type) : Type :=
| PrintText (s : string)
| PrintItem (label : string) (v : F).
Arguments PrintText {F}.
Arguments PrintItem {F}.

Section Common.
Context {F : Type} {SF : Scalar F}.
Variable native_dropout : Q -> Tensor F -> Tensor F.
Variable layernorm_fwd_fp8 :
  TensorRef -> TensorRef -> TensorRef -> F -> FP8TensorMeta -> nat -> dtype ->
  nat -> bool -> TensorRef -> M F (TensorRef * TensorRef * TensorRef).

(** [meta.scale[FP8_TENSOR_INDEX]] and
    [meta.amax_history[0][FP8_TENSOR_INDEX]]. *)
Definition meta_scale_cell (meta : PyVal) : M F TensorRef :=
  m <- as_meta meta ;; index (scale m) FP8_TENSOR_INDEX.

Definition meta_amax_cell (meta : PyVal) : M F TensorRef :=
  m <- as_meta meta ;; row <- index (amax_history m) 0 ;;
  index row FP8_TENSOR_INDEX.

Definition bias_add_ln (args : Args F) (kwargs : gmap string PyVal)
    : M F (TensorRef * TensorRef * TensorRef) :=
  impl <- dict_get kwargs "impl" ;;
  meta <- dict_get kwargs "meta" ;;
  do_bprop <- dict_get kwargs "do_bprop" ;;
  if py_eq_str impl "native" then
    s <- meta_scale_cell meta ;;
    a <- meta_amax_cell meta ;;
    bias_add_ln_native (a_x args) (a_bias args) (a_residual args) (a_w_shape args)
      (a_ln_weight args) (a_ln_bias args) (a_eps args) (a_output_dtype args)
      (a_zero_centered_gamma args) s a
  else if py_eq_str impl "compile" then
    s <- meta_scale_cell meta ;;
    a <- meta_amax_cell meta ;;
    bias_add_ln_compile (a_x args) (a_bias args) (a_residual args) (a_w_shape args)
      (a_ln_weight args) (a_ln_bias args) (a_eps args) (a_output_dtype args)
      (a_zero_centered_gamma args) s a
  else if py_eq_str impl "te" then
    bias_add_ln_te native_dropout layernorm_fwd_fp8
      (a_x args) (a_bias args) (a_residual args) (a_w_shape args)
      (a_ln_weight args) (a_ln_bias args) (a_eps args) (a_output_dtype args)
      (a_zero_centered_gamma args) meta do_bprop
  else if py_eq_str impl "nvfuser" then
    s <- meta_scale_cell meta ;;
    a <- meta_amax_cell meta ;;
    bias_add_ln_nvfuser (a_x args) (a_bias args) (a_residual args) (a_w_shape args)
      (a_ln_weight args) (a_ln_bias args) (a_eps args) (a_output_dtype args)
      (a_zero_centered_gamma args) s a do_bprop
  else
    raise (ValueError ("Implementation '" ++ py_str impl ++ "' is not recognized.")).

(** ** The driver (source lines 307-464) *)

(** Programs that also print: the heap and the lines written so far. *)
Definition IO (A : Type) : Type :=
  Heap F * list (Line F) -> Res A * (Heap F * list (Line F)).

Definition io_ret {A : Type} (a : A) : IO A := fun st => (Ok a, st).

Definition io_bind {A B : Type} (m : IO A) (k : A -> IO B) : IO B :=
  fun st => match m st with
            | (Ok a, st') => k a st'
            | (Raise e, st') => (Raise e, st')
            end.

Definition io_lift {A : Type} (m : M F A) : IO A :=
  fun st => match m st.1 with
            | (r, h') => (r, (h', st.2))
            end.

Definition print (l : Line F) : IO unit :=
  fun st => (Ok tt, (st.1, st.2 ++ [l])).

Fixpoint io_for {A : Type} (l : list A) (body : A -> IO unit) : IO unit :=
  match l with
  | [] => io_ret tt
  | a :: l' => io_bind (body a) (fun _ => io_for l' body)
  end.

(** [for i in range(n): result = body], keeping the last [result]. *)
Fixpoint io_repeat {A : Type} (n : nat) (body : IO A) (last : option A)
    : IO (option A) :=
  match n with
  | 0 => io_ret last
  | S n' => io_bind body (fun r => io_repeat n' body (Some r))
  end.

(** [t.item()]. *)
Definition item (t : TensorRef) : M F F :=
  v <- load t ;;
  match data v with
  | [a] => ret a
  | _ => raise (RuntimeError "a Tensor with several elements cannot be converted to Scalar")
  end.

(** [t.detach().clone().requires_grad_()]. *)
Definition clone (t : TensorRef) : M F TensorRef := v <- load t ;; alloc v.

(** [torch.ones(1) * s], [torch.ones(1) / s], [torch.zeros(1, 1)]. *)
Definition ones_times (s : F) : M F TensorRef :=
  o <- alloc (mkTensor [1] [fone]) ;;
  v <- load o ;; alloc (tensor_map (fun a => fmul a s) v).

Definition ones_over (s : F) : M F TensorRef :=
  o <- alloc (mkTensor [1] [fone]) ;;
  v <- load o ;; alloc (tensor_map (fun a => fdiv a s) v).

Definition zeros_1_1 : M F TensorRef := alloc (mkTensor [1; 1] [fzero]).

(** [t.mean()] over all elements, a 0-dim tensor. *)
Definition torch_mean (t : TensorRef) : M F TensorRef :=
  v <- load t ;; alloc (mkTensor [] [mean_F (data v)]).

(** Settings of [main]. *)
Definition all_impls : list string := ["native"; "compile"; "te"; "nvfuser"].
Definition run_impls : list string := ["nvfuser"].
(** The unordered pairs of [all_impls], in the order the comparison visits
    them. *)
Definition all_pairs : list (string * string) :=
  [("native", "compile"); ("native", "te"); ("native", "nvfuser");
   ("compile", "te"); ("compile", "nvfuser"); ("te", "nvfuser")].
Definition x_shape : list nat := [512; 1; 12 * 1024].
Definition main_w_shape : list nat := [12 * 1024].
Definition zero_centered_gamma_setting : bool := true.
Definition warmup_iters : nat := 10.
Definition main_iters : nat := 1000.
Definition do_bprop_setting : bool := false.
Definition compare_setting : bool := true.

(** The numbers [1e-5] and [0.5] in the element type, the tensors drawn at
    random, and the autograd engine behind [y.backward()] and the [.grad]
    comparison are given from outside. *)
Variable eps_setting : F.
Variable fp8_scale : F.
Variable backward : TensorRef -> M F unit.
Variable compare_bprop : IO unit.

(** One iteration of the warm-up loop or of the main loop. *)
Definition iteration (impl : string) (x_impl bias_impl residual_impl
    ln_weight_impl ln_bias_impl : TensorRef)
    : M F (TensorRef * TensorRef * TensorRef) :=
  x_clone <- clone x_impl ;;
  bias_clone <- clone bias_impl ;;
  residual_clone <- clone residual_impl ;;
  sc <- ones_times fp8_scale ;;
  sc_inv <- ones_over fp8_scale ;;
  ah <- zeros_1_1 ;;
  let meta := mkMeta sc sc_inv ah in
  let kwargs : gmap string PyVal :=
    <["meta" := VMeta meta]>
      (<["do_bprop" := VBool do_bprop_setting]>
         (<["main_iters" := VNum main_iters]>
            (<["warmup_iters" := VNum warmup_iters]>
               (<["impl" := VStr impl]> ∅)))) in
  result <- bias_add_ln
              (mkArgs x_clone bias_clone residual_clone main_w_shape
                 ln_weight_impl ln_bias_impl eps_setting bfloat16
                 zero_centered_gamma_setting)
              kwargs ;;
  (if do_bprop_setting then y <- torch_mean result.1.2 ;; backward y else ret tt) ;;;
  ret result.

(** The body of [for impl in ["nvfuser"]]. *)
Definition run_impl (ln_weight ln_bias x bias residual : TensorRef)
    (fprop_result : gmap string (TensorRef * TensorRef * TensorRef))
    (impl : string) : IO (gmap string (TensorRef * TensorRef * TensorRef)) :=
  io_bind (io_lift (clone ln_weight)) (fun ln_weight_impl =>
  io_bind (io_lift (clone ln_bias)) (fun ln_bias_impl =>
  io_bind (io_lift (clone x)) (fun x_impl =>
  io_bind (io_lift (clone bias)) (fun bias_impl =>
  io_bind (io_lift (clone residual)) (fun residual_impl =>
  io_bind (print (PrintText ("Testing " ++ impl ++ "..."))) (fun _ =>
  io_bind (print (PrintText ("Running " ++ pretty warmup_iters
                             ++ " warmup iters for " ++ impl ++ "..."))) (fun _ =>
  io_bind (io_repeat warmup_iters
             (io_lift (iteration impl x_impl bias_impl residual_impl
                         ln_weight_impl ln_bias_impl)) None) (fun last =>
  io_bind (print (PrintText ("Running " ++ pretty main_iters
                             ++ " main iters for " ++ impl ++ "..."))) (fun _ =>
  io_bind (io_repeat main_iters
             (io_lift (iteration impl x_impl bias_impl residual_impl
                         ln_weight_impl ln_bias_impl)) last) (fun last =>
  match last with
  | Some result => io_ret (<[impl := result]> fprop_result)
  | None => io_lift (raise (UnboundLocalError "result"))
  end)))))))))).

Fixpoint run_all (ln_weight ln_bias x bias residual : TensorRef)
    (impls : list string)
    (fprop_result : gmap string (TensorRef * TensorRef * TensorRef))
    : IO (gmap string (TensorRef * TensorRef * TensorRef)) :=
  match impls with
  | [] => io_ret fprop_result
  | impl :: impls' =>
      io_bind (run_impl ln_weight ln_bias x bias residual fprop_result impl)
        (fun d => run_all ln_weight ln_bias x bias residual impls' d)
  end.

(** [torch.amax(torch.abs(a - b))] and [torch.abs(a - b)]. *)
Definition max_abs_diff (a b : TensorRef) : M F TensorRef :=
  d <- torch_sub a b ;; d <- torch_abs d ;; torch_amax d.

Definition abs_diff (a b : TensorRef) : M F TensorRef :=
  d <- torch_sub a b ;; torch_abs d.

(** Source lines 436-445: one pair of the comparison. *)
Definition compare_pair
    (fprop_result : gmap string (TensorRef * TensorRef * TensorRef))
    (impl_cur impl_ref : string) : IO unit :=
  io_bind (print (PrintText ("[" ++ impl_cur ++ "] vs. [" ++ impl_ref ++ "]"))) (fun _ =>
  io_bind (io_lift (cur <- dict_get fprop_result impl_cur ;;
                    ref <- dict_get fprop_result impl_ref ;;
                    max_abs_diff cur.1.1 ref.1.1)) (fun bda_out_diff =>
  io_bind (io_lift (cur <- dict_get fprop_result impl_cur ;;
                    ref <- dict_get fprop_result impl_ref ;;
                    max_abs_diff cur.1.2 ref.1.2)) (fun ln_out_diff =>
  io_bind (io_lift (cur <- dict_get fprop_result impl_cur ;;
                    ref <- dict_get fprop_result impl_ref ;;
                    abs_diff cur.2 ref.2)) (fun amax_diff =>
  io_bind (io_lift (item bda_out_diff)) (fun v =>
  io_bind (print (PrintItem "Intermediate Bias-Dropout-Add output diff:" v)) (fun _ =>
  io_bind (io_lift (item ln_out_diff)) (fun v =>
  io_bind (print (PrintItem "LayerNorm output diff:" v)) (fun _ =>
  io_bind (io_lift (item amax_diff)) (fun v =>
  io_bind (print (PrintItem "Amax diff:" v)) (fun _ =>
  print (PrintText EmptyString))))))))))).

(** [impls[i]] on a Python list. *)
Definition list_get (impls : list string) (i : nat) : IO string :=
  match impls !! i with
  | Some s => io_ret s
  | None => io_lift (raise (IndexError "list index out of range"))
  end.

(** Source lines 432-445. *)
Definition compare_fprop (impls : list string)
    (fprop_result : gmap string (TensorRef * TensorRef * TensorRef)) : IO unit :=
  io_bind (print (PrintText "\nComparing fprop...\n")) (fun _ =>
  io_for (seq 0 (length impls)) (fun i =>
    io_for (seq (i + 1) (length impls - (i + 1))) (fun j =>
      io_bind (list_get impls i) (fun impl_cur =>
      io_bind (list_get impls j) (fun impl_ref =>
      compare_pair fprop_result impl_cur impl_ref))))).

(** [main], from the point where the random tensors exist. *)
Definition main (ln_weight ln_bias x bias residual : TensorRef) : IO unit :=
  io_bind (run_all ln_weight ln_bias x bias residual run_impls ∅) (fun fprop_result =>
  if compare_setting
  then io_bind (compare_fprop all_impls fprop_result) (fun _ =>
       if do_bprop_setting then compare_bprop else io_ret tt)
  else io_ret tt).
End Common.


(** ** Statements used by the claims *)

Section ClaimStatements.
Context {F : Type}.


(** The metadata object of a call of the dispatcher: [meta.scale] holds
    one number, [meta.amax_history] is a 1 x 1 tensor in another buffer. *)
Record valid_meta_object (h : Heap F) (m : FP8TensorMeta) (s a0 : F) : Prop := {
  vmo_scale : read h (scale m) = Some (mkTensor [1] [s]);
  vmo_amax : read h (amax_history m) = Some (mkTensor [1; 1] [a0]);
  vmo_disjoint : t_buf (scale m) <> t_buf (amax_history m)
}.

(** [appends m]: whatever [m] does and however it ends, the heap it leaves
    is the heap it found followed by new buffers. *)
Definition appends {A : Type} (m : M F A) : Prop :=
  forall h : Heap F, exists k, (m h).2 = h ++ k.

(** A printed line that reports no number. *)
Definition is_text (l : Line F) : Prop := exists s, l = PrintText s.

(** [texts_only m]: whatever [m] does and however it ends, it has printed
    only texts. *)
Definition texts_only {A : Type}
    (m : Heap F * list (Line F) -> Res A * (Heap F * list (Line F))) : Prop :=
  forall st, exists ls, (m st).2.2 = st.2 ++ ls /\ Forall is_text ls.
End ClaimStatements.

(** The normalization invariant as the specification words it: every row
    has zero mean and unit variance, up to a tolerance. *)
Definition normalized_rows (tol : R) (u : list (list R)) : Prop :=
  Forall (fun row => (Rabs (row_mean row) <= tol)%R
                     /\ (Rabs (row_variance row - 1) <= tol)%R) u.

(** What the Transformer Engine forward needs of the external kernel, on
    the arguments of this call.  In any heap [h1] that still holds what
    [h] held, with [inp] a [rows] x [n] tensor and [ln_out] a buffer of the
    same shape, both allocated after [h] and distinct, the kernel returns,
    the tensor it returns as [ln_out] can be read, and [inp] is left as it
    was. *)
Definition te_kernel_returns {F : Type}
    (layernorm_fwd_fp8 :
       TensorRef -> TensorRef -> TensorRef -> F -> FP8TensorMeta -> nat -> dtype ->
       nat -> bool -> TensorRef -> M F (TensorRef * TensorRef * TensorRef))
    (h : Heap F) (ln_weight ln_bias : TensorRef) (eps : F) (m : FP8TensorMeta)
    (zero_centered_gamma : bool) (rows n : nat) : Prop :=
  forall (h1 : Heap F) inp out D Z,
    (forall t v, read h t = Some v -> read h1 t = Some v) ->
    length h <= t_buf inp -> length h <= t_buf out -> t_buf inp <> t_buf out ->
    read h1 inp = Some (mkTensor [rows; n] D) ->
    read h1 out = Some (mkTensor [rows; n] Z) ->
    exists lo mu rs h2 vlo,
      layernorm_fwd_fp8 inp ln_weight ln_bias eps m FP8_TENSOR_INDEX kFloat8E4M3 0
        zero_centered_gamma out h1 = (Ok (lo, mu, rs), h2)
      /\ read h2 lo = Some vlo
      /\ read h2 inp = Some (mkTensor [rows; n] D).

(** Stand-ins for the two external collaborators, to instantiate statements
    that are parametric in them: a masking kernel that drops nothing and a
    layer-norm kernel that hands back the output buffer it was given. *)
Definition stub_dropout {F : Type} (p : Q) (t : Tensor F) : Tensor F := t.

Definition stub_layernorm_fwd_fp8 {F : Type}
    (inp ln_weight ln_bias : TensorRef) (eps : F) (m : FP8TensorMeta)
    (index : nat) (fp8_dtype : dtype) (sm_margin : nat)
    (zero_centered_gamma : bool) (ln_out : TensorRef)
    : M F (TensorRef * TensorRef * TensorRef) :=
  ret (ln_out, ln_out, ln_out).

(** ** Concrete calls over the reals

    [x] of shape (2, 2) with rows [1 3] and [2 6], a zero bias, a zero
    residual, [ln_weight = ones(2)], [ln_bias = zeros(2)], [eps = 1], the
    scale one half and an amax history that holds 0; further tensors serve
    the individual scenarios. *)

Module Example.
Definition heap0 : Heap R :=
  [ [1; 3; 2; 6];      (* 0: x *)
    [0; 0];            (* 1: bias *)
    [0; 0; 0; 0];      (* 2: residual *)
    [1; 1];            (* 3: ln_weight = ones *)
    [0; 0];            (* 4: ln_bias *)
    [/ 2];             (* 5: meta.scale *)
    [0];               (* 6: meta.amax_history *)
    [2];               (* 7: meta.scale_inv *)
    [0; 0];            (* 8: ln_weight = zeros *)
    [1 + 1; 1 + 1];    (* 9: 1 + ones *)
    [0; 1; 0; 1] ]%R.  (* 10: another x *)
(** The same heap with scale 1 in place of one half. *)
Definition heap1 : Heap R :=
  [ [1; 3; 2; 6]; [0; 0]; [0; 0; 0; 0]; [1; 1]; [0; 0]; [1]; [0]; [1];
    [0; 0]; [1 + 1; 1 + 1]; [0; 1; 0; 1] ]%R.
Definition x : TensorRef := mkRef 0 0 [2; 2].
Definition bias : TensorRef := mkRef 1 0 [2].
Definition residual : TensorRef := mkRef 2 0 [2; 2].
Definition w_shape : list nat := [2].
Definition ln_weight : TensorRef := mkRef 3 0 [2].
Definition ln_bias : TensorRef := mkRef 4 0 [2].
Definition eps : R := 1%R.
Definition meta : FP8TensorMeta := mkMeta (mkRef 5 0 [1]) (mkRef 7 0 [1]) (mkRef 6 0 [1; 1]).
Definition scale_tensor : TensorRef := mkRef 5 0 [].
Definition amax_tensor : TensorRef := mkRef 6 0 [].
Definition zero_weight : TensorRef := mkRef 8 0 [2].
Definition one_plus_weight : TensorRef := mkRef 9 0 [2].
Definition x2 : TensorRef := mkRef 10 0 [2; 2].
Definition args : Args R :=
  mkArgs x bias residual w_shape ln_weight ln_bias eps bfloat16 false.
(** A call of the dispatcher with a selector it does not know. *)
Definition bad_kwargs : gmap string PyVal :=
  <["meta" := VMeta meta]>
    (<["do_bprop" := VBool false]> (<["impl" := VStr "triton"]> ∅)).
End Example.


(** The same calls on binary64 machine numbers: the model runs as it is. *)
Module FloatExample.
Definition heap0 : Heap float :=
  [ [1; 3; 5; 7]; [0; 0]; [0; 0; 0; 0]; [1; 1]; [0; 0]; [0.5]; [0]; [2];
    [0; 0] ]%float.
Definition x : TensorRef := mkRef 0 0 [2; 2].
Definition bias : TensorRef := mkRef 1 0 [2].
Definition residual : TensorRef := mkRef 2 0 [2; 2].
Definition ln_weight : TensorRef := mkRef 3 0 [2].
Definition ln_bias : TensorRef := mkRef 4 0 [2].
Definition zero_weight : TensorRef := mkRef 8 0 [2].
Definition amax_cell : TensorRef := mkRef 6 0 [].
Definition meta : FP8TensorMeta :=
  mkMeta (mkRef 5 0 [1]) (mkRef 7 0 [1]) (mkRef 6 0 [1; 1]).
Definition args (w : TensorRef) : Args float :=
  mkArgs x bias residual [2] w ln_bias 3%float bfloat16 false.
Definition kwargs (impl : string) : gmap string PyVal :=
  <["meta" := VMeta meta]>
    (<["do_bprop" := VBool false]> (<["impl" := VStr impl]> ∅)).
Definition call (w : TensorRef) (impl : string)
  : M float (TensorRef * TensorRef * TensorRef) :=
  bias_add_ln stub_dropout stub_layernorm_fwd_fp8 (args w) (kwargs impl).
(** The three returned tensors, and the accumulator cell after the call. *)
Definition outputs (w : TensorRef) (impl : string)
  : option (list (Tensor float)) :=
  match call w impl heap0 with
  | (Ok (bda_out, ln_out, amax), h) =>
      Some (omap (read h) [bda_out; ln_out; amax; amax_cell])
  | _ => None
  end.
(** Two implementations run one after the other, then compared. *)
Definition two_runs : IO unit :=
  io_bind (io_lift (call ln_weight "native")) (fun r1 =>
  io_bind (io_lift (call ln_weight "nvfuser")) (fun r2 =>
  compare_fprop ["native"; "nvfuser"]
    (<["nvfuser" := r2]> (<["native" := r1]> ∅)))).
End FloatExample.


(** ** Concrete calls of the driver

    Tensors of the width [main] uses, with a single row, over the reals;
    the autograd engine and the gradient comparison, which [main] does not
    reach at its settings, are replaced by stand-ins. *)

Module MainExample.
Definition heap0 : Heap R :=
  [ replicate (12 * 1024) 1%R;     (* 0: ln_weight *)
    replicate (12 * 1024) 0%R;     (* 1: ln_bias *)
    replicate (12 * 1024) 0%R;     (* 2: x *)
    replicate (12 * 1024) 0%R;     (* 3: bias *)
    replicate (12 * 1024) 0%R ].   (* 4: residual *)
Definition ln_weight : TensorRef := mkRef 0 0 [12 * 1024].
Definition ln_bias : TensorRef := mkRef 1 0 [12 * 1024].
Definition x : TensorRef := mkRef 2 0 [1; 1; 12 * 1024].
Definition bias : TensorRef := mkRef 3 0 [12 * 1024].
Definition residual : TensorRef := mkRef 4 0 [1; 1; 12 * 1024].
Definition stub_backward (y : TensorRef) : M R unit := ret tt.
Definition stub_compare_bprop : IO (F:=R) unit := io_ret tt.
(** A result for each of the four implementations: the tensors of
    [Example], the same for all. *)
Definition results : gmap string (TensorRef * TensorRef * TensorRef) :=
  <["native" := (Example.x, Example.x2, Example.amax_tensor)]>
    (<["compile" := (Example.x, Example.x2, Example.amax_tensor)]>
       (<["te" := (Example.x, Example.x2, Example.amax_tensor)]>
          (<["nvfuser" := (Example.x, Example.x2, Example.amax_tensor)]> ∅))).
End MainExample.

(** ** Statements used by the further properties *)

Section FurtherStatements.
Context {F : Type}.

(** [writes_only b m]: whatever [m] does and however it ends, the heap it
    leaves is the heap it found, changed at most in buffer [b], followed
    by new buffers. *)
Definition writes_only {A : Type} (b : nat) (m : M F A) : Prop :=
  forall h : Heap F, exists h0 k,
    (m h).2 = h0 ++ k /\ length h0 = length h
    /\ forall i, i <> b -> h0 !! i = h !! i.
End FurtherStatements.


(* ===================================================================== *)
(** * Part II: properties                                                 *)
(* ===================================================================== *)

(** ** Blocks of a row-major array *)

Section Chunks.
Context {A : Type}.
Implicit Types (d : list A) (rows : list (list A)).

Lemma chunks_length k m d : length (chunks k m d) = m.
Proof. revert d. induction m as [|m IH]; intros d; simpl; [done | by rewrite IH]. Qed.

Lemma chunks_join k m d :
  length d = m * k -> mjoin (chunks k m d) = d.
Proof.
  revert d. induction m as [|m IH]; intros d Hd; simpl in *.
  - by destruct d.
  - rewrite IH; [apply take_drop | rewrite length_drop; lia].
Qed.

Lemma chunks_Forall_length k m d :
  length d = m * k -> Forall (fun c => length c = k) (chunks k m d).
Proof.
  revert d. induction m as [|m IH]; intros d Hd; simpl in *; constructor.
  - rewrite length_take. lia.
  - apply IH. rewrite length_drop. lia.
Qed.

Lemma chunks_of_join k rows :
  Forall (fun c => length c = k) rows ->
  chunks k (length rows) (mjoin rows) = rows.
Proof.
  induction 1 as [|r rows Hr _ IH]; simpl; [done|].
  rewrite take_app_length', drop_app_length' by done. by rewrite IH.
Qed.

Lemma chunks_one k d : length d = k -> chunks k 1 d = [d].
Proof. intros <-. simpl. by rewrite firstn_all. Qed.

Lemma join_replicate_mul (a b : nat) (l : list A) :
  mjoin (replicate a (mjoin (replicate b l))) = mjoin (replicate (a * b) l).
Proof.
  induction a as [|a IH]; simpl; [done|].
  by rewrite replicate_add, join_app, IH.
Qed.

Lemma join_replicate_length (a : nat) (l : list A) :
  length (mjoin (replicate a l)) = a * length l.
Proof. induction a as [|a IH]; simpl; [done|]. rewrite length_app, IH. lia. Qed.

Lemma chunks_replicate k m (l : list A) :
  length l = k -> chunks k m (mjoin (replicate m l)) = replicate m l.
Proof.
  intros Hl. rewrite <- (length_replicate m l) at 1.
  apply chunks_of_join. by apply Forall_replicate.
Qed.

Lemma join_singletons_replicate (m : nat) (v : A) :
  mjoin (replicate m [v]) = replicate m v.
Proof. induction m as [|m IH]; simpl; [done | by rewrite IH]. Qed.
End Chunks.

Lemma chunks_zip_with {A B C : Type} (f : A -> B -> C) k m (a : list A) (b : list B) :
  chunks k m (zip_with f a b) = zip_with (zip_with f) (chunks k m a) (chunks k m b).
Proof.
  revert a b. induction m as [|m IH]; intros a b; simpl; [done|].
  by rewrite zip_with_take, zip_with_drop, IH.
Qed.

Lemma chunks_fmap {A B : Type} (f : A -> B) k m (a : list A) :
  chunks k m (f <$> a) = (fmap (M:=list) f) <$> chunks k m a.
Proof.
  revert a. induction m as [|m IH]; intros a; simpl; [done|].
  by rewrite <- fmap_take, <- fmap_drop, IH.
Qed.

Lemma join_fmap_fmap {A B : Type} (f : A -> B) (rows : list (list A)) :
  mjoin (fmap (M:=list) f <$> rows) = f <$> mjoin rows.
Proof. induction rows as [|r rows IH]; csimpl; [done|]. by rewrite fmap_app, IH. Qed.

Lemma zip_with_replicate_rows {A B C : Type} (f : A -> B -> C) (rows : list A) (b : B) :
  zip_with f rows (replicate (length rows) b) = (fun r => f r b) <$> rows.
Proof. induction rows as [|r rows IH]; simpl; [done | by rewrite IH]. Qed.

Lemma zip_with_fmap_same {A B C : Type} (f : A -> B -> C) (g1 : A -> A) (l : list A) (k : list B) :
  zip_with f (g1 <$> l) k = zip_with (fun a b => f (g1 a) b) l k.
Proof. revert k. induction l as [|a l IH]; intros [|b k]; simpl; [done..|]. by rewrite IH. Qed.

(** ** Shapes *)

Lemma numel_app s1 s2 : numel (s1 ++ s2) = numel s1 * numel s2.
Proof.
  unfold numel. induction s1 as [|a s1 IH]; simpl; [lia|]. rewrite IH. lia.
Qed.

Lemma numel_snoc s n : numel (s ++ [n]) = numel s * n.
Proof. rewrite numel_app. unfold numel. simpl. lia. Qed.

Lemma numel_replicate_one k : numel (replicate k 1) = 1.
Proof. unfold numel. induction k as [|k IH]; simpl; [done|]. rewrite IH. done. Qed.

(** ** Broadcasting *)

Section Broadcast.
Context {F : Type}.
Implicit Types (d : list F) (s lead : list nat).

Lemma broadcast_dim_refl a : broadcast_dim a a = Some a.
Proof. unfold broadcast_dim. by rewrite Nat.eqb_refl. Qed.

Lemma broadcast_dim_one_r a : broadcast_dim a 1 = Some a.
Proof.
  unfold broadcast_dim. by destruct (a =? 1).
Qed.

Lemma broadcast_aligned_refl s : broadcast_aligned s s = Some s.
Proof.
  induction s as [|a s IH]; simpl; [done|]. by rewrite broadcast_dim_refl, IH.
Qed.

Lemma broadcast_aligned_prefix lead s :
  broadcast_aligned (lead ++ s) (replicate (length lead) 1 ++ s) = Some (lead ++ s).
Proof.
  induction lead as [|a lead IH]; simpl; [apply broadcast_aligned_refl|].
  by rewrite broadcast_dim_one_r, IH.
Qed.

Lemma pad_shape_same s : pad_shape (length s) s = s.
Proof. unfold pad_shape. by rewrite Nat.sub_diag. Qed.

Lemma pad_shape_prefix lead s :
  pad_shape (length (lead ++ s)) s = replicate (length lead) 1 ++ s.
Proof.
  unfold pad_shape. rewrite length_app. do 2 f_equal. lia.
Qed.

Lemma broadcast_shapes_prefix lead s :
  broadcast_shapes (lead ++ s) s = Some (lead ++ s).
Proof.
  unfold broadcast_shapes.
  replace (length (lead ++ s) `max` length s) with (length (lead ++ s))
    by (rewrite length_app; lia).
  rewrite pad_shape_same, pad_shape_prefix. apply broadcast_aligned_prefix.
Qed.

Lemma broadcast_shapes_same s : broadcast_shapes s s = Some s.
Proof. apply (broadcast_shapes_prefix [] s). Qed.

Lemma expand_same s d : length d = numel s -> expand s s d = d.
Proof.
  revert d. induction s as [|a s IH]; intros d Hd; simpl; [done|].
  rewrite Nat.eqb_refl.
  change (numel (a :: s)) with (a * numel s) in Hd.
  assert (Hc : Forall (fun c => length c = numel s) (chunks (numel s) a d))
    by (apply chunks_Forall_length; lia).
  transitivity (mjoin (chunks (numel s) a d)); [|apply chunks_join; lia].
  f_equal. induction Hc as [|c cs Hc _ IHc]; csimpl; [done|].
  by rewrite IH, IHc.
Qed.

Lemma expand_prefix lead s d :
  length d = numel s ->
  expand (replicate (length lead) 1 ++ s) (lead ++ s) d
  = mjoin (replicate (numel lead) d).
Proof.
  intros Hd. induction lead as [|a lead IH]; simpl.
  - rewrite expand_same by done. by rewrite app_nil_r.
  - change (numel (a :: lead)) with (a * numel lead).
    destruct a as [|[|a]]; simpl Nat.eqb; cbv iota.
    + rewrite IH. by rewrite <- join_replicate_mul.
    + rewrite numel_app, numel_replicate_one, Nat.mul_1_l.
      rewrite take_ge by lia. by rewrite IH, app_nil_r, Nat.mul_1_l.
    + rewrite IH. by rewrite join_replicate_mul.
Qed.

Lemma expand_to_same s d :
  length d = numel s -> expand_to s (mkTensor s d) = d.
Proof. intros. unfold expand_to. simpl. rewrite pad_shape_same. by apply expand_same. Qed.

Lemma expand_to_prefix lead s d :
  length d = numel s ->
  expand_to (lead ++ s) (mkTensor s d) = mjoin (replicate (numel lead) d).
Proof.
  intros. unfold expand_to. simpl. rewrite pad_shape_prefix. by apply expand_prefix.
Qed.

(** Same-shape operands: the operation is applied position by position. *)
Lemma tensor_binop_same (f : F -> F -> F) s d1 d2 :
  length d1 = numel s -> length d2 = numel s ->
  tensor_binop f (mkTensor s d1) (mkTensor s d2)
  = Ok (mkTensor s (zip_with f d1 d2)).
Proof.
  intros H1 H2. unfold tensor_binop. simpl.
  by rewrite broadcast_shapes_same, !expand_to_same.
Qed.

(** A right operand whose shape is a suffix of the left one's is repeated
    along the leading axes. *)
Lemma tensor_binop_prefix (f : F -> F -> F) lead s d1 d2 :
  length d1 = numel (lead ++ s) -> length d2 = numel s ->
  tensor_binop f (mkTensor (lead ++ s) d1) (mkTensor s d2)
  = Ok (mkTensor (lead ++ s) (zip_with f d1 (mjoin (replicate (numel lead) d2)))).
Proof.
  intros H1 H2. unfold tensor_binop. simpl.
  by rewrite broadcast_shapes_prefix, expand_to_same, expand_to_prefix.
Qed.

(** A 0-dim right operand acts as a scalar. *)
Lemma tensor_binop_scalar (f : F -> F -> F) s d1 v :
  length d1 = numel s ->
  tensor_binop f (mkTensor s d1) (mkTensor [] [v])
  = Ok (mkTensor s ((fun a => f a v) <$> d1)).
Proof.
  intros H1. pose proof (tensor_binop_prefix f s [] d1 [v]) as H.
  rewrite app_nil_r in H. rewrite H by done. do 2 f_equal.
  rewrite join_singletons_replicate, <- H1. apply zip_with_replicate_rows.
Qed.
End Broadcast.

(** ** The heap *)

Section HeapFacts.
Context {F : Type}.
Implicit Types (h : Heap F) (t : TensorRef) (v : Tensor F) (d : list F).

Lemma read_Some h t v :
  read h t = Some v ->
  exists b, h !! t_buf t = Some b
    /\ t_off t + numel (t_shape t) <= length b
    /\ v = mkTensor (t_shape t) (take (numel (t_shape t)) (drop (t_off t) b)).
Proof.
  unfold read. destruct (h !! t_buf t) as [b|]; [|done].
  destruct (Nat.leb_spec (t_off t + numel (t_shape t)) (length b)); [|done].
  intros [= <-]. eauto.
Qed.

Lemma read_intro h t b :
  h !! t_buf t = Some b ->
  t_off t + numel (t_shape t) <= length b ->
  read h t = Some (mkTensor (t_shape t) (take (numel (t_shape t)) (drop (t_off t) b))).
Proof.
  intros Hb Hle. unfold read. rewrite Hb.
  by destruct (Nat.leb_spec (t_off t + numel (t_shape t)) (length b)); [|lia].
Qed.

Lemma read_shape h t v : read h t = Some v -> shape v = t_shape t.
Proof. intros (b & _ & _ & ->)%read_Some. done. Qed.

Lemma read_length h t v : read h t = Some v -> length (data v) = numel (shape v).
Proof.
  intros (b & _ & Hle & ->)%read_Some. simpl.
  rewrite length_take, length_drop. lia.
Qed.

Lemma read_buf_lt h t v : read h t = Some v -> t_buf t < length h.
Proof. intros (b & Hb & _)%read_Some. by eapply lookup_lt_Some. Qed.

Lemma read_app_old h k t v : read h t = Some v -> read (h ++ k) t = Some v.
Proof.
  intros Hr. pose proof (read_buf_lt _ _ _ Hr) as Hlt.
  unfold read in *. by rewrite lookup_app_l.
Qed.

Lemma read_alloc_new h s d :
  length d = numel s -> read (h ++ [d]) (mkRef (length h) 0 s) = Some (mkTensor s d).
Proof.
  intros Hd. unfold read. simpl.
  rewrite list_lookup_middle by done. simpl.
  destruct (Nat.leb_spec (numel s) (length d)); [|lia].
  by rewrite drop_0, take_ge by lia.
Qed.

(** A view with as many elements denotes the same elements. *)
Lemma read_reshape h t v s' :
  read h t = Some v -> numel s' = numel (t_shape t) ->
  read h (mkRef (t_buf t) (t_off t) s') = Some (mkTensor s' (data v)).
Proof.
  intros (b & Hb & Hle & ->)%read_Some Hs.
  rewrite (read_intro h (mkRef (t_buf t) (t_off t) s') b); simpl; [|done|lia].
  by rewrite Hs.
Qed.

Lemma read_insert_other h t b c :
  t_buf t <> b -> read (<[b := c]> h) t = read h t.
Proof. intros Hne. unfold read. by rewrite list_lookup_insert_ne. Qed.

(** [store_fill] writes the cells of its target and nothing else. *)
Lemma store_fill_run h t v0 x :
  read h t = Some v0 ->
  exists h',
    store_fill t x h = (Ok tt, h')
    /\ length h' = length h
    /\ read h' t = Some (mkTensor (t_shape t) (replicate (numel (t_shape t)) x))
    /\ (forall t', t_buf t' <> t_buf t -> read h' t' = read h t').
Proof.
  intros (b & Hb & Hle & _)%read_Some. unfold store_fill. rewrite Hb.
  destruct (Nat.leb_spec (t_off t + numel (t_shape t)) (length b)); [|lia].
  eexists. split; [done|]. split; [by rewrite length_insert|]. split.
  - assert (Hlt : t_buf t < length h) by (by eapply lookup_lt_Some).
    rewrite (read_intro _ t _ (list_lookup_insert_eq h (t_buf t) _ Hlt)).
    + do 2 f_equal.
      rewrite drop_app_length' by (rewrite length_take; lia).
      by rewrite take_app_length' by (by rewrite length_replicate).
    + rewrite !length_app, length_take, length_replicate, length_drop. lia.
  - intros t' Hne. by apply read_insert_other.
Qed.
End HeapFacts.

(** ** Running the tensor primitives *)

Section RunFacts.
Context {F : Type} {SF : Scalar F}.
Implicit Types (h : Heap F) (t : TensorRef) (v : Tensor F) (d : list F).

Lemma bind_Ok {A B : Type} (m : M F A) (k : A -> M F B) h a h' :
  m h = (Ok a, h') -> bind m k h = k a h'.
Proof. intros H. unfold bind. by rewrite H. Qed.

Lemma bind_Raise {A B : Type} (m : M F A) (k : A -> M F B) h e h' :
  m h = (Raise e, h') -> bind m k h = (Raise e, h').
Proof. intros H. unfold bind. by rewrite H. Qed.

Lemma load_run h t v : read h t = Some v -> load t h = (Ok v, h).
Proof. intros H. unfold load. by rewrite H. Qed.

Lemma torch_binop_run f a b va vb v h :
  read h a = Some va -> read h b = Some vb ->
  tensor_binop f va vb = Ok v ->
  torch_binop f a b h = (Ok (mkRef (length h) 0 (shape v)), h ++ [data v]).
Proof.
  intros Ha Hb Hv. unfold torch_binop.
  rewrite (bind_Ok _ _ _ _ _ (load_run _ _ _ Ha)).
  rewrite (bind_Ok _ _ _ _ _ (load_run _ _ _ Hb)).
  unfold bind, lift, alloc. by rewrite Hv.
Qed.

Lemma scalar_add_run s a va h :
  read h a = Some va ->
  scalar_add s a h
  = (Ok (mkRef (length h) 0 (shape va)), h ++ [fadd s <$> data va]).
Proof.
  intros Ha. unfold scalar_add.
  by rewrite (bind_Ok _ _ _ _ _ (load_run _ _ _ Ha)).
Qed.

Lemma torch_abs_run a va h :
  read h a = Some va ->
  torch_abs a h = (Ok (mkRef (length h) 0 (shape va)), h ++ [fabs <$> data va]).
Proof.
  intros Ha. unfold torch_abs.
  by rewrite (bind_Ok _ _ _ _ _ (load_run _ _ _ Ha)).
Qed.

Lemma torch_amax_run a va m h :
  read h a = Some va -> amax_list (data va) = Ok m ->
  torch_amax a h = (Ok (mkRef (length h) 0 []), h ++ [[m]]).
Proof.
  intros Ha Hm. unfold torch_amax.
  rewrite (bind_Ok _ _ _ _ _ (load_run _ _ _ Ha)).
  unfold bind, lift, alloc. by rewrite Hm.
Qed.

Lemma layer_norm_run x w b vx vw vb ns eps v h :
  read h x = Some vx -> read h w = Some vw -> read h b = Some vb ->
  tensor_layer_norm vx ns vw vb eps = Ok v ->
  layer_norm x ns w b eps h = (Ok (mkRef (length h) 0 (shape v)), h ++ [data v]).
Proof.
  intros Hx Hw Hb Hv. unfold layer_norm.
  rewrite (bind_Ok _ _ _ _ _ (load_run _ _ _ Hx)).
  rewrite (bind_Ok _ _ _ _ _ (load_run _ _ _ Hw)).
  rewrite (bind_Ok _ _ _ _ _ (load_run _ _ _ Hb)).
  unfold bind, lift, alloc. by rewrite Hv.
Qed.

Lemma view_neg1_run t n rows h :
  n <> 0 -> numel (t_shape t) = rows * n ->
  view_neg1 t n h = (Ok (mkRef (t_buf t) (t_off t) [rows; n]), h).
Proof.
  intros Hn Hs. unfold view_neg1. rewrite Hs.
  destruct (Nat.eqb_spec n 0); [done|].
  rewrite Nat.Div0.mod_mul, Nat.eqb_refl, Nat.div_mul by done. done.
Qed.

Lemma fill_run t value v0 x h :
  read h t = Some v0 -> read h value = Some (mkTensor [] [x]) ->
  exists h',
    fill_ t value h = (Ok tt, h')
    /\ length h' = length h
    /\ read h' t = Some (mkTensor (t_shape t) (replicate (numel (t_shape t)) x))
    /\ (forall t', t_buf t' <> t_buf t -> read h' t' = read h t').
Proof.
  intros Ht Hv. unfold fill_.
  rewrite (bind_Ok _ _ _ _ _ (load_run _ _ _ Hv)). simpl.
  by eapply store_fill_run.
Qed.
End RunFacts.

(** ** The native implementation computes the reference model *)

Lemma zip3_with_fmap_1 {A A' B C D : Type} (f : A' -> B -> C -> D) (g : A -> A')
    (a : list A) (b : list B) (c : list C) :
  zip3_with f (g <$> a) b c = zip3_with (fun x y z => f (g x) y z) a b c.
Proof.
  unfold zip3_with. revert b c.
  induction a as [|x a IH]; intros [|y b] [|z c]; simpl; try done.
  f_equal. apply IH.
Qed.

Lemma zip_with_zip_with_l {A B C D E : Type} (h : D -> C -> E) (g : A -> B -> D)
    (a : list A) (b : list B) (c : list C) :
  zip_with h (zip_with g a b) c = zip3_with (fun x y z => h (g x y) z) a b c.
Proof.
  unfold zip3_with. revert b c.
  induction a as [|x a IH]; intros [|y b] [|z c]; simpl; try done.
  f_equal. apply IH.
Qed.

Lemma zip3_with_length {A B C D : Type} (f : A -> B -> C -> D) n
    (a : list A) (b : list B) (c : list C) :
  length a = n -> length b = n -> length c = n -> length (zip3_with f a b c) = n.
Proof.
  intros Ha Hb Hc. unfold zip3_with.
  rewrite length_zip_with, length_zip_with. lia.
Qed.

Lemma join_length_rows {A : Type} n (rows : list (list A)) :
  Forall (fun c => length c = n) rows -> length (mjoin rows) = length rows * n.
Proof.
  induction 1 as [|r rows Hr _ IH]; simpl; [done|]. rewrite length_app. lia.
Qed.

Lemma Forall_zip_with_rows {A B C : Type} (P : C -> Prop) (f : A -> B -> C)
    (a : list A) (b : list B) :
  (forall x y, x ∈ a -> y ∈ b -> P (f x y)) -> Forall P (zip_with f a b).
Proof.
  revert b. induction a as [|x a IH]; intros [|y b] H; simpl; constructor.
  - apply H; constructor.
  - apply IH. intros x' y' Hx Hy. apply H; by constructor.
Qed.

Section ReferenceFacts.
Context {F : Type} {SF : Scalar F}.
Implicit Types (X B R W C D : list F).

Lemma rows_of_chunks n rows X :
  n <> 0 -> length X = rows * n -> rows_of n X = chunks n rows X.
Proof. intros Hn HX. unfold rows_of. by rewrite HX, Nat.div_mul. Qed.

Lemma rows_of_Forall n rows X :
  n <> 0 -> length X = rows * n -> Forall (fun c => length c = n) (rows_of n X).
Proof.
  intros Hn HX. rewrite (rows_of_chunks n rows) by done.
  by apply chunks_Forall_length.
Qed.

Lemma rows_of_length n rows X :
  n <> 0 -> length X = rows * n -> length (rows_of n X) = rows.
Proof.
  intros Hn HX. rewrite (rows_of_chunks n rows) by done. apply chunks_length.
Qed.

Lemma spec_pre_length n rows X B R :
  n <> 0 -> length X = rows * n -> length R = rows * n ->
  length (spec_pre (rows_of n X) B (rows_of n R)) = rows.
Proof.
  intros Hn HX HR. unfold spec_pre.
  rewrite length_zip_with, !(rows_of_length n rows) by done. lia.
Qed.

Lemma spec_pre_Forall n rows X B R :
  n <> 0 -> length X = rows * n -> length R = rows * n -> length B = n ->
  Forall (fun c => length c = n) (spec_pre (rows_of n X) B (rows_of n R)).
Proof.
  intros Hn HX HR HB. unfold spec_pre. apply Forall_zip_with_rows.
  intros xr rr Hx Hr. apply zip3_with_length; [|done|].
  - pose proof (rows_of_Forall n rows X Hn HX) as H.
    rewrite Forall_forall in H. by apply H.
  - pose proof (rows_of_Forall n rows R Hn HR) as H.
    rewrite Forall_forall in H. by apply H.
Qed.

(** The flat bias-add of the code is the row-wise one of the model. *)
Lemma bias_add_rows n rows X B R :
  n <> 0 -> length X = rows * n -> length R = rows * n -> length B = n ->
  zip_with fadd (zip_with fadd X (mjoin (replicate rows B))) R
  = mjoin (spec_pre (rows_of n X) B (rows_of n R)).
Proof.
  intros Hn HX HR HB.
  assert (HBB : length (mjoin (replicate rows B)) = rows * n)
    by (by rewrite join_replicate_length, HB).
  rewrite <- (chunks_join n rows (zip_with fadd _ R)) at 1
    by (rewrite !length_zip_with; lia).
  f_equal. rewrite !chunks_zip_with, chunks_replicate by done.
  rewrite !(rows_of_chunks n rows) by done. unfold spec_pre.
  rewrite <- (chunks_length n rows X) at 2. rewrite zip_with_replicate_rows.
  rewrite zip_with_fmap_l. apply zip_with_ext; [|done..].
  intros xr rr. apply zip_with_zip_with_l.
Qed.

Lemma layer_norm_group_spec eps w c r :
  layer_norm_group eps w c r
  = zip3_with (fun v g b => fadd (fmul v g) b) (spec_normalized eps r) w c.
Proof.
  unfold spec_normalized. rewrite zip3_with_fmap_1.
  unfold layer_norm_group, var_F, mean_F, sum_F, spec_variance, spec_mean.
  by rewrite length_fmap.
Qed.

Lemma layer_norm_rows eps zcg W C (pre : list (list F)) :
  layer_norm_group eps (spec_w_eff zcg W) C <$> pre
  = spec_ln_unscaled eps zcg W C pre.
Proof.
  unfold spec_ln_unscaled. apply list_fmap_ext. intros _ row _.
  apply layer_norm_group_spec.
Qed.

Lemma spec_w_eff_length zcg W : length (spec_w_eff zcg W) = length W.
Proof. destruct zcg; simpl; [apply length_fmap | done]. Qed.

Lemma spec_ln_unscaled_length eps zcg W C (pre : list (list F)) :
  length (spec_ln_unscaled eps zcg W C pre) = length pre.
Proof. unfold spec_ln_unscaled. apply length_fmap. Qed.

Lemma spec_ln_unscaled_Forall eps zcg W C (pre : list (list F)) n :
  length W = n -> length C = n -> Forall (fun c => length c = n) pre ->
  Forall (fun c => length c = n) (spec_ln_unscaled eps zcg W C pre).
Proof.
  intros HW HC Hpre. unfold spec_ln_unscaled. apply Forall_fmap.
  eapply Forall_impl; [exact Hpre|]. intros row Hrow. simpl.
  apply zip3_with_length; [|by rewrite spec_w_eff_length|done].
  unfold spec_normalized. by rewrite length_fmap.
Qed.

Lemma spec_ln_out_join s (u : list (list F)) :
  mjoin (spec_ln_out s u) = (fun v => fmul v s) <$> mjoin u.
Proof. unfold spec_ln_out. apply join_fmap_fmap. Qed.

Lemma amax_list_spec (u : list (list F)) :
  mjoin u <> [] ->
  exists m, spec_amax u = Some m /\ amax_list (fabs <$> mjoin u) = Ok m.
Proof.
  intros Hne. unfold spec_amax, amax_list.
  destruct (mjoin u) as [|v vs]; [done|]. csimpl. eauto.
Qed.

Lemma tensor_layer_norm_rows eps rows n D Wd C :
  n <> 0 -> length D = rows * n ->
  tensor_layer_norm (mkTensor [rows; n] D) [n] (mkTensor [n] Wd) (mkTensor [n] C) eps
  = Ok (mkTensor [rows; n] (mjoin (layer_norm_group eps Wd C <$> chunks n rows D))).
Proof.
  intros Hn HD. unfold tensor_layer_norm, shape_eqb. simpl.
  rewrite !bool_decide_eq_true_2 by done. simpl.
  replace (numel [n]) with n by (unfold numel; simpl; lia).
  by rewrite HD, Nat.div_mul.
Qed.
End ReferenceFacts.

Ltac solve_read :=
  first [ eassumption
        | apply read_alloc_new
        | apply read_app_old; solve_read ].

Section NativeRun.
Context {F : Type} {SF : Scalar F}.

Lemma tuple_last_run (h : Heap F) (l : list nat) n :
  tuple_last (F:=F) (l ++ [n]) h = (Ok n, h).
Proof. unfold tuple_last. by rewrite last_snoc. Qed.

(** The weight the layer norm uses: [ln_weight] itself, or a fresh
    [1 + ln_weight]. *)
Lemma effective_weight_run (h : Heap F) zcg ln_weight n W :
  read h ln_weight = Some (mkTensor [n] W) ->
  exists w' k,
    (if negb zcg then ret ln_weight else scalar_add fone ln_weight) h
    = (Ok w', h ++ k)
    /\ read (h ++ k) w' = Some (mkTensor [n] (spec_w_eff zcg W)).
Proof.
  intros Hw. destruct zcg; simpl.
  - eexists _, [_]. split; [by apply scalar_add_run|]. simpl.
    apply read_alloc_new. rewrite length_fmap.
    by apply read_length in Hw.
  - exists ln_weight, []. rewrite app_nil_r. done.
Qed.

Lemma valid_inputs_dims (h : Heap F) x bias residual w_shape ln_weight ln_bias
    lead n X B R W C :
  valid_inputs h x bias residual w_shape ln_weight ln_bias lead n X B R W C ->
  n <> 0 /\ length X = numel lead * n /\ length R = numel lead * n
  /\ length B = n /\ length W = n /\ length C = n.
Proof.
  intros [Hx Hb Hr _ Hw Hc Hne].
  apply read_length in Hx, Hb, Hr, Hw, Hc. simpl in *.
  rewrite numel_snoc in Hx, Hr.
  assert (Hn1 : numel [n] = n) by (unfold numel; simpl; lia).
  rewrite Hn1 in Hb, Hw, Hc.
  repeat split; try done.
  intros ->. destruct X; [done|]. simpl in Hx. lia.
Qed.

(** What a call of the native implementation returns and leaves behind. *)
Lemma bias_add_ln_native_run (h : Heap F) x bias residual w_shape
    ln_weight ln_bias eps dt zcg scale_tensor amax_tensor
    lead n X B R W C s a0 :
  valid_inputs h x bias residual w_shape ln_weight ln_bias lead n X B R W C ->
  valid_meta h scale_tensor amax_tensor s a0 ->
  let pre := spec_pre (rows_of n X) B (rows_of n R) in
  let u := spec_ln_unscaled eps zcg W C pre in
  exists bda_out ln_out h' m,
    bias_add_ln_native x bias residual w_shape ln_weight ln_bias eps dt zcg
      scale_tensor amax_tensor h
    = (Ok (bda_out, ln_out, amax_tensor), h')
    /\ read h' bda_out = Some (mkTensor [numel lead; n] (mjoin pre))
    /\ read h' ln_out = Some (mkTensor [numel lead; n] (mjoin (spec_ln_out s u)))
    /\ spec_amax u = Some m
    /\ read h' amax_tensor = Some (mkTensor [] [m])
    /\ (forall t v, t_buf t <> t_buf amax_tensor ->
          read h t = Some v -> read h' t = Some v).
Proof.
  intros Hvi Hvm pre u.
  destruct (valid_inputs_dims _ _ _ _ _ _ _ _ _ _ _ _ _ _ Hvi)
    as (Hn & HX & HR & HB & HW & HC).
  destruct Hvi as [Hx Hb Hr -> Hw Hc Hne]. destruct Hvm as [Hs Ha Hdis].
  set (rows := numel lead) in *.
  assert (Hprelen : length pre = rows) by (by apply spec_pre_length).
  assert (Hpre : Forall (fun c => length c = n) pre) by (by apply (spec_pre_Forall n rows)).
  assert (HD : length (mjoin pre) = rows * n)
    by (by rewrite (join_length_rows n), Hprelen).
  assert (Hulen : length u = rows)
    by (unfold u; by rewrite spec_ln_unscaled_length).
  assert (Hu : Forall (fun c => length c = n) u)
    by (by apply spec_ln_unscaled_Forall).
  assert (HU : length (mjoin u) = rows * n)
    by (by rewrite (join_length_rows n), Hulen).
  assert (Hshape2 : numel [rows; n] = rows * n) by (unfold numel; simpl; lia).
  unfold bias_add_ln_native.
  (* x + bias *)
  set (D0 := zip_with fadd X (mjoin (replicate rows B))).
  rewrite (bind_Ok _ _ _ _ _
    (torch_binop_run fadd x bias _ _ _ h Hx Hb
       (tensor_binop_prefix fadd lead [n] X B
          ltac:(by rewrite numel_snoc) ltac:(by rewrite HB; unfold numel; simpl; lia)))).
  simpl shape; simpl data. fold rows. fold D0.
  assert (HD0 : length D0 = rows * n).
  { unfold D0. rewrite length_zip_with, join_replicate_length. lia. }
  set (h1 := h ++ [D0]).
  (* ... + residual *)
  assert (Ht : read h1 (mkRef (length h) 0 (lead ++ [n]))
               = Some (mkTensor (lead ++ [n]) D0)).
  { apply read_alloc_new. by rewrite numel_snoc. }
  rewrite (bind_Ok _ _ _ _ _
    (torch_binop_run fadd _ residual _ _ _ h1 Ht (read_app_old _ _ _ _ Hr)
       (tensor_binop_same fadd (lead ++ [n]) D0 R
          ltac:(by rewrite numel_snoc) ltac:(by rewrite numel_snoc)))).
  simpl shape; simpl data.
  replace (zip_with fadd D0 R) with (mjoin pre)
    by (symmetry; by apply (bias_add_rows n rows)).
  set (h2 := h1 ++ [mjoin pre]).
  (* .view(-1, w_shape[-1]) *)
  rewrite (bind_Ok _ _ _ _ _ (tuple_last_run h2 [] n)).
  rewrite (bind_Ok _ _ _ _ _
    (view_neg1_run (mkRef (length h1) 0 (lead ++ [n])) n rows h2 Hn
       ltac:(by simpl; rewrite numel_snoc))).
  simpl t_buf; simpl t_off.
  set (out1 := mkRef (length h1) 0 [rows; n]).
  assert (Hout1 : read h2 out1 = Some (mkTensor [rows; n] (mjoin pre))).
  { apply read_alloc_new. by rewrite Hshape2. }
  (* effective weight *)
  destruct (effective_weight_run h2 zcg ln_weight n W) as (w' & k & Ew & Hw').
  { unfold h2, h1. solve_read. }
  rewrite (bind_Ok _ _ _ _ _ Ew).
  set (h3 := h2 ++ k) in *.
  (* layer_norm *)
  assert (Eln : tensor_layer_norm (mkTensor [rows; n] (mjoin pre)) [n]
                  (mkTensor [n] (spec_w_eff zcg W)) (mkTensor [n] C) eps
                = Ok (mkTensor [rows; n] (mjoin u))).
  { rewrite tensor_layer_norm_rows by done. do 3 f_equal.
    rewrite <- Hprelen, chunks_of_join by done. apply layer_norm_rows. }
  rewrite (bind_Ok _ _ _ _ _
    (layer_norm_run out1 w' ln_bias _ _ _ [n] eps _ h3
       (read_app_old _ _ _ _ Hout1) Hw'
       ltac:(unfold h3, h2, h1; solve_read) Eln)).
  simpl shape; simpl data.
  set (out2 := mkRef (length h3) 0 [rows; n]).
  set (h4 := h3 ++ [mjoin u]).
  assert (Hout2 : read h4 out2 = Some (mkTensor [rows; n] (mjoin u))).
  { apply read_alloc_new. by rewrite Hshape2. }
  (* amax *)
  rewrite (bind_Ok _ _ _ _ _ (torch_abs_run out2 _ h4 Hout2)).
  simpl shape; simpl data.
  set (h5 := h4 ++ [fabs <$> mjoin u]).
  destruct (amax_list_spec u) as (m & Hm & Em).
  { intros E. rewrite E in HU. simpl in HU.
    destruct X; [done|]. simpl in HX. lia. }
  assert (Habs : read h5 (mkRef (length h4) 0 [rows; n])
                 = Some (mkTensor [rows; n] (fabs <$> mjoin u))).
  { apply read_alloc_new. by rewrite length_fmap, Hshape2. }
  rewrite (bind_Ok _ _ _ _ _ (torch_amax_run _ _ m h5 Habs Em)).
  set (h6 := h5 ++ [[m]]).
  (* amax_tensor.fill_(amax) *)
  assert (Ha6 : read h6 amax_tensor = Some (mkTensor [] [a0])).
  { unfold h6, h5, h4, h3, h2, h1. solve_read. }
  assert (Hm6 : read h6 (mkRef (length h5) 0 []) = Some (mkTensor [] [m])).
  { by apply read_alloc_new. }
  destruct (fill_run amax_tensor _ _ m h6 Ha6 Hm6)
    as (h7 & Efill & Hlen7 & Hamax7 & Hframe7).
  rewrite (bind_Ok _ _ _ _ _ Efill).
  pose proof (read_shape _ _ _ Ha) as Hashape. simpl in Hashape.
  rewrite <- Hashape in Hamax7. simpl in Hamax7.
  assert (Hlt : t_buf amax_tensor < length h) by (by eapply read_buf_lt).
  assert (Hold : forall t v, t_buf t <> t_buf amax_tensor ->
                   read h6 t = Some v -> read h7 t = Some v).
  { intros t v Hneq Ht6. by rewrite Hframe7. }
  (* out2 * scale_tensor *)
  assert (Hout2_7 : read h7 out2 = Some (mkTensor [rows; n] (mjoin u))).
  { apply Hold.
    - unfold out2, h3, h2, h1. simpl. rewrite !length_app. lia.
    - unfold h6, h5. solve_read. }
  assert (Hs7 : read h7 scale_tensor = Some (mkTensor [] [s])).
  { apply Hold; [done|]. unfold h6, h5, h4, h3, h2, h1. solve_read. }
  rewrite (bind_Ok _ _ _ _ _
    (torch_binop_run fmul out2 scale_tensor _ _ _ h7 Hout2_7 Hs7
       (tensor_binop_scalar fmul [rows; n] (mjoin u) s ltac:(by rewrite Hshape2)))).
  simpl shape; simpl data.
  rewrite <- spec_ln_out_join.
  exists out1, (mkRef (length h7) 0 [rows; n]), (h7 ++ [mjoin (spec_ln_out s u)]), m.
  split; [done|]. split.
  { apply read_app_old, Hold.
    - unfold out1, h1. simpl. rewrite !length_app. lia.
    - unfold h6, h5, h4, h3. solve_read. }
  split.
  { apply read_alloc_new.
    by rewrite spec_ln_out_join, length_fmap, Hshape2. }
  split; [done|]. split; [by apply read_app_old|].
  intros t v Hneq Htv. apply read_app_old, Hold; [done|].
  unfold h6, h5, h4, h3, h2, h1. solve_read.
Qed.
End NativeRun.

(** ** Successive calls and the dispatcher's metadata cells *)

Section CallFacts.
Context {F : Type} {SF : Scalar F}.


(** Indexing the only element of a one-element axis. *)
Lemma index_zero_run (h : Heap F) t s :
  t_shape t = 1 :: s ->
  index (F:=F) t 0 h = (Ok (mkRef (t_buf t) (t_off t + 0 * numel s) s), h).
Proof. intros Hs. unfold index. by rewrite Hs. Qed.

Lemma read_index_zero (h : Heap F) t s d :
  read h t = Some (mkTensor (1 :: s) d) ->
  read h (mkRef (t_buf t) (t_off t + 0 * numel s) s) = Some (mkTensor s d).
Proof.
  intros Hr. pose proof (read_shape _ _ _ Hr) as Hs. simpl in Hs.
  replace (t_off t + 0 * numel s) with (t_off t) by lia.
  pose proof (read_reshape h t _ s Hr) as H. simpl in H. apply H.
  rewrite <- Hs. unfold numel. simpl. lia.
Qed.

Lemma meta_scale_cell_run (h : Heap F) m s a0 :
  valid_meta_object h m s a0 ->
  exists sc, meta_scale_cell (VMeta m) h = (Ok sc, h)
    /\ t_buf sc = t_buf (scale m)
    /\ read h sc = Some (mkTensor [] [s]).
Proof.
  intros [Hs _ _]. pose proof (read_shape _ _ _ Hs) as Hshape. simpl in Hshape.
  eexists. unfold meta_scale_cell, as_meta, FP8_TENSOR_INDEX.
  rewrite (bind_Ok _ _ h m h) by done.
  rewrite (index_zero_run h _ []) by done.
  split; [done|]. split; [done|]. by apply read_index_zero.
Qed.

Lemma meta_amax_cell_run (h : Heap F) m s a0 :
  valid_meta_object h m s a0 ->
  exists ac, meta_amax_cell (VMeta m) h = (Ok ac, h)
    /\ t_buf ac = t_buf (amax_history m)
    /\ read h ac = Some (mkTensor [] [a0]).
Proof.
  intros [_ Ha _]. pose proof (read_shape _ _ _ Ha) as Hshape. simpl in Hshape.
  eexists. unfold meta_amax_cell, as_meta, FP8_TENSOR_INDEX.
  rewrite (bind_Ok _ _ h m h) by done.
  rewrite (bind_Ok _ _ _ _ _ (index_zero_run h _ [1] (eq_sym Hshape))).
  rewrite (index_zero_run h _ []) by done.
  split; [done|]. split; [done|].
  apply (read_index_zero h (mkRef _ _ [1]) [] [a0]).
  by apply read_index_zero.
Qed.

Lemma valid_meta_of_object (h : Heap F) m s a0 sc ac :
  valid_meta_object h m s a0 ->
  t_buf sc = t_buf (scale m) -> read h sc = Some (mkTensor [] [s]) ->
  t_buf ac = t_buf (amax_history m) -> read h ac = Some (mkTensor [] [a0]) ->
  valid_meta h sc ac s a0.
Proof.
  intros [_ _ Hd] Hsb Hs Hab Ha. constructor; [done..|]. by rewrite Hsb, Hab.
Qed.
End CallFacts.

(** ** The bias-dropout-add of the Transformer Engine variant *)

Lemma zip_with_comm {A B : Type} (f : A -> A -> B) (l k : list A) :
  (forall a b, f a b = f b a) -> zip_with f l k = zip_with f k l.
Proof.
  intros Hf. revert k. induction l as [|a l IH]; intros [|b k]; simpl; [done..|].
  by rewrite Hf, IH.
Qed.

Section DropoutFacts.
Context {F : Type} {SF : Scalar F}.
Variable native_dropout : Q -> Tensor F -> Tensor F.

Lemma dropout_zero_run (h : Heap F) t training :
  dropout native_dropout t 0 training h = (Ok t, h).
Proof. reflexivity. Qed.

(** [x + bias] followed by [... + residual], the bias-add of the native
    implementation, on valid inputs. *)
Lemma bias_add_run (h : Heap F) x bias residual w_shape ln_weight ln_bias
    lead n X B R W C :
  valid_inputs h x bias residual w_shape ln_weight ln_bias lead n X B R W C ->
  (t <- torch_add x bias ;; torch_add t residual) h
  = (Ok (mkRef (length (h ++ [zip_with fadd X (mjoin (replicate (numel lead) B))]))
           0 (lead ++ [n])),
     (h ++ [zip_with fadd X (mjoin (replicate (numel lead) B))])
       ++ [mjoin (spec_pre (rows_of n X) B (rows_of n R))]).
Proof.
  intros Hvi.
  destruct (valid_inputs_dims _ _ _ _ _ _ _ _ _ _ _ _ _ _ Hvi)
    as (Hn & HX & HR & HB & HW & HC).
  destruct Hvi as [Hx Hb Hr _ _ _ _].
  set (D0 := zip_with fadd X (mjoin (replicate (numel lead) B))).
  assert (HD0 : length D0 = numel lead * n).
  { unfold D0. rewrite length_zip_with, join_replicate_length. lia. }
  unfold torch_add.
  rewrite (bind_Ok _ _ _ _ _
    (torch_binop_run fadd x bias _ _ _ h Hx Hb
       (tensor_binop_prefix fadd lead [n] X B
          ltac:(by rewrite numel_snoc) ltac:(by rewrite HB; unfold numel; simpl; lia)))).
  simpl shape; simpl data. fold D0.
  rewrite (torch_binop_run fadd _ residual _ _ _ (h ++ [D0])
       (read_alloc_new h (lead ++ [n]) D0 ltac:(by rewrite numel_snoc))
       (read_app_old _ _ _ _ Hr)
       (tensor_binop_same fadd (lead ++ [n]) D0 R
          ltac:(by rewrite numel_snoc) ltac:(by rewrite numel_snoc))).
  simpl shape; simpl data. unfold D0 at 3.
  by rewrite (bias_add_rows n (numel lead)).
Qed.

Lemma bias_dropout_add_fused_run (h : Heap F) x bias residual w_shape ln_weight
    ln_bias lead n X B R W C training :
  valid_inputs h x bias residual w_shape ln_weight ln_bias lead n X B R W C ->
  bias_dropout_add_fused native_dropout x bias residual 0 training h
  = (Ok (mkRef (length (h ++ [zip_with fadd X (mjoin (replicate (numel lead) B))]))
           0 (lead ++ [n])),
     (h ++ [zip_with fadd X (mjoin (replicate (numel lead) B))])
       ++ [zip_with fadd R (zip_with fadd X (mjoin (replicate (numel lead) B)))]).
Proof.
  intros Hvi.
  destruct (valid_inputs_dims _ _ _ _ _ _ _ _ _ _ _ _ _ _ Hvi)
    as (Hn & HX & HR & HB & HW & HC).
  destruct Hvi as [Hx Hb Hr _ _ _ _].
  set (D0 := zip_with fadd X (mjoin (replicate (numel lead) B))).
  assert (HD0 : length D0 = numel lead * n).
  { unfold D0. rewrite length_zip_with, join_replicate_length. lia. }
  unfold bias_dropout_add_fused, torch_add.
  rewrite (bind_Ok _ _ _ _ _
    (torch_binop_run fadd x bias _ _ _ h Hx Hb
       (tensor_binop_prefix fadd lead [n] X B
          ltac:(by rewrite numel_snoc) ltac:(by rewrite HB; unfold numel; simpl; lia)))).
  simpl shape; simpl data. fold D0.
  rewrite (bind_Ok _ _ _ _ _ (dropout_zero_run (h ++ [D0]) _ training)).
  by rewrite (bind_Ok _ _ _ _ _
    (torch_binop_run fadd residual _ _ _ _ (h ++ [D0])
       (read_app_old _ _ _ _ Hr)
       (read_alloc_new h (lead ++ [n]) D0 ltac:(by rewrite numel_snoc))
       (tensor_binop_same fadd (lead ++ [n]) R D0
          ltac:(by rewrite numel_snoc) ltac:(by rewrite numel_snoc)))).
Qed.

(** Where addition commutes, [residual + (x + bias)] is the bias-add of the
    reference model. *)
Lemma residual_add_comm n X B R (lead : list nat) :
  (forall a b : F, fadd a b = fadd b a) ->
  n <> 0 -> length X = numel lead * n -> length R = numel lead * n -> length B = n ->
  zip_with fadd R (zip_with fadd X (mjoin (replicate (numel lead) B)))
  = mjoin (spec_pre (rows_of n X) B (rows_of n R)).
Proof.
  intros Hcomm Hn HX HR HB.
  rewrite (zip_with_comm fadd R _ Hcomm). by apply bias_add_rows.
Qed.
End DropoutFacts.

Section TEFacts.
Context {F : Type} {SF : Scalar F}.
Variable native_dropout : Q -> Tensor F -> Tensor F.
Variable layernorm_fwd_fp8 :
  TensorRef -> TensorRef -> TensorRef -> F -> FP8TensorMeta -> nat -> dtype ->
  nat -> bool -> TensorRef -> M F (TensorRef * TensorRef * TensorRef).

Lemma LayerNormFP8TE_forward_run (h h4 : Heap F) inp ln_weight ln_bias eps zcg dt m
    do_bprop lo mu rs vlo :
  layernorm_fwd_fp8 inp ln_weight ln_bias eps m FP8_TENSOR_INDEX kFloat8E4M3 0 zcg
    (mkRef (length h) 0 (t_shape inp))
    (h ++ [replicate (numel (t_shape inp)) fzero]) = (Ok (lo, mu, rs), h4) ->
  read h4 lo = Some vlo ->
  LayerNormFP8TE_forward layernorm_fwd_fp8 inp ln_weight ln_bias eps zcg dt
    (VMeta m) do_bprop h
  = (Ok (mkRef (length h4) 0 (shape vlo)), h4 ++ [fcast dt <$> data vlo]).
Proof.
  intros Ek Hlo. unfold LayerNormFP8TE_forward, empty_like.
  rewrite (bind_Ok (alloc _) _ h _ _ eq_refl). simpl shape. simpl data.
  rewrite (bind_Ok (as_meta (VMeta m)) _ _ m _ eq_refl).
  rewrite (bind_Ok _ _ _ _ _ Ek).
  assert (Eto : tensor_to lo dt h4
                = (Ok (mkRef (length h4) 0 (shape vlo)), h4 ++ [fcast dt <$> data vlo])).
  { unfold tensor_to. by rewrite (bind_Ok _ _ _ _ _ (load_run _ _ _ Hlo)). }
  rewrite (bind_Ok _ _ _ _ _ Eto).
  by destruct (py_truthy do_bprop).
Qed.

(** What a call of the Transformer Engine variant returns as [bda_out]
    and as amax, given a kernel that keeps its contract. *)
Lemma bias_add_ln_te_run (h : Heap F) x bias residual w_shape ln_weight ln_bias
    eps dt zcg m do_bprop lead n X B R W C s a0 :
  valid_inputs h x bias residual w_shape ln_weight ln_bias lead n X B R W C ->
  valid_meta_object h m s a0 ->
  te_kernel_returns layernorm_fwd_fp8 h ln_weight ln_bias eps m zcg (numel lead) n ->
  exists bda_out ln_out amax h',
    bias_add_ln_te native_dropout layernorm_fwd_fp8 x bias residual w_shape
      ln_weight ln_bias eps dt zcg (VMeta m) do_bprop h
    = (Ok (bda_out, ln_out, amax), h')
    /\ t_shape bda_out = [numel lead; n]
    /\ read h' bda_out
       = Some (mkTensor [numel lead; n]
                 (zip_with fadd R
                    (zip_with fadd X (mjoin (replicate (numel lead) B)))))
    /\ t_buf amax = t_buf (amax_history m).
Proof.
  intros Hvi Hvm Hk.
  destruct (valid_inputs_dims _ _ _ _ _ _ _ _ _ _ _ _ _ _ Hvi)
    as (Hn & HX & HR & HB & HW & HC).
  pose proof (bias_dropout_add_fused_run native_dropout h _ _ _ _ _ _ _ _ _ _ _ _ _
                true Hvi) as Ebda.
  destruct Hvi as [Hx Hb Hr -> Hw Hc Hne]. destruct Hvm as [Hs Ha Hdis].
  set (rows := numel lead) in *.
  set (D0 := zip_with fadd X (mjoin (replicate rows B))) in *.
  set (D := zip_with fadd R D0) in *.
  assert (HD0 : length D0 = rows * n).
  { unfold D0. rewrite length_zip_with, join_replicate_length. lia. }
  assert (HD : length D = rows * n).
  { unfold D. rewrite length_zip_with. lia. }
  assert (Hshape2 : numel [rows; n] = rows * n) by (unfold numel; simpl; lia).
  unfold bias_add_ln_te. rewrite (bind_Ok _ _ _ _ _ Ebda).
  set (h1 := h ++ [D0]) in *. set (h2 := h1 ++ [D]).
  rewrite (bind_Ok _ _ _ _ _ (tuple_last_run h2 [] n)).
  rewrite (bind_Ok _ _ _ _ _
    (view_neg1_run (mkRef (length h1) 0 (lead ++ [n])) n rows h2 Hn
       ltac:(by simpl; rewrite numel_snoc))).
  simpl t_buf; simpl t_off.
  set (bda := mkRef (length h1) 0 [rows; n]).
  assert (Hbda : read h2 bda = Some (mkTensor [rows; n] D)).
  { apply read_alloc_new. by rewrite Hshape2. }
  (* _LayerNormFP8TE.apply *)
  set (zeros := replicate (numel [rows; n]) fzero).
  assert (Hout : read (h2 ++ [zeros]) (mkRef (length h2) 0 [rows; n])
                 = Some (mkTensor [rows; n] zeros)).
  { apply read_alloc_new. unfold zeros. by rewrite length_replicate. }
  destruct (Hk (h2 ++ [zeros]) bda (mkRef (length h2) 0 [rows; n]) D zeros)
    as (lo & mu & rs & h4 & vlo & Ek & Hlo & Hbda4).
  { intros t v Ht. unfold h2, h1. by do 3 apply read_app_old. }
  { unfold bda, h1. simpl. rewrite length_app. lia. }
  { unfold h2, h1. simpl. rewrite !length_app. lia. }
  { unfold bda, h2. simpl. rewrite length_app. simpl. lia. }
  { by apply read_app_old. }
  { exact Hout. }
  rewrite (bind_Ok _ _ _ _ _
    (LayerNormFP8TE_forward_run h2 h4 bda ln_weight ln_bias eps zcg dt m do_bprop
       lo mu rs vlo Ek Hlo)).
  rewrite (bind_Ok (as_meta (VMeta m)) _ _ m _ eq_refl).
  pose proof (read_shape _ _ _ Ha) as Hshape. simpl in Hshape.
  rewrite (bind_Ok _ _ _ _ _ (index_zero_run _ _ [1] (eq_sym Hshape))).
  unfold FP8_TENSOR_INDEX.
  rewrite (bind_Ok _ _ _ _ _ (index_zero_run _ (mkRef _ _ [1]) [] eq_refl)).
  eexists _, _, _, _. split; [done|]. split; [done|]. split; [|done].
  by apply read_app_old.
Qed.
End TEFacts.

(** ** Zero weights over the reals *)

Lemma zip3_with_replicate {A B C D : Type} (f : A -> B -> C -> D)
    (a : list A) (b : B) (c : C) n :
  length a = n ->
  zip3_with f a (replicate n b) (replicate n c) = (fun v => f v b c) <$> a.
Proof.
  unfold zip3_with. revert n.
  induction a as [|v a IH]; intros [|n] Hn; simpl in *; try done.
  f_equal. apply IH. lia.
Qed.

Lemma fmap_const_replicate {A B : Type} (f : A -> B) (c : B) (l : list A) :
  (forall v, f v = c) -> f <$> l = replicate (length l) c.
Proof. intros Hf. induction l as [|v l IH]; csimpl; [done|]. by rewrite Hf, IH. Qed.

Lemma foldl_Rplus_zeros n : foldl Rplus 0%R (replicate n 0%R) = 0%R.
Proof.
  induction n as [|n IH]; simpl; [done|]. by rewrite Rplus_0_l.
Qed.

Lemma row_mean_zeros n : row_mean (replicate n 0%R) = 0%R.
Proof.
  unfold row_mean, spec_mean. simpl. rewrite foldl_Rplus_zeros.
  unfold Rdiv. apply Rmult_0_l.
Qed.

Lemma row_variance_zeros n : row_variance (replicate n 0%R) = 0%R.
Proof.
  unfold row_variance, spec_variance.
  pose proof (row_mean_zeros n) as Hm. unfold row_mean in Hm. rewrite Hm.
  rewrite fmap_replicate. simpl.
  replace ((0 - 0) * (0 - 0))%R with 0%R by lra.
  rewrite foldl_Rplus_zeros. unfold Rdiv. apply Rmult_0_l.
Qed.

(** With [zero_centered_gamma] off, a zero weight and a zero bias, the
    layer-norm output is zero everywhere. *)
Lemma zero_weight_rows (eps : R) n (pre : list (list R)) :
  Forall (fun c => length c = n) pre ->
  spec_ln_unscaled eps false (replicate n 0%R) (replicate n 0%R) pre
  = replicate (length pre) (replicate n 0%R).
Proof.
  induction 1 as [|row pre Hrow _ IH]; [done|].
  unfold spec_ln_unscaled in *. rewrite fmap_cons, IH. simpl. f_equal.
  rewrite zip3_with_replicate by (unfold spec_normalized; by rewrite length_fmap).
  rewrite (fmap_const_replicate _ 0%R) by (intros v; lra).
  unfold spec_normalized. by rewrite length_fmap, Hrow.
Qed.

(** ** Evaluating the fusion *)

Arguments tensor_binop : simpl never.
Arguments eval_broadcast_in_dim : simpl never.
Arguments reduce_axis : simpl never.
Arguments amax_list : simpl never.
Arguments expand : simpl never.

Section FusionFacts.
Context {F : Type} {SF : Scalar F}.
Implicit Types (d : list F) (env : list (FValue (F:=F))).

Lemma expand_length s t d :
  expandable s t = true -> length d = numel s -> length (expand s t d) = numel t.
Proof.
  revert t d. induction s as [|a s IH]; intros [|b t] d He Hd; try done.
  simpl in He. apply andb_true_iff in He as [Hab He].
  change (numel (a :: s)) with (a * numel s) in Hd.
  change (numel (b :: t)) with (b * numel t).
  unfold expand; fold (expand (F:=F)).
  destruct (Nat.eqb_spec a b) as [->|Hne].
  - assert (Hc : Forall (fun c => length c = numel s) (chunks (numel s) b d))
      by (apply chunks_Forall_length; lia).
    rewrite (join_length_rows (numel t)).
    + by rewrite length_fmap, chunks_length.
    + apply Forall_fmap. eapply Forall_impl; [exact Hc|].
      intros c Hlen. simpl. by apply IH.
  - simpl in Hab. apply Nat.eqb_eq in Hab as ->.
    rewrite join_replicate_length, IH; [done..|lia].
Qed.

Lemma reduce_axis_length (f : list F -> F) s k d :
  length (reduce_axis f s k d) = numel (take k s) * numel (drop (S k) s).
Proof.
  unfold reduce_axis. rewrite (join_length_rows (numel (drop (S k) s))).
  - by rewrite length_fmap, chunks_length.
  - apply Forall_fmap, Forall_forall. intros blk _. simpl.
    by rewrite length_fmap, length_seq.
Qed.

Lemma eval_broadcast_row n rows d :
  eval_broadcast_in_dim (mkTensor [n] d) [rows; n] [1]
  = Ok (mkTensor [rows; n] (expand [1; n] [rows; n] d)).
Proof.
  unfold eval_broadcast_in_dim. simpl.
  by rewrite Nat.eqb_refl, orb_true_r.
Qed.

Lemma eval_broadcast_keep rows d :
  eval_broadcast_in_dim (mkTensor [rows] d) [rows; 1] [0]
  = Ok (mkTensor [rows; 1] (expand [rows; 1] [rows; 1] d)).
Proof.
  unfold eval_broadcast_in_dim. simpl. by rewrite Nat.eqb_refl.
Qed.

Lemma eval_broadcast_col n rows d :
  eval_broadcast_in_dim (mkTensor [rows; 1] d) [rows; n] [0; 1]
  = Ok (mkTensor [rows; n] (expand [rows; 1] [rows; n] d)).
Proof.
  unfold eval_broadcast_in_dim. simpl.
  by rewrite Nat.eqb_refl, orb_true_r.
Qed.

Lemma expandable_row n rows : expandable [1; n] [rows; n] = true.
Proof. simpl. by rewrite Nat.eqb_refl, orb_true_r. Qed.

Lemma expandable_keep rows : expandable [rows; 1] [rows; 1] = true.
Proof. simpl. by rewrite Nat.eqb_refl. Qed.

Lemma expandable_col n rows : expandable [rows; 1] [rows; n] = true.
Proof. simpl. by rewrite Nat.eqb_refl, orb_true_r. Qed.
Lemma exec_nodes_cons nd rest inputs env :
  exec_nodes (nd :: rest) inputs env
  = match exec_node nd inputs env with
    | Ok (inputs', env') => exec_nodes rest inputs' env'
    | Raise e => Raise e
    end.
Proof. reflexivity. Qed.

Lemma exec_DefineTensor sizes strides t inputs env :
  shape t = sizes ->
  exec_node (DefineTensor sizes strides) (t :: inputs) env = Ok (inputs, env ++ [FTensor t]).
Proof. intros <-. unfold exec_node, shape_eqb. by rewrite bool_decide_eq_true_2. Qed.

Lemma exec_DefineScalar v inputs env :
  exec_node (DefineScalar v) inputs env = Ok (inputs, env ++ [FScalar v]).
Proof. reflexivity. Qed.

Lemma exec_TensorShape i t inputs env :
  env !! i = Some (FTensor t) ->
  exec_node (TensorShape i) inputs env = Ok (inputs, env ++ [FVector (shape t)]).
Proof. intros H. unfold exec_node, env_tensor. by rewrite H. Qed.

Lemma exec_TensorSize i dim t k inputs env :
  env !! i = Some (FTensor t) -> shape t !! dim = Some k ->
  exec_node (TensorSize i dim) inputs env = Ok (inputs, env ++ [FInt k]).
Proof. intros H Hk. unfold exec_node, env_tensor. rewrite H. simpl. by rewrite Hk. Qed.

Lemma exec_DefineVector elems l inputs env :
  vector_elems env elems = Ok l ->
  exec_node (DefineVector elems) inputs env = Ok (inputs, env ++ [FVector l]).
Proof. intros H. unfold exec_node. by rewrite H. Qed.

Lemma exec_Binary_tt op a b ta tb t inputs env :
  env !! a = Some (FTensor ta) -> env !! b = Some (FTensor tb) ->
  tensor_binop (scalar_binop op) ta tb = Ok t ->
  exec_node (Binary op a b) inputs env = Ok (inputs, env ++ [FTensor t]).
Proof.
  intros Ha Hb Ht. unfold exec_node, env_value. rewrite Ha, Hb. simpl. by rewrite Ht.
Qed.

Lemma exec_Binary_ts op a b ta v inputs env :
  env !! a = Some (FTensor ta) -> env !! b = Some (FScalar v) ->
  exec_node (Binary op a b) inputs env
  = Ok (inputs, env ++ [FTensor (tensor_map (fun u => scalar_binop op u v) ta)]).
Proof. intros Ha Hb. unfold exec_node, env_value. by rewrite Ha, Hb. Qed.

Lemma exec_Unary op a ta inputs env :
  env !! a = Some (FTensor ta) ->
  exec_node (Unary op a) inputs env
  = Ok (inputs, env ++ [FTensor (tensor_map (scalar_unop op) ta)]).
Proof. intros Ha. unfold exec_node, env_tensor. by rewrite Ha. Qed.

Lemma amax_list_Ok d :
  0 < length d -> amax_list d = Ok (foldl fmax (default fzero (head d)) (tail d)).
Proof. destruct d; simpl; [lia | done]. Qed.

Lemma exec_Max a ta inputs env :
  env !! a = Some (FTensor ta) -> 0 < length (data ta) ->
  exec_node (Max a) inputs env
  = Ok (inputs, env ++ [FTensor (mkTensor [] [foldl fmax (default fzero (head (data ta))) (tail (data ta))])]).
Proof.
  intros Ha Hd. unfold exec_node, env_tensor. rewrite Ha. simpl.
  by rewrite amax_list_Ok.
Qed.

Lemma exec_Broadcast a shp dims ta target t inputs env :
  env !! a = Some (FTensor ta) -> env !! shp = Some (FVector target) ->
  eval_broadcast_in_dim ta target dims = Ok t ->
  exec_node (BroadcastInDim a shp dims) inputs env = Ok (inputs, env ++ [FTensor t]).
Proof.
  intros Ha Hs Ht. unfold exec_node, env_tensor, env_vector. rewrite Ha, Hs. simpl.
  by rewrite Ht.
Qed.

Lemma exec_VarMean a k correction keepdim ta inputs env :
  env !! a = Some (FTensor ta) -> k < length (shape ta) ->
  exec_node (VarMean a [k] correction keepdim) inputs env
  = Ok (inputs,
        env ++ [FTensor (mkTensor (reduced_shape (shape ta) k keepdim)
                           (reduce_axis (var_corr correction) (shape ta) k (data ta)));
                FTensor (mkTensor (reduced_shape (shape ta) k keepdim)
                           (reduce_axis mean_F (shape ta) k (data ta)))]).
Proof.
  intros Ha Hk. unfold exec_node, env_tensor. rewrite Ha. simpl.
  by destruct (Nat.ltb_spec k (length (shape ta))); [|lia].
Qed.

Ltac len :=
  repeat (first
    [ rewrite length_zip_with
    | rewrite length_fmap
    | rewrite reduce_axis_length
    | rewrite expand_length;
      [ | solve [apply expandable_row | apply expandable_keep | apply expandable_col]
        | len ] ]);
  cbn [take drop]; unfold numel; simpl; lia.

Ltac step :=
  rewrite exec_nodes_cons;
  first
    [ rewrite exec_DefineTensor by reflexivity
    | rewrite exec_DefineScalar
    | erewrite exec_TensorShape by reflexivity
    | erewrite exec_TensorSize by reflexivity
    | erewrite exec_DefineVector by reflexivity
    | erewrite exec_Binary_tt;
      [ | reflexivity | reflexivity
        | first [ apply tensor_binop_same; len | apply tensor_binop_scalar; len ] ]
    | erewrite exec_Binary_ts by reflexivity
    | erewrite exec_Unary by reflexivity
    | erewrite exec_Max; [ | reflexivity | cbn [data]; len ]
    | erewrite exec_Broadcast;
      [ | reflexivity | reflexivity
        | first [ apply eval_broadcast_row | apply eval_broadcast_keep
                | apply eval_broadcast_col ] ]
    | erewrite exec_VarMean; [ | reflexivity | cbn [shape length]; lia ] ];
  unfold tensor_map; cbn [app shape data reduced_shape take drop].

Lemma fusion_exec zcg rows n X B R W C s a0 eps (x b r w c sc am : TensorRef) :
  t_shape x = [rows; n] -> t_shape b = [n] -> t_shape r = [rows; n] ->
  t_shape w = [n] -> t_shape c = [n] -> t_shape sc = [] -> t_shape am = [] ->
  length X = rows * n -> length B = n -> length R = rows * n ->
  length W = n -> length C = n -> rows * n <> 0 ->
  exists env D31 m,
    exec_nodes (fd_nodes (fusion_definition x b r w c sc am eps zcg))
      [mkTensor [rows; n] X; mkTensor [n] B; mkTensor [rows; n] R;
       mkTensor [n] W; mkTensor [n] C; mkTensor [] [s]; mkTensor [] [a0]] []
    = Ok env
    /\ output_tensors env (fd_outputs (fusion_definition x b r w c sc am eps zcg))
       = Ok [mkTensor [rows; n]
               (zip_with fadd (zip_with fadd X (expand [1; n] [rows; n] B)) R);
             mkTensor [rows; n] D31; mkTensor [] [m]]
    /\ length D31 = rows * n.
Proof.
  intros Hx Hb Hr Hw Hc Hsc Ham HX HB HR HW HC Hne.
  destruct zcg;
  cbv [fusion_definition partially_contig_tensor emit define_scalar define_vector
         tensor_shape tensor_size ops_add ops_sub ops_mul ops_rsqrt ops_abs ops_max
         ops_broadcast_in_dim ops_var_mean add_output fd_nodes fd_count fd_outputs
         results_of app Nat.add];
  rewrite Hx, Hb, Hr, Hw, Hc, Hsc, Ham.
  all: repeat step.
  all: cbn [exec_nodes].
  all: eexists _, _, _; split; [reflexivity|].
  all: split; [reflexivity|]. all: len.
Qed.
(** *** The values the graph computes, row by row *)

Lemma zip_with_join {A B C : Type} (f : A -> B -> C) n
    (a : list (list A)) (b : list (list B)) :
  Forall (fun c => length c = n) a -> Forall (fun c => length c = n) b ->
  zip_with f (mjoin a) (mjoin b) = mjoin (zip_with (zip_with f) a b).
Proof.
  intros Ha. revert b. induction Ha as [|x a Hx _ IH]; intros b Hb; [done|].
  destruct Hb as [|y b Hy Hb]; simpl.
  - by destruct (x ++ mjoin a).
  - rewrite zip_with_app by congruence. by rewrite IH.
Qed.

Lemma Forall_length_zip_rows {A B C : Type} (f : A -> B -> C) n
    (a : list (list A)) (b : list (list B)) :
  Forall (fun c => length c = n) a -> Forall (fun c => length c = n) b ->
  Forall (fun c => length c = n) (zip_with (zip_with f) a b).
Proof.
  intros Ha Hb. apply Forall_zip_with_rows. intros x y Hx Hy.
  rewrite Forall_forall in Ha. rewrite Forall_forall in Hb.
  rewrite length_zip_with, (Ha x Hx), (Hb y Hy). lia.
Qed.

Lemma Forall_length_replicate_rows {A : Type} n (d : list A) :
  Forall (fun c => length c = n) (replicate n <$> d).
Proof.
  apply Forall_fmap, Forall_forall. intros v _. simpl. apply length_replicate.
Qed.

Lemma nth_seq_id d : (fun i => nth i d fzero) <$> seq 0 (length d) = d.
Proof.
  induction d as [|a d IH]; [done|]. cbn [length seq]. csimpl. f_equal.
  rewrite <- fmap_S_seq, <- list_fmap_compose. exact IH.
Qed.

(** Reducing a [rows] x [n] array along its second axis reduces each row. *)
Lemma reduce_axis_rows (f : list F -> F) n (pre : list (list F)) :
  Forall (fun c => length c = n) pre ->
  reduce_axis f [length pre; n] 1 (mjoin pre) = f <$> pre.
Proof.
  intros Hpre. unfold reduce_axis. cbn [lookup list_lookup default drop take].
  replace (numel []) with 1 by done.
  replace (numel [length pre]) with (length pre) by (unfold numel; simpl; lia).
  rewrite Nat.mul_1_r, chunks_of_join by done.
  induction Hpre as [|r pre Hr _ IH]; csimpl; [done|].
  f_equal; [|exact IH]. f_equal. unfold column.
  transitivity ((fun i => nth i r fzero) <$> seq 0 (length r)); [|apply nth_seq_id].
  rewrite Hr.
  apply list_fmap_ext. intros _ i _. f_equal. lia.
Qed.

Lemma chunks_singletons d : chunks 1 (length d) d = (fun v => [v]) <$> d.
Proof.
  induction d as [|a d IH]; [done|]. cbn [length chunks]. csimpl. f_equal.
  rewrite drop_0. exact IH.
Qed.

Lemma expand_one n (v : F) : expand [1] [n] [v] = replicate n v.
Proof.
  unfold expand. destruct (Nat.eqb_spec 1 n) as [<-|_].
  - done.
  - apply join_singletons_replicate.
Qed.

(** A column of [rows] numbers repeated along a second axis of size [n]. *)
Lemma expand_col rows n d :
  length d = rows -> expand [rows; 1] [rows; n] d = mjoin (replicate n <$> d).
Proof.
  intros <-. unfold expand; fold (expand (F:=F)). rewrite Nat.eqb_refl.
  replace (numel [1]) with 1 by done.
  rewrite chunks_singletons, <- list_fmap_compose. f_equal.
  apply list_fmap_ext. intros _ v _. apply expand_one.
Qed.

(** A row of [n] numbers repeated along a first axis of size [rows]. *)
Lemma expand_row rows n d :
  length d = n -> expand [1; n] [rows; n] d = mjoin (replicate rows d).
Proof.
  intros Hd. pose proof (expand_prefix (F:=F) [rows] [n] d) as H.
  simpl in H. rewrite H by (rewrite Hd; unfold numel; simpl; lia).
  do 2 f_equal. unfold numel. simpl. lia.
Qed.

(** One row of the graph against one row of the reference model, under
    the two laws that relate their arithmetic. *)
Lemma fused_row_spec eps (zcg : bool) (W C row : list F) n :
  (forall a b : F, fdiv a (fsqrt b) = fmul a (frsqrt b)) ->
  (forall a : F, fadd a fone = fadd fone a) ->
  length row = n ->
  zip_with fadd
    (zip_with fmul
       (zip_with fmul (zip_with fsub row (replicate n (mean_F row)))
          (replicate n (frsqrt (fadd (var_corr 0 row) eps))))
       (if zcg then (fun u : F => fadd u fone) <$> W else W)) C
  = zip3_with (fun v g c => fadd (fmul v g) c)
      (spec_normalized eps row) (spec_w_eff zcg W) C.
Proof.
  intros Hdiv Hone <-. rewrite zip_with_replicate_rows.
  rewrite <- (length_fmap (fun r : F => fsub r (mean_F row)) row) at 1.
  rewrite zip_with_replicate_rows, <- list_fmap_compose.
  rewrite zip_with_zip_with_l. f_equal.
  - unfold spec_normalized. apply list_fmap_ext. intros _ v _. simpl.
    rewrite Hdiv. unfold var_corr, spec_variance, spec_mean, mean_F, sum_F.
    by rewrite Nat.sub_0_r.
  - destruct zcg; [|done]. simpl. apply list_fmap_ext. intros _ v _. apply Hone.
Qed.

Lemma fusion_ln_rows eps (zcg : bool) (W C : list F) n (pre : list (list F)) :
  (forall a b : F, fdiv a (fsqrt b) = fmul a (frsqrt b)) ->
  (forall a : F, fadd a fone = fadd fone a) ->
  Forall (fun c => length c = n) pre -> length W = n -> length C = n ->
  zip_with fadd
    (zip_with fmul
       (zip_with fmul
          (zip_with fsub (mjoin pre)
             (expand [length pre; 1] [length pre; n]
                (expand [length pre; 1] [length pre; 1]
                   (reduce_axis mean_F [length pre; n] 1 (mjoin pre)))))
          (expand [length pre; 1] [length pre; n]
             (frsqrt <$>
              ((fun u : F => fadd u eps) <$>
               expand [length pre; 1] [length pre; 1]
                 (reduce_axis (var_corr 0) [length pre; n] 1 (mjoin pre))))))
       (expand [1; n] [length pre; n]
          (if zcg then (fun u : F => fadd u fone) <$> W else W)))
    (expand [1; n] [length pre; n] C)
  = mjoin (spec_ln_unscaled eps zcg W C pre).
Proof.
  intros Hdiv Hone Hpre HW HC.
  assert (Hn1 : numel [length pre; 1] = length pre) by (unfold numel; simpl; lia).
  rewrite !reduce_axis_rows by done.
  rewrite !expand_same by (by rewrite length_fmap, Hn1).
  rewrite !expand_col by (by rewrite !length_fmap).
  rewrite !expand_row by (destruct zcg; by rewrite ?length_fmap).
  rewrite !(zip_with_join _ n);
    repeat first [ assumption
                 | apply Forall_length_zip_rows
                 | apply Forall_length_replicate_rows
                 | by apply Forall_replicate
                 | apply Forall_replicate; destruct zcg; by rewrite ?length_fmap ].
  f_equal. unfold spec_ln_unscaled. clear Hn1.
  induction Hpre as [|row pre Hrow _ IH]; csimpl; [done|].
  f_equal; [|exact IH]. by apply fused_row_spec.
Qed.

(** Executing the graph, with its three outputs written in the terms of the
    reference model. *)
Lemma fusion_exec_values zcg rows n (X B R W C : list F) s a0 eps
    (x b r w c sc am : TensorRef) :
  (forall a b : F, fdiv a (fsqrt b) = fmul a (frsqrt b)) ->
  (forall a : F, fadd a fone = fadd fone a) ->
  t_shape x = [rows; n] -> t_shape b = [n] -> t_shape r = [rows; n] ->
  t_shape w = [n] -> t_shape c = [n] -> t_shape sc = [] -> t_shape am = [] ->
  length X = rows * n -> length B = n -> length R = rows * n ->
  length W = n -> length C = n -> rows * n <> 0 ->
  let pre := spec_pre (rows_of n X) B (rows_of n R) in
  let u := spec_ln_unscaled eps zcg W C pre in
  exists env m,
    exec_nodes (fd_nodes (fusion_definition x b r w c sc am eps zcg))
      [mkTensor [rows; n] X; mkTensor [n] B; mkTensor [rows; n] R;
       mkTensor [n] W; mkTensor [n] C; mkTensor [] [s]; mkTensor [] [a0]] []
    = Ok env
    /\ output_tensors env (fd_outputs (fusion_definition x b r w c sc am eps zcg))
       = Ok [mkTensor [rows; n] (mjoin pre);
             mkTensor [rows; n] (mjoin (spec_ln_out s u)); mkTensor [] [m]]
    /\ spec_amax u = Some m.
Proof.
  intros Hdiv Hone Hx Hb Hr Hw Hc Hsc Ham HX HB HR HW HC Hne pre u.
  assert (Hn : n <> 0) by lia.
  assert (Hprelen : length pre = rows) by (by apply spec_pre_length).
  assert (Hpre : Forall (fun c => length c = n) pre) by (by apply (spec_pre_Forall n rows)).
  assert (Hulen : length u = rows) by (unfold u; by rewrite spec_ln_unscaled_length).
  assert (Hu : Forall (fun c => length c = n) u) by (by apply spec_ln_unscaled_Forall).
  assert (HU : mjoin u <> []).
  { intros E. apply (f_equal length) in E.
    rewrite (join_length_rows n), Hulen in E by done. simpl in E. lia. }
  destruct (amax_list_spec u HU) as (m & Em & Emax).
  assert (Epre : zip_with fadd (zip_with fadd X (expand [1; n] [rows; n] B)) R
                 = mjoin pre).
  { rewrite expand_row by done. by apply bias_add_rows. }
  assert (Eu : forall zw,
             zw = (if zcg then (fun u : F => fadd u fone) <$> W else W) ->
             zip_with fadd
               (zip_with fmul
                  (zip_with fmul
                     (zip_with fsub (mjoin pre)
                        (expand [rows; 1] [rows; n]
                           (expand [rows; 1] [rows; 1]
                              (reduce_axis mean_F [rows; n] 1 (mjoin pre)))))
                     (expand [rows; 1] [rows; n]
                        (frsqrt <$>
                         ((fun u : F => fadd u eps) <$>
                          expand [rows; 1] [rows; 1]
                            (reduce_axis (var_corr 0) [rows; n] 1 (mjoin pre))))))
                  (expand [1; n] [rows; n] zw))
               (expand [1; n] [rows; n] C)
             = mjoin u).
  { intros zw ->. rewrite <- Hprelen. by apply fusion_ln_rows. }
  specialize (Eu _ eq_refl).
  assert (Em' : foldl fmax (default fzero (head (fabs <$> mjoin u)))
                  (tail (fabs <$> mjoin u)) = m).
  { rewrite amax_list_Ok in Emax; [by injection Emax|].
    rewrite length_fmap. destruct (mjoin u); [done | simpl; lia]. }
  clearbody pre u.
  destruct zcg;
  cbv [fusion_definition partially_contig_tensor emit define_scalar define_vector
         tensor_shape tensor_size ops_add ops_sub ops_mul ops_rsqrt ops_abs ops_max
         ops_broadcast_in_dim ops_var_mean add_output fd_nodes fd_count fd_outputs
         results_of app Nat.add];
  rewrite Hx, Hb, Hr, Hw, Hc, Hsc, Ham.
  all: repeat step.
  all: cbn [exec_nodes].
  all: eexists _, m; split; [reflexivity|].
  all: split; [|done].
  all: cbn [output_tensors env_tensor lookup list_lookup res_bind scalar_binop
              scalar_unop].
  all: rewrite Epre, Eu, Em', spec_ln_out_join; reflexivity.
Qed.
End FusionFacts.

(** ** Computations that only allocate *)

Section Appends.
Context {F : Type} {SF : Scalar F}.

Lemma appends_ret {A : Type} (a : A) : appends (ret (F:=F) a).
Proof. intros h. exists []. simpl. by rewrite app_nil_r. Qed.

Lemma appends_raise {A : Type} e : appends (raise (F:=F) (A:=A) e).
Proof. intros h. exists []. simpl. by rewrite app_nil_r. Qed.

Lemma appends_lift {A : Type} (r : Res A) : appends (lift (F:=F) r).
Proof. intros h. exists []. simpl. by rewrite app_nil_r. Qed.

Lemma appends_bind {A B : Type} (m : M F A) (k : A -> M F B) :
  appends m -> (forall a, appends (k a)) -> appends (bind m k).
Proof.
  intros Hm Hk h. unfold bind. destruct (Hm h) as [k1 E1].
  destruct (m h) as [[a|e] h1]; simpl in E1; subst h1.
  - destruct (Hk a (h ++ k1)) as [k2 E2]. exists (k1 ++ k2).
    by rewrite E2, app_assoc.
  - by exists k1.
Qed.

Lemma appends_load t : appends (load (F:=F) t).
Proof.
  intros h. exists []. unfold load. rewrite app_nil_r. by destruct (read h t).
Qed.

Lemma appends_alloc (v : Tensor F) : appends (alloc v).
Proof. intros h. by exists [data v]. Qed.

Lemma appends_tuple_last l : appends (tuple_last (F:=F) l).
Proof. unfold tuple_last. destruct (last l); [apply appends_ret | apply appends_raise]. Qed.

Lemma appends_view_neg1 t n : appends (view_neg1 (F:=F) t n).
Proof.
  unfold view_neg1. destruct (n =? 0); [apply appends_raise|].
  destruct (_ =? 0); [apply appends_ret | apply appends_raise].
Qed.

Lemma appends_load_all ts : appends (load_all (F:=F) ts).
Proof.
  induction ts as [|t ts IH]; simpl; [apply appends_ret|].
  apply appends_bind; [apply appends_load|]. intros v.
  apply appends_bind; [exact IH|]. intros vs. apply appends_ret.
Qed.

Lemma appends_alloc_all (vs : list (Tensor F)) : appends (alloc_all vs).
Proof.
  induction vs as [|v vs IH]; simpl; [apply appends_ret|].
  apply appends_bind; [apply appends_alloc|]. intros t.
  apply appends_bind; [exact IH|]. intros ts. apply appends_ret.
Qed.

Lemma appends_fd_execute (fd : FusionDefinition (F:=F)) args : appends (fd_execute fd args).
Proof.
  unfold fd_execute.
  apply appends_bind; [apply appends_load_all|]. intros vals.
  apply appends_bind; [apply appends_lift|]. intros env.
  apply appends_bind; [apply appends_lift|]. intros outs.
  apply appends_alloc_all.
Qed.

Lemma appends_nvfuser x bias residual w_shape ln_weight ln_bias eps dt zcg
    scale_tensor amax_tensor do_bprop :
  appends (F:=F) (bias_add_ln_nvfuser x bias residual w_shape ln_weight ln_bias eps dt
             zcg scale_tensor amax_tensor do_bprop).
Proof.
  unfold bias_add_ln_nvfuser.
  apply appends_bind; [apply appends_tuple_last|]. intros n.
  apply appends_bind; [apply appends_view_neg1|]. intros x'.
  apply appends_bind; [apply appends_tuple_last|]. intros n'.
  apply appends_bind; [apply appends_view_neg1|]. intros r'.
  apply appends_bind.
  - unfold BiasAddLayerNormFuser_apply.
    apply appends_bind; [apply appends_fd_execute|].
    intros [|a [|b [|c [|? ?]]]]; first [apply appends_ret | apply appends_raise].
  - intros [[a b] c]. apply appends_ret.
Qed.

(** Appending buffers changes no tensor that could be read before. *)
Lemma read_appended (h k : Heap F) t v : read h t = Some v -> read (h ++ k) t = Some v.
Proof. apply read_app_old. Qed.

(** The amax argument is declared as the seventh input of the fusion, and
    no operation and no output of the graph refers to it. *)
Lemma fusion_amax_input_unused x bias residual ln_weight ln_bias scale_tensor
    amax_tensor (eps : F) zcg :
  let fd := fusion_definition x bias residual ln_weight ln_bias scale_tensor
              amax_tensor eps zcg in
  fd_inputs fd !! 6 = Some 6 /\ 6 ∉ fd_uses fd.
Proof.
  destruct zcg; (split; [reflexivity|]);
    apply (bool_decide_unpack _); by vm_compute.
Qed.

Lemma load_all_run (h : Heap F) ts vs :
  Forall2 (fun t v => read h t = Some v) ts vs -> load_all ts h = (Ok vs, h).
Proof.
  induction 1 as [|t v ts vs Ht _ IH]; simpl; [done|].
  rewrite (bind_Ok _ _ _ _ _ (load_run _ _ _ Ht)).
  by rewrite (bind_Ok _ _ _ _ _ IH).
Qed.

(** What a call of the nvFuser variant returns and leaves behind. *)
Lemma bias_add_ln_nvfuser_run (h : Heap F) x bias residual w_shape ln_weight
    ln_bias eps dt zcg scale_tensor amax_tensor do_bprop lead n X B R W C s a0 :
  valid_inputs h x bias residual w_shape ln_weight ln_bias lead n X B R W C ->
  valid_meta h scale_tensor amax_tensor s a0 ->
  exists D31 m,
    bias_add_ln_nvfuser x bias residual w_shape ln_weight ln_bias eps dt zcg
      scale_tensor amax_tensor do_bprop h
    = (Ok (mkRef (length h) 0 [numel lead; n],
           mkRef (S (length h)) 0 [numel lead; n],
           mkRef (S (S (length h))) 0 []),
       h ++ [mjoin (spec_pre (rows_of n X) B (rows_of n R)); D31; [m]])
    /\ length D31 = numel lead * n
    /\ read (h ++ [mjoin (spec_pre (rows_of n X) B (rows_of n R)); D31; [m]])
         (mkRef (length h) 0 [numel lead; n])
       = Some (mkTensor [numel lead; n]
                 (mjoin (spec_pre (rows_of n X) B (rows_of n R))))
    /\ read (h ++ [mjoin (spec_pre (rows_of n X) B (rows_of n R)); D31; [m]])
         (mkRef (S (S (length h))) 0 [])
       = Some (mkTensor [] [m]).
Proof.
  intros Hvi Hvm.
  destruct (valid_inputs_dims _ _ _ _ _ _ _ _ _ _ _ _ _ _ Hvi)
    as (Hn & HX & HR & HB & HW & HC).
  destruct Hvi as [Hx Hb Hr -> Hw Hc Hne]. destruct Hvm as [Hs Ha Hdis].
  set (rows := numel lead) in *.
  assert (Hshape2 : numel [rows; n] = rows * n) by (unfold numel; simpl; lia).
  assert (Hrn : rows * n <> 0).
  { destruct X; [done|]. simpl in HX. lia. }
  pose proof (read_shape _ _ _ Hx) as Hsx. pose proof (read_shape _ _ _ Hr) as Hsr.
  simpl in Hsx, Hsr.
  unfold bias_add_ln_nvfuser.
  rewrite (bind_Ok _ _ _ _ _ (tuple_last_run h [] n)).
  rewrite (bind_Ok _ _ _ _ _
    (view_neg1_run x n rows h Hn ltac:(by rewrite <- Hsx, numel_snoc))).
  rewrite (bind_Ok _ _ _ _ _ (tuple_last_run h [] n)).
  rewrite (bind_Ok _ _ _ _ _
    (view_neg1_run residual n rows h Hn ltac:(by rewrite <- Hsr, numel_snoc))).
  set (x' := mkRef (t_buf x) (t_off x) [rows; n]).
  set (r' := mkRef (t_buf residual) (t_off residual) [rows; n]).
  assert (Hx' : read h x' = Some (mkTensor [rows; n] X)).
  { apply (read_reshape h x _ [rows; n] Hx). by rewrite <- Hsx, numel_snoc. }
  assert (Hr' : read h r' = Some (mkTensor [rows; n] R)).
  { apply (read_reshape h residual _ [rows; n] Hr). by rewrite <- Hsr, numel_snoc. }
  destruct (fusion_exec zcg rows n X B R W C s a0 eps x' bias r' ln_weight
              ln_bias scale_tensor amax_tensor eq_refl
              (eq_sym (read_shape _ _ _ Hb)) eq_refl
              (eq_sym (read_shape _ _ _ Hw)) (eq_sym (read_shape _ _ _ Hc))
              (eq_sym (read_shape _ _ _ Hs)) (eq_sym (read_shape _ _ _ Ha))
              HX HB HR HW HC Hrn)
    as (env & D31 & m & Eenv & Eout & HD31).
  exists D31, m. split; [|split; [done|split]].
  2:{ change (h ++ [mjoin (spec_pre (rows_of n X) B (rows_of n R)); D31; [m]])
        with (h ++ [mjoin (spec_pre (rows_of n X) B (rows_of n R))] ++ [D31; [m]]).
      rewrite app_assoc. apply read_app_old, read_alloc_new.
      rewrite (join_length_rows n) by (by apply (spec_pre_Forall n rows)).
      by rewrite (spec_pre_length n rows), Hshape2. }
  2:{ change (h ++ [mjoin (spec_pre (rows_of n X) B (rows_of n R)); D31; [m]])
        with (h ++ [mjoin (spec_pre (rows_of n X) B (rows_of n R)); D31] ++ [[m]]).
      rewrite app_assoc.
      replace (S (S (length h)))
        with (length (h ++ [mjoin (spec_pre (rows_of n X) B (rows_of n R)); D31]))
        by (rewrite length_app; simpl; lia).
      by apply read_alloc_new. }
  assert (Eload : load_all [x'; bias; r'; ln_weight; ln_bias; scale_tensor; amax_tensor] h
                  = (Ok [mkTensor [rows; n] X; mkTensor [n] B; mkTensor [rows; n] R;
                         mkTensor [n] W; mkTensor [n] C; mkTensor [] [s];
                         mkTensor [] [a0]], h)).
  { apply load_all_run. repeat constructor; done. }
  assert (Eexec : fd_execute
                    (fusion_definition x' bias r' ln_weight ln_bias scale_tensor
                       amax_tensor eps zcg)
                    [x'; bias; r'; ln_weight; ln_bias; scale_tensor; amax_tensor] h
                  = (Ok [mkRef (length h) 0 [rows; n];
                         mkRef (S (length h)) 0 [rows; n];
                         mkRef (S (S (length h))) 0 []],
                     h ++ [mjoin (spec_pre (rows_of n X) B (rows_of n R)); D31; [m]])).
  { unfold fd_execute. rewrite (bind_Ok _ _ _ _ _ Eload).
    unfold lift at 1. rewrite Eenv.
    rewrite (bind_Ok (fun h0 => (Ok env, h0)) _ h env h eq_refl).
    unfold lift at 1. rewrite Eout.
    rewrite (bind_Ok (fun h0 => (Ok _, h0)) _ h _ h eq_refl).
    unfold alloc_all, bind, alloc, ret. simpl. rewrite !length_app. simpl.
    replace (expand [1; n] [rows; n] B) with (mjoin (replicate rows B)).
    - rewrite (bias_add_rows n rows) by done.
      rewrite <- !app_assoc. simpl.
      replace (length h + 1) with (S (length h)) by lia.
      replace (S (length h) + 1) with (S (S (length h))) by lia. done.
    - symmetry. pose proof (expand_prefix (F:=F) [rows] [n] B) as H.
      simpl in H. rewrite H by (rewrite HB; unfold numel; simpl; lia).
      f_equal. f_equal. unfold numel. simpl. lia. }
  unfold BiasAddLayerNormFuser_apply.
  rewrite (bind_Ok _ _ _ _ _ (bind_Ok _ _ _ _ _ Eexec)). done.
Qed.
(** The same call with its three results written in the terms of the
    reference model, under the two laws that relate the arithmetic of the
    graph to that of [layer_norm]. *)
Lemma bias_add_ln_nvfuser_values (h : Heap F) x bias residual w_shape ln_weight
    ln_bias eps dt zcg scale_tensor amax_tensor do_bprop lead n X B R W C s a0 :
  (forall a b : F, fdiv a (fsqrt b) = fmul a (frsqrt b)) ->
  (forall a : F, fadd a fone = fadd fone a) ->
  valid_inputs h x bias residual w_shape ln_weight ln_bias lead n X B R W C ->
  valid_meta h scale_tensor amax_tensor s a0 ->
  let pre := spec_pre (rows_of n X) B (rows_of n R) in
  let u := spec_ln_unscaled eps zcg W C pre in
  exists m,
    bias_add_ln_nvfuser x bias residual w_shape ln_weight ln_bias eps dt zcg
      scale_tensor amax_tensor do_bprop h
    = (Ok (mkRef (length h) 0 [numel lead; n],
           mkRef (S (length h)) 0 [numel lead; n],
           mkRef (S (S (length h))) 0 []),
       h ++ [mjoin pre; mjoin (spec_ln_out s u); [m]])
    /\ spec_amax u = Some m.
Proof.
  intros Hdiv Hone Hvi Hvm pre u.
  destruct (valid_inputs_dims _ _ _ _ _ _ _ _ _ _ _ _ _ _ Hvi)
    as (Hn & HX & HR & HB & HW & HC).
  destruct Hvi as [Hx Hb Hr -> Hw Hc Hne]. destruct Hvm as [Hs Ha Hdis].
  set (rows := numel lead) in *.
  assert (Hshape2 : numel [rows; n] = rows * n) by (unfold numel; simpl; lia).
  assert (Hrn : rows * n <> 0).
  { destruct X; [done|]. simpl in HX. lia. }
  pose proof (read_shape _ _ _ Hx) as Hsx. pose proof (read_shape _ _ _ Hr) as Hsr.
  simpl in Hsx, Hsr.
  unfold bias_add_ln_nvfuser.
  rewrite (bind_Ok _ _ _ _ _ (tuple_last_run h [] n)).
  rewrite (bind_Ok _ _ _ _ _
    (view_neg1_run x n rows h Hn ltac:(by rewrite <- Hsx, numel_snoc))).
  rewrite (bind_Ok _ _ _ _ _ (tuple_last_run h [] n)).
  rewrite (bind_Ok _ _ _ _ _
    (view_neg1_run residual n rows h Hn ltac:(by rewrite <- Hsr, numel_snoc))).
  set (x' := mkRef (t_buf x) (t_off x) [rows; n]).
  set (r' := mkRef (t_buf residual) (t_off residual) [rows; n]).
  assert (Hx' : read h x' = Some (mkTensor [rows; n] X)).
  { apply (read_reshape h x _ [rows; n] Hx). by rewrite <- Hsx, numel_snoc. }
  assert (Hr' : read h r' = Some (mkTensor [rows; n] R)).
  { apply (read_reshape h residual _ [rows; n] Hr). by rewrite <- Hsr, numel_snoc. }
  destruct (fusion_exec_values zcg rows n X B R W C s a0 eps x' bias r' ln_weight
              ln_bias scale_tensor amax_tensor Hdiv Hone eq_refl
              (eq_sym (read_shape _ _ _ Hb)) eq_refl
              (eq_sym (read_shape _ _ _ Hw)) (eq_sym (read_shape _ _ _ Hc))
              (eq_sym (read_shape _ _ _ Hs)) (eq_sym (read_shape _ _ _ Ha))
              HX HB HR HW HC Hrn)
    as (env & m & Eenv & Eout & Em).
  exists m. split; [|done].
  assert (Eload : load_all [x'; bias; r'; ln_weight; ln_bias; scale_tensor; amax_tensor] h
                  = (Ok [mkTensor [rows; n] X; mkTensor [n] B; mkTensor [rows; n] R;
                         mkTensor [n] W; mkTensor [n] C; mkTensor [] [s];
                         mkTensor [] [a0]], h)).
  { apply load_all_run. repeat constructor; done. }
  assert (Eexec : fd_execute
                    (fusion_definition x' bias r' ln_weight ln_bias scale_tensor
                       amax_tensor eps zcg)
                    [x'; bias; r'; ln_weight; ln_bias; scale_tensor; amax_tensor] h
                  = (Ok [mkRef (length h) 0 [rows; n];
                         mkRef (S (length h)) 0 [rows; n];
                         mkRef (S (S (length h))) 0 []],
                     h ++ [mjoin pre; mjoin (spec_ln_out s u); [m]])).
  { unfold fd_execute. rewrite (bind_Ok _ _ _ _ _ Eload).
    unfold lift at 1. rewrite Eenv.
    rewrite (bind_Ok (fun h0 => (Ok env, h0)) _ h env h eq_refl).
    unfold lift at 1. fold pre u in Eout. rewrite Eout.
    rewrite (bind_Ok (fun h0 => (Ok _, h0)) _ h _ h eq_refl).
    unfold alloc_all, bind, alloc, ret. simpl. rewrite !length_app. simpl.
    rewrite <- !app_assoc. simpl.
    replace (length h + 1) with (S (length h)) by lia.
    replace (S (length h) + 1) with (S (S (length h))) by lia. done. }
  unfold BiasAddLayerNormFuser_apply.
  rewrite (bind_Ok _ _ _ _ _ (bind_Ok _ _ _ _ _ Eexec)). done.
Qed.
(** The three tensors the nvFuser call allocates can be read back. *)
Lemma nvfuser_outputs_read (h : Heap F) x bias residual w_shape ln_weight ln_bias
    lead n X B R W C eps zcg s m :
  valid_inputs h x bias residual w_shape ln_weight ln_bias lead n X B R W C ->
  let pre := spec_pre (rows_of n X) B (rows_of n R) in
  let u := spec_ln_unscaled eps zcg W C pre in
  let h' := h ++ [mjoin pre; mjoin (spec_ln_out s u); [m]] in
  read h' (mkRef (length h) 0 [numel lead; n])
  = Some (mkTensor [numel lead; n] (mjoin pre))
  /\ read h' (mkRef (S (length h)) 0 [numel lead; n])
     = Some (mkTensor [numel lead; n] (mjoin (spec_ln_out s u)))
  /\ read h' (mkRef (S (S (length h))) 0 []) = Some (mkTensor [] [m]).
Proof.
  intros Hvi pre u h'.
  destruct (valid_inputs_dims _ _ _ _ _ _ _ _ _ _ _ _ _ _ Hvi)
    as (Hn & HX & HR & HB & HW & HC).
  set (rows := numel lead) in *.
  assert (Hshape2 : numel [rows; n] = rows * n) by (unfold numel; simpl; lia).
  assert (Hprelen : length pre = rows) by (by apply spec_pre_length).
  assert (Hpre : Forall (fun c => length c = n) pre) by (by apply (spec_pre_Forall n rows)).
  assert (Hulen : length u = rows) by (unfold u; by rewrite spec_ln_unscaled_length).
  assert (Hu : Forall (fun c => length c = n) u) by (by apply spec_ln_unscaled_Forall).
  split; [|split]; unfold h'.
  - change (h ++ [mjoin pre; mjoin (spec_ln_out s u); [m]])
      with (h ++ [mjoin pre] ++ [mjoin (spec_ln_out s u); [m]]).
    rewrite app_assoc. apply read_app_old, read_alloc_new.
    by rewrite (join_length_rows n), Hprelen, Hshape2.
  - change (h ++ [mjoin pre; mjoin (spec_ln_out s u); [m]])
      with (h ++ [mjoin pre] ++ [mjoin (spec_ln_out s u)] ++ [[m]]).
    rewrite !app_assoc. apply read_app_old.
    replace (S (length h)) with (length (h ++ [mjoin pre]))
      by (rewrite length_app; simpl; lia).
    apply read_alloc_new.
    by rewrite spec_ln_out_join, length_fmap, (join_length_rows n), Hulen, Hshape2.
  - change (h ++ [mjoin pre; mjoin (spec_ln_out s u); [m]])
      with (h ++ [mjoin pre; mjoin (spec_ln_out s u)] ++ [[m]]).
    rewrite app_assoc.
    replace (S (S (length h)))
      with (length (h ++ [mjoin pre; mjoin (spec_ln_out s u)]))
      by (rewrite length_app; simpl; lia).
    by apply read_alloc_new.
Qed.
End Appends.

(** ** The driver *)

Section DriverFacts.
Context {F : Type} {SF : Scalar F}.
Variable native_dropout : Q -> Tensor F -> Tensor F.
Variable layernorm_fwd_fp8 :
  TensorRef -> TensorRef -> TensorRef -> F -> FP8TensorMeta -> nat -> dtype ->
  nat -> bool -> TensorRef -> M F (TensorRef * TensorRef * TensorRef).
Variables (eps_setting fp8_scale : F).
Variable backward : TensorRef -> M F unit.

Lemma io_bind_Ok {A B : Type} (m : IO (F:=F) A) (k : A -> IO B) st a st' :
  m st = (Ok a, st') -> io_bind m k st = k a st'.
Proof. intros H. unfold io_bind. by rewrite H. Qed.

Lemma io_bind_inv {A B : Type} (m : IO (F:=F) A) (k : A -> IO B) st b st' :
  io_bind m k st = (Ok b, st') ->
  exists a st1, m st = (Ok a, st1) /\ k a st1 = (Ok b, st').
Proof.
  unfold io_bind. destruct (m st) as [[a|e] st1]; [eauto | done].
Qed.

Lemma texts_only_ret {A : Type} (a : A) : texts_only (io_ret (F:=F) a).
Proof. intros st. exists []. simpl. by rewrite app_nil_r. Qed.

Lemma texts_only_lift {A : Type} (m : M F A) : texts_only (io_lift m).
Proof.
  intros st. exists []. unfold io_lift. destruct (m st.1). simpl.
  by rewrite app_nil_r.
Qed.

Lemma texts_only_print s : texts_only (print (F:=F) (PrintText s)).
Proof.
  intros st. exists [PrintText s]. split; [done|]. constructor; [by exists s | done].
Qed.

Lemma texts_only_bind {A B : Type} (m : IO (F:=F) A) (k : A -> IO B) :
  texts_only m -> (forall a, texts_only (k a)) -> texts_only (io_bind m k).
Proof.
  intros Hm Hk st. unfold io_bind. destruct (Hm st) as (l1 & E1 & H1).
  destruct (m st) as [[a|e] st1]; simpl in E1.
  - destruct (Hk a st1) as (l2 & E2 & H2). exists (l1 ++ l2).
    rewrite E2, E1, app_assoc. split; [done|]. by apply Forall_app.
  - by exists l1.
Qed.

Lemma texts_only_repeat {A : Type} n (body : IO (F:=F) A) last :
  texts_only body -> texts_only (io_repeat n body last).
Proof.
  intros Hb. revert last. induction n as [|n IH]; intros last; simpl.
  - apply texts_only_ret.
  - apply texts_only_bind; [done|]. intros r. apply IH.
Qed.

Lemma texts_only_run_impl ln_weight ln_bias x bias residual d impl :
  texts_only (run_impl native_dropout layernorm_fwd_fp8 eps_setting fp8_scale
                backward ln_weight ln_bias x bias residual d impl).
Proof.
  unfold run_impl.
  repeat first
    [ apply texts_only_repeat
    | apply texts_only_lift
    | apply texts_only_print
    | apply texts_only_bind; [|intros ?] ].
  match goal with |- texts_only (match ?l with _ => _ end) => destruct l end;
    [apply texts_only_ret | apply texts_only_lift].
Qed.

Lemma texts_only_run_all ln_weight ln_bias x bias residual impls d :
  texts_only (run_all native_dropout layernorm_fwd_fp8 eps_setting fp8_scale
                backward ln_weight ln_bias x bias residual impls d).
Proof.
  revert d. induction impls as [|impl impls IH]; intros d; simpl.
  - apply texts_only_ret.
  - apply texts_only_bind; [apply texts_only_run_impl | intros ?; apply IH].
Qed.

(** The runs of [main] leave a result for ["nvfuser"] and for nothing
    else. *)
Lemma run_all_results ln_weight ln_bias x bias residual st d st' :
  run_all native_dropout layernorm_fwd_fp8 eps_setting fp8_scale backward
    ln_weight ln_bias x bias residual run_impls ∅ st = (Ok d, st') ->
  exists r, d = <["nvfuser" := r]> ∅.
Proof.
  unfold run_impls. simpl. intros H.
  apply io_bind_inv in H as (d1 & st1 & H & Hret).
  unfold io_ret in Hret. injection Hret as Hd Hst. subst d1 st1.
  unfold run_impl in H.
  do 9 (apply io_bind_inv in H as (? & ? & _ & H)).
  apply io_bind_inv in H as (last & st10 & _ & H).
  destruct last as [r|]; [|by unfold io_lift, raise in H].
  unfold io_ret in H. injection H as Hd _. by exists r.
Qed.

(** The comparison visits the six unordered pairs of [all_impls]. *)
Lemma compare_fprop_pairs (d : gmap string (TensorRef * TensorRef * TensorRef))
    (st : Heap F * list (Line F)) :
  compare_fprop all_impls d st
  = io_bind (print (PrintText "\nComparing fprop...\n"))
      (fun _ => io_for all_pairs (fun p => compare_pair d p.1 p.2)) st.
Proof.
  destruct st as [h out].
  unfold compare_fprop, all_impls, all_pairs.
  cbv [length seq io_for Nat.add Nat.sub fst snd io_bind list_get lookup
         list_lookup io_ret print].
  repeat match goal with
         | |- context [compare_pair d ?a ?b ?s] =>
             destruct (compare_pair d a b s) as [[[]|?] ?]
         end; reflexivity.
Qed.

(** Without a result for ["native"], whatever else was run, the comparison
    stops at its first pair: no pair is compared. *)
Lemma compare_fprop_missing (d : gmap string (TensorRef * TensorRef * TensorRef))
    (h : Heap F) out :
  d !! "native" = None ->
  compare_fprop all_impls d (h, out)
  = (Raise (KeyError "native"),
     (h, (out ++ [PrintText "\nComparing fprop...\n"])
           ++ [PrintText "[native] vs. [compile]"])).
Proof.
  intros H. rewrite compare_fprop_pairs. unfold all_pairs. cbn [io_for fst snd].
  unfold io_bind at 1. cbn [print fst snd].
  unfold io_bind at 1. unfold compare_pair.
  unfold io_bind at 1. cbn [print fst snd].
  unfold io_bind at 1. unfold io_lift at 1. cbn [fst snd].
  unfold bind at 1. unfold dict_get at 1. by rewrite H.
Qed.

Lemma io_lift_run {A : Type} (m : M F A) r (h h' : Heap F) out :
  m h = (r, h') -> io_lift m (h, out) = (r, (h', out)).
Proof. intros H. unfold io_lift. simpl. by rewrite H. Qed.

Lemma dict_get_run {V : Type} (d : gmap string V) k v (h : Heap F) :
  d !! k = Some v -> dict_get d k h = (Ok v, h).
Proof. intros H. unfold dict_get. by rewrite H. Qed.

Lemma item_run (h : Heap F) t v :
  read h t = Some (mkTensor [] [v]) -> item t h = (Ok v, h).
Proof.
  intros H. unfold item. by rewrite (bind_Ok _ _ _ _ _ (load_run _ _ _ H)).
Qed.

Lemma max_abs_diff_run (h : Heap F) a b S Da Db :
  read h a = Some (mkTensor S Da) -> read h b = Some (mkTensor S Db) ->
  Da <> [] ->
  exists v,
    amax_list (fabs <$> zip_with fsub Da Db) = Ok v
    /\ max_abs_diff a b h
       = (Ok (mkRef (length ((h ++ [zip_with fsub Da Db])
                               ++ [fabs <$> zip_with fsub Da Db])) 0 []),
          ((h ++ [zip_with fsub Da Db]) ++ [fabs <$> zip_with fsub Da Db]) ++ [[v]]).
Proof.
  intros Ha Hb Hne.
  pose proof (read_length _ _ _ Ha) as HDa. pose proof (read_length _ _ _ Hb) as HDb.
  simpl in HDa, HDb.
  assert (Hlen : length (zip_with fsub Da Db) = numel S)
    by (rewrite length_zip_with; lia).
  destruct (fabs <$> zip_with fsub Da Db) as [|v vs] eqn:Ed.
  { apply (f_equal length) in Ed. rewrite length_fmap, Hlen, <- HDa in Ed.
    destruct Da; [done | simpl in Ed; lia]. }
  exists (foldl fmax v vs). split; [done|]. rewrite <- Ed.
  unfold max_abs_diff, torch_sub.
  rewrite (bind_Ok _ _ _ _ _
    (torch_binop_run fsub a b _ _ _ h Ha Hb (tensor_binop_same fsub S Da Db HDa HDb))).
  simpl shape; simpl data.
  rewrite (bind_Ok _ _ _ _ _
    (torch_abs_run _ _ _ (read_alloc_new h S (zip_with fsub Da Db) Hlen))).
  simpl shape; simpl data.
  apply (torch_amax_run _ (mkTensor S (fabs <$> zip_with fsub Da Db))).
  - apply read_alloc_new. by rewrite length_fmap.
  - simpl. by rewrite Ed.
Qed.

Lemma abs_diff_run (h : Heap F) a b va vb :
  read h a = Some (mkTensor [] [va]) -> read h b = Some (mkTensor [] [vb]) ->
  abs_diff a b h
  = (Ok (mkRef (length (h ++ [[fsub va vb]])) 0 []),
     (h ++ [[fsub va vb]]) ++ [[fabs (fsub va vb)]]).
Proof.
  intros Ha Hb. unfold abs_diff, torch_sub.
  rewrite (bind_Ok _ _ _ _ _
    (torch_binop_run fsub a b _ _ _ h Ha Hb
       (tensor_binop_same fsub [] [va] [vb] eq_refl eq_refl))).
  simpl shape; simpl data.
  by rewrite (torch_abs_run _ _ _ (read_alloc_new h [] [fsub va vb] eq_refl)).
Qed.

(** One pair of the comparison, when both implementations have a result:
    the pair is announced, the three differences are computed and printed,
    and nothing is tested against a threshold. *)
Lemma compare_pair_run (d : gmap string (TensorRef * TensorRef * TensorRef))
    impl_cur impl_ref (h : Heap F) out b1 l1 m1 b2 l2 m2 S Db1 Db2 Dl1 Dl2 v1 v2 :
  d !! impl_cur = Some (b1, l1, m1) -> d !! impl_ref = Some (b2, l2, m2) ->
  read h b1 = Some (mkTensor S Db1) -> read h b2 = Some (mkTensor S Db2) ->
  read h l1 = Some (mkTensor S Dl1) -> read h l2 = Some (mkTensor S Dl2) ->
  read h m1 = Some (mkTensor [] [v1]) -> read h m2 = Some (mkTensor [] [v2]) ->
  Db1 <> [] ->
  exists k bda_out_diff ln_out_diff,
    amax_list (fabs <$> zip_with fsub Db1 Db2) = Ok bda_out_diff
    /\ amax_list (fabs <$> zip_with fsub Dl1 Dl2) = Ok ln_out_diff
    /\ compare_pair d impl_cur impl_ref (h, out)
       = (Ok tt,
          (h ++ k,
           out ++ [PrintText ("[" ++ impl_cur ++ "] vs. [" ++ impl_ref ++ "]");
                   PrintItem "Intermediate Bias-Dropout-Add output diff:" bda_out_diff;
                   PrintItem "LayerNorm output diff:" ln_out_diff;
                   PrintItem "Amax diff:" (fabs (fsub v1 v2));
                   PrintText EmptyString])).
Proof.
  intros Hc Hr Hb1 Hb2 Hl1 Hl2 Hm1 Hm2 Hne.
  assert (Hne' : Dl1 <> []).
  { apply read_length in Hb1, Hl1. simpl in *. intros ->. simpl in Hl1.
    rewrite <- Hl1 in Hb1. by destruct Db1. }
  destruct (max_abs_diff_run h b1 b2 S Db1 Db2 Hb1 Hb2 Hne) as (dv & Edv & E1).
  set (h1 := ((h ++ [zip_with fsub Db1 Db2]) ++ [fabs <$> zip_with fsub Db1 Db2])
             ++ [[dv]]) in *.
  assert (Hext1 : forall t v, read h t = Some v -> read h1 t = Some v).
  { intros t v Ht. unfold h1. by do 3 apply read_app_old. }
  destruct (max_abs_diff_run h1 l1 l2 S Dl1 Dl2 (Hext1 _ _ Hl1) (Hext1 _ _ Hl2) Hne')
    as (lv & Elv & E2).
  set (h2 := ((h1 ++ [zip_with fsub Dl1 Dl2]) ++ [fabs <$> zip_with fsub Dl1 Dl2])
             ++ [[lv]]) in *.
  assert (Hext2 : forall t v, read h1 t = Some v -> read h2 t = Some v).
  { intros t v Ht. unfold h2. by do 3 apply read_app_old. }
  pose proof (abs_diff_run h2 m1 m2 v1 v2 (Hext2 _ _ (Hext1 _ _ Hm1))
                (Hext2 _ _ (Hext1 _ _ Hm2))) as E3.
  set (h3 := (h2 ++ [[fsub v1 v2]]) ++ [[fabs (fsub v1 v2)]]) in *.
  exists ([zip_with fsub Db1 Db2; fabs <$> zip_with fsub Db1 Db2; [dv];
          zip_with fsub Dl1 Dl2; fabs <$> zip_with fsub Dl1 Dl2; [lv];
          [fsub v1 v2]; [fabs (fsub v1 v2)]]), dv, lv.
  split; [done|]. split; [done|].
  unfold compare_pair.
  rewrite (io_bind_Ok (print _) _ (h, out) tt _ eq_refl).
  rewrite (io_bind_Ok _ _ _ _ _
    (io_lift_run _ _ h h1 _
       (eq_trans (bind_Ok _ _ _ _ _ (dict_get_run d impl_cur _ h Hc))
          (eq_trans (bind_Ok _ _ _ _ _ (dict_get_run d impl_ref _ h Hr)) E1)))).
  rewrite (io_bind_Ok _ _ _ _ _
    (io_lift_run _ _ h1 h2 _
       (eq_trans (bind_Ok _ _ _ _ _ (dict_get_run d impl_cur _ h1 Hc))
          (eq_trans (bind_Ok _ _ _ _ _ (dict_get_run d impl_ref _ h1 Hr)) E2)))).
  rewrite (io_bind_Ok _ _ _ _ _
    (io_lift_run _ _ h2 h3 _
       (eq_trans (bind_Ok _ _ _ _ _ (dict_get_run d impl_cur _ h2 Hc))
          (eq_trans (bind_Ok _ _ _ _ _ (dict_get_run d impl_ref _ h2 Hr)) E3)))).
  assert (Hdv : read h3 (mkRef (length ((h ++ [zip_with fsub Db1 Db2])
                                 ++ [fabs <$> zip_with fsub Db1 Db2])) 0 [])
                = Some (mkTensor [] [dv])).
  { unfold h3, h2. do 5 apply read_app_old. by apply read_alloc_new. }
  assert (Hlv : read h3 (mkRef (length ((h1 ++ [zip_with fsub Dl1 Dl2])
                                 ++ [fabs <$> zip_with fsub Dl1 Dl2])) 0 [])
                = Some (mkTensor [] [lv])).
  { unfold h3. do 2 apply read_app_old. by apply read_alloc_new. }
  assert (Hav : read h3 (mkRef (length (h2 ++ [[fsub v1 v2]])) 0 [])
                = Some (mkTensor [] [fabs (fsub v1 v2)])).
  { by apply read_alloc_new. }
  rewrite (io_bind_Ok _ _ _ _ _ (io_lift_run _ _ h3 h3 _ (item_run _ _ _ Hdv))).
  rewrite (io_bind_Ok (print _) _ _ tt _ eq_refl).
  rewrite (io_bind_Ok _ _ _ _ _ (io_lift_run _ _ h3 h3 _ (item_run _ _ _ Hlv))).
  rewrite (io_bind_Ok (print _) _ _ tt _ eq_refl).
  rewrite (io_bind_Ok _ _ _ _ _ (io_lift_run _ _ h3 h3 _ (item_run _ _ _ Hav))).
  rewrite (io_bind_Ok (print _) _ _ tt _ eq_refl).
  unfold print. cbn [fst snd]. unfold h3, h2, h1.
  by rewrite <- !app_assoc.
Qed.
End DriverFacts.

(** ** The concrete calls are well-formed *)

Lemma stub_kernel_returns {F : Type} (h : Heap F) ln_weight ln_bias (eps : F) m
    zcg rows n :
  te_kernel_returns stub_layernorm_fwd_fp8 h ln_weight ln_bias eps m zcg rows n.
Proof.
  intros h1 inp out D Z _ _ _ _ Hinp Hout. by exists out, out, out, h1, (mkTensor [rows; n] Z).
Qed.

Lemma example_inputs :
  valid_inputs Example.heap0 Example.x Example.bias Example.residual
    Example.w_shape Example.ln_weight Example.ln_bias
    [2] 2 [1; 3; 2; 6]%R [0; 0]%R [0; 0; 0; 0]%R [1; 1]%R [0; 0]%R.
Proof. by constructor. Qed.

Lemma example_inputs_scale_one :
  valid_inputs Example.heap1 Example.x Example.bias Example.residual
    Example.w_shape Example.ln_weight Example.ln_bias
    [2] 2 [1; 3; 2; 6]%R [0; 0]%R [0; 0; 0; 0]%R [1; 1]%R [0; 0]%R.
Proof. by constructor. Qed.


Lemma example_inputs_one_plus :
  valid_inputs Example.heap0 Example.x Example.bias Example.residual
    Example.w_shape Example.one_plus_weight Example.ln_bias
    [2] 2 [1; 3; 2; 6]%R [0; 0]%R [0; 0; 0; 0]%R (fadd fone <$> [1; 1]%R) [0; 0]%R.
Proof. by constructor. Qed.

Lemma example_inputs_zero_weight :
  valid_inputs Example.heap1 Example.x Example.bias Example.residual
    Example.w_shape Example.zero_weight Example.ln_bias
    [2] 2 [1; 3; 2; 6]%R [0; 0]%R [0; 0; 0; 0]%R (replicate 2 0%R) (replicate 2 0%R).
Proof. by constructor. Qed.

Lemma example_meta :
  valid_meta Example.heap0 Example.scale_tensor Example.amax_tensor (/ 2)%R 0%R.
Proof. by constructor. Qed.

Lemma example_meta_scale_one :
  valid_meta Example.heap1 Example.scale_tensor Example.amax_tensor 1%R 0%R.
Proof. by constructor. Qed.

Lemma example_meta_object :
  valid_meta_object Example.heap0 Example.meta (/ 2)%R 0%R.
Proof. by constructor. Qed.


(** ** The calls executed on machine numbers *)

(** Rows [1 3] and [5 7], unit weight, [eps = 3], scale one half: the
    normalized rows are [-1/2 1/2], the accumulator receives their largest
    magnitude before the scale is applied. *)
Lemma float_native_outputs :
  FloatExample.outputs FloatExample.ln_weight "native"
  = Some [mkTensor [2; 2] [1; 3; 5; 7]%float;
          mkTensor [2; 2] [-0.25; 0.25; -0.25; 0.25]%float;
          mkTensor [] [0.5%float];
          mkTensor [] [0.5%float]].
Proof. vm_compute. reflexivity. Qed.

Lemma float_compile_outputs :
  FloatExample.outputs FloatExample.ln_weight "compile"
  = FloatExample.outputs FloatExample.ln_weight "native".
Proof. vm_compute. reflexivity. Qed.

(** The fusion returns the same three values and leaves the accumulator
    cell at its old content. *)
Lemma float_nvfuser_outputs :
  FloatExample.outputs FloatExample.ln_weight "nvfuser"
  = Some [mkTensor [2; 2] [1; 3; 5; 7]%float;
          mkTensor [2; 2] [-0.25; 0.25; -0.25; 0.25]%float;
          mkTensor [] [0.5%float];
          mkTensor [] [0%float]].
Proof. vm_compute. reflexivity. Qed.

Lemma float_zero_weight_outputs :
  FloatExample.outputs FloatExample.zero_weight "native"
  = Some [mkTensor [2; 2] [1; 3; 5; 7]%float;
          mkTensor [2; 2] [0; 0; 0; 0]%float;
          mkTensor [] [0%float];
          mkTensor [] [0%float]].
Proof. vm_compute. reflexivity. Qed.

Lemma float_unknown_impl :
  FloatExample.call FloatExample.ln_weight "triton" FloatExample.heap0
  = (Raise (ValueError "Implementation 'triton' is not recognized."),
     FloatExample.heap0).
Proof. vm_compute. reflexivity. Qed.

Lemma float_compare_prints :
  (FloatExample.two_runs (FloatExample.heap0, [])).1 = Ok tt
  /\ (FloatExample.two_runs (FloatExample.heap0, [])).2.2
     = [PrintText "\nComparing fprop...\n";
        PrintText "[native] vs. [nvfuser]";
        PrintItem "Intermediate Bias-Dropout-Add output diff:" 0%float;
        PrintItem "LayerNorm output diff:" 0%float;
        PrintItem "Amax diff:" 0%float;
        PrintText EmptyString].
Proof. split; vm_compute; reflexivity. Qed.

(* ===================================================================== *)
(** * Part III: the claims                                                *)
(* ===================================================================== *)

Section Claims.
Context {F : Type} {SF : Scalar F}.

(** C1. For every valid input the native implementation returns the triple
    [(bda_out, ln_out, amax)]: [bda_out] is [x + bias + residual] (bias
    broadcast along all axes but the last) in the 2-D layout [[rows; n]];
    [ln_out] is the per-row layer normalization of [bda_out] (mean and
    divide-by-N variance over the last axis), transformed by the effective
    weight and [ln_bias] and then multiplied by the scale; [amax] is the
    maximum absolute value of the unscaled layer-norm output over all
    elements. *)
Theorem C1_native_computes_reference (h : Heap F) x bias residual w_shape
    ln_weight ln_bias eps dt zcg scale_tensor amax_tensor
    lead n X B R W C s a0 :
  valid_inputs h x bias residual w_shape ln_weight ln_bias lead n X B R W C ->
  valid_meta h scale_tensor amax_tensor s a0 ->
  exists bda_out ln_out amax h' m,
    bias_add_ln_native x bias residual w_shape ln_weight ln_bias eps dt zcg
      scale_tensor amax_tensor h
    = (Ok (bda_out, ln_out, amax), h')
    /\ read h' bda_out
       = Some (mkTensor [numel lead; n]
                 (mjoin (spec_pre (rows_of n X) B (rows_of n R))))
    /\ read h' ln_out
       = Some (mkTensor [numel lead; n]
                 (mjoin (spec_ln_out s
                    (spec_ln_unscaled eps zcg W C
                       (spec_pre (rows_of n X) B (rows_of n R))))))
    /\ spec_amax (spec_ln_unscaled eps zcg W C
                    (spec_pre (rows_of n X) B (rows_of n R))) = Some m
    /\ read h' amax = Some (mkTensor [] [m]).
Proof.
  intros Hvi Hvm.
  destruct (bias_add_ln_native_run h x bias residual w_shape ln_weight ln_bias
              eps dt zcg scale_tensor amax_tensor lead n X B R W C s a0 Hvi Hvm)
    as (bda_out & ln_out & h' & m & E & H1 & H2 & H3 & H4 & _).
  exists bda_out, ln_out, amax_tensor, h', m. auto.
Qed.

(** C2. Two calls on the same inputs that differ only in the scale, [c]
    (one half in the scenario) against one: the [ln_out] of the first is
    the [ln_out] of the second multiplied element by element by [c], and
    both return the same amax.  The only arithmetic fact used is that
    multiplying by one changes nothing. *)
Theorem C2_scale_rescales_ln_out_only (h1 h2 : Heap F) x bias residual w_shape
    ln_weight ln_bias eps dt zcg scale_tensor amax_tensor
    lead n X B R W C c a1 a2 :
  (forall v : F, fmul v fone = v) ->
  valid_inputs h1 x bias residual w_shape ln_weight ln_bias lead n X B R W C ->
  valid_meta h1 scale_tensor amax_tensor c a1 ->
  valid_inputs h2 x bias residual w_shape ln_weight ln_bias lead n X B R W C ->
  valid_meta h2 scale_tensor amax_tensor fone a2 ->
  exists bda1 ln1 amax1 h1' bda2 ln2 amax2 h2' L A,
    bias_add_ln_native x bias residual w_shape ln_weight ln_bias eps dt zcg
      scale_tensor amax_tensor h1 = (Ok (bda1, ln1, amax1), h1')
    /\ bias_add_ln_native x bias residual w_shape ln_weight ln_bias eps dt zcg
         scale_tensor amax_tensor h2 = (Ok (bda2, ln2, amax2), h2')
    /\ read h2' ln2 = Some (mkTensor [numel lead; n] L)
    /\ read h1' ln1 = Some (mkTensor [numel lead; n] ((fun v => fmul v c) <$> L))
    /\ read h1' amax1 = Some A
    /\ read h2' amax2 = Some A.
Proof.
  intros Hone Hvi1 Hvm1 Hvi2 Hvm2.
  destruct (bias_add_ln_native_run h1 x bias residual w_shape ln_weight ln_bias
              eps dt zcg scale_tensor amax_tensor lead n X B R W C c a1 Hvi1 Hvm1)
    as (bda1 & ln1 & h1' & m1 & E1 & _ & Hl1 & Hm1 & Ha1 & _).
  destruct (bias_add_ln_native_run h2 x bias residual w_shape ln_weight ln_bias
              eps dt zcg scale_tensor amax_tensor lead n X B R W C fone a2 Hvi2 Hvm2)
    as (bda2 & ln2 & h2' & m2 & E2 & _ & Hl2 & Hm2 & Ha2 & _).
  rewrite Hm1 in Hm2. injection Hm2 as <-.
  rewrite spec_ln_out_join in Hl1, Hl2.
  assert (Hid : forall l : list F, (fun v => fmul v fone) <$> l = l).
  { intros l. induction l as [|v l IH]; csimpl; [done|]. by rewrite Hone, IH. }
  rewrite Hid in Hl2.
  eexists bda1, ln1, amax_tensor, h1', bda2, ln2, amax_tensor, h2', _, _.
  repeat split; eassumption.
Qed.

(** C3. With everything else fixed, the call with [zero_centered_gamma]
    on and weight [w] returns the same three tensors as the call with
    [zero_centered_gamma] off and weight [1 + w]. *)
Theorem C3_zero_centered_gamma (h1 h2 : Heap F) x bias residual w_shape
    ln_weight ln_weight_plus ln_bias eps dt scale_tensor amax_tensor
    lead n X B R W C s a1 a2 :
  valid_inputs h1 x bias residual w_shape ln_weight ln_bias lead n X B R W C ->
  valid_meta h1 scale_tensor amax_tensor s a1 ->
  valid_inputs h2 x bias residual w_shape ln_weight_plus ln_bias lead n X B R
    (fadd fone <$> W) C ->
  valid_meta h2 scale_tensor amax_tensor s a2 ->
  exists bda1 ln1 amax1 h1' bda2 ln2 amax2 h2' Vb Vl Va,
    bias_add_ln_native x bias residual w_shape ln_weight ln_bias eps dt true
      scale_tensor amax_tensor h1 = (Ok (bda1, ln1, amax1), h1')
    /\ bias_add_ln_native x bias residual w_shape ln_weight_plus ln_bias eps dt
         false scale_tensor amax_tensor h2 = (Ok (bda2, ln2, amax2), h2')
    /\ read h1' bda1 = Some Vb /\ read h2' bda2 = Some Vb
    /\ read h1' ln1 = Some Vl /\ read h2' ln2 = Some Vl
    /\ read h1' amax1 = Some Va /\ read h2' amax2 = Some Va.
Proof.
  intros Hvi1 Hvm1 Hvi2 Hvm2.
  destruct (bias_add_ln_native_run h1 x bias residual w_shape ln_weight ln_bias
              eps dt true scale_tensor amax_tensor lead n X B R W C s a1 Hvi1 Hvm1)
    as (bda1 & ln1 & h1' & m1 & E1 & Hb1 & Hl1 & Hm1 & Ha1 & _).
  destruct (bias_add_ln_native_run h2 x bias residual w_shape ln_weight_plus
              ln_bias eps dt false scale_tensor amax_tensor lead n X B R
              (fadd fone <$> W) C s a2 Hvi2 Hvm2)
    as (bda2 & ln2 & h2' & m2 & E2 & Hb2 & Hl2 & Hm2 & Ha2 & _).
  change (spec_ln_unscaled eps false (fadd fone <$> W) C)
    with (spec_ln_unscaled eps true W C) in Hl2, Hm2.
  rewrite Hm1 in Hm2. injection Hm2 as <-.
  eexists bda1, ln1, amax_tensor, h1', bda2, ln2, amax_tensor, h2', _, _, _.
  repeat split; eassumption.
Qed.


(** C7. Called with a selector that is none of the four implementations,
    the dispatcher raises a [ValueError] whose message quotes the selector,
    and the heap is left exactly as it was: nothing was computed,
    allocated or written.  The call carries the [meta] and [do_bprop]
    keywords, which the dispatcher reads first. *)
Theorem C7_unrecognized_impl_raises
    (native_dropout : Q -> Tensor F -> Tensor F)
    (layernorm_fwd_fp8 :
       TensorRef -> TensorRef -> TensorRef -> F -> FP8TensorMeta -> nat -> dtype ->
       nat -> bool -> TensorRef -> M F (TensorRef * TensorRef * TensorRef))
    (args : Args F) (kwargs : gmap string PyVal) impl vmeta vdo (h : Heap F) :
  kwargs !! "impl" = Some (VStr impl) ->
  kwargs !! "meta" = Some vmeta ->
  kwargs !! "do_bprop" = Some vdo ->
  impl ∉ all_impls ->
  bias_add_ln native_dropout layernorm_fwd_fp8 args kwargs h
  = (Raise (ValueError ("Implementation '" ++ impl ++ "' is not recognized.")), h).
Proof.
  intros Hi Hm Hd Hnot. unfold bias_add_ln, dict_get. rewrite Hi, Hm, Hd.
  unfold all_impls in Hnot. rewrite !not_elem_of_cons in Hnot.
  destruct Hnot as (H1 & H2 & H3 & H4 & _).
  unfold bind at 1 2 3. unfold ret at 1 2 3. unfold py_eq_str.
  apply String.eqb_neq in H1, H2, H3, H4. by rewrite H1, H2, H3, H4.
Qed.

(** C6, at the shipped settings of [main].  The comparison takes its pairs
    from [all_impls], not from the implementations that were run: with
    ["nvfuser"] alone having run, [main] never ends normally and prints no
    difference at all; when the runs succeed it stops at the first pair,
    ["native"] against ["compile"], with [KeyError] for ["native"]. *)
Theorem C6_compare_fails_on_unexecuted_impl
    (native_dropout : Q -> Tensor F -> Tensor F)
    (layernorm_fwd_fp8 :
       TensorRef -> TensorRef -> TensorRef -> F -> FP8TensorMeta -> nat -> dtype ->
       nat -> bool -> TensorRef -> M F (TensorRef * TensorRef * TensorRef))
    (eps_setting fp8_scale : F) (backward : TensorRef -> M F unit)
    (compare_bprop : IO unit)
    (ln_weight ln_bias x bias residual : TensorRef) (h : Heap F) out :
  exists e h' ls,
    main native_dropout layernorm_fwd_fp8 eps_setting fp8_scale backward
      compare_bprop ln_weight ln_bias x bias residual (h, out)
    = (Raise e, (h', out ++ ls))
    /\ Forall is_text ls
    /\ (forall d st,
          run_all native_dropout layernorm_fwd_fp8 eps_setting fp8_scale backward
            ln_weight ln_bias x bias residual run_impls ∅ (h, out) = (Ok d, st) ->
          e = KeyError "native").
Proof.
  unfold main. unfold io_bind at 1.
  destruct (texts_only_run_all native_dropout layernorm_fwd_fp8 eps_setting
              fp8_scale backward ln_weight ln_bias x bias residual run_impls ∅
              (h, out)) as (l1 & E1 & H1).
  destruct (run_all _ _ _ _ _ _ _ _ _ _ _ _ (h, out)) as [[d|e] [h1 out1]] eqn:Erun;
    simpl in E1; subst out1.
  - destruct (run_all_results _ _ _ _ _ _ _ _ _ _ _ _ _ Erun) as [r ->].
    cbn [compare_setting]. unfold io_bind at 1.
    rewrite compare_fprop_missing by reflexivity.
    eexists _, h1, (l1 ++ [_; _]). rewrite <- !app_assoc. split; [done|].
    split; [|done].
    apply Forall_app. split; [done|]. repeat constructor; eexists; done.
  - exists e, h1, l1. split; [done|]. split; [done|]. by intros d st.
Qed.

(** C8. On valid inputs every variant returns its first output,
    [bda_out], as a tensor of shape [[rows; n]], [rows] the product of the
    leading dimensions of [x]: the native and the compiled function, the
    Transformer Engine module (given a kernel that returns) and the
    nvFuser module. *)
Theorem C8_bda_out_is_rows_by_n
    (native_dropout : Q -> Tensor F -> Tensor F)
    (layernorm_fwd_fp8 :
       TensorRef -> TensorRef -> TensorRef -> F -> FP8TensorMeta -> nat -> dtype ->
       nat -> bool -> TensorRef -> M F (TensorRef * TensorRef * TensorRef))
    (h : Heap F) x bias residual w_shape ln_weight ln_bias eps dt zcg
    scale_tensor amax_tensor m do_bprop lead n X B R W C s a0 :
  valid_inputs h x bias residual w_shape ln_weight ln_bias lead n X B R W C ->
  valid_meta h scale_tensor amax_tensor s a0 ->
  valid_meta_object h m s a0 ->
  te_kernel_returns layernorm_fwd_fp8 h ln_weight ln_bias eps m zcg (numel lead) n ->
  (exists bda_out ln_out amax h' D,
     bias_add_ln_native x bias residual w_shape ln_weight ln_bias eps dt zcg
       scale_tensor amax_tensor h = (Ok (bda_out, ln_out, amax), h')
     /\ read h' bda_out = Some (mkTensor [numel lead; n] D))
  /\ (exists bda_out ln_out amax h' D,
        bias_add_ln_compile x bias residual w_shape ln_weight ln_bias eps dt zcg
          scale_tensor amax_tensor h = (Ok (bda_out, ln_out, amax), h')
        /\ read h' bda_out = Some (mkTensor [numel lead; n] D))
  /\ (exists bda_out ln_out amax h' D,
        bias_add_ln_te native_dropout layernorm_fwd_fp8 x bias residual w_shape
          ln_weight ln_bias eps dt zcg (VMeta m) do_bprop h
        = (Ok (bda_out, ln_out, amax), h')
        /\ read h' bda_out = Some (mkTensor [numel lead; n] D))
  /\ (exists bda_out ln_out amax h' D,
        bias_add_ln_nvfuser x bias residual w_shape ln_weight ln_bias eps dt zcg
          scale_tensor amax_tensor do_bprop h = (Ok (bda_out, ln_out, amax), h')
        /\ read h' bda_out = Some (mkTensor [numel lead; n] D)).
Proof.
  intros Hvi Hvm Hvmo Hk.
  destruct (bias_add_ln_native_run h x bias residual w_shape ln_weight ln_bias
              eps dt zcg scale_tensor amax_tensor lead n X B R W C s a0 Hvi Hvm)
    as (b1 & l1 & h1 & m1 & E1 & Hb1 & _).
  destruct (bias_add_ln_te_run native_dropout layernorm_fwd_fp8 h x bias residual
              w_shape ln_weight ln_bias eps dt zcg m do_bprop lead n X B R W C
              s a0 Hvi Hvmo Hk)
    as (b2 & l2 & a2 & h2 & E2 & _ & Hb2 & _).
  destruct (bias_add_ln_nvfuser_run h x bias residual w_shape ln_weight ln_bias
              eps dt zcg scale_tensor amax_tensor do_bprop lead n X B R W C s a0
              Hvi Hvm)
    as (D31 & m3 & E3 & HD31 & Hb3 & _).
  split; [eexists _, _, _, _, _; split; [exact E1 | exact Hb1]|].
  split; [eexists _, _, _, _, _; split; [exact E1 | exact Hb1]|].
  split; [eexists _, _, _, _, _; split; [exact E2 | exact Hb2]|].
  eexists _, _, _, _, _. split; [exact E3 | exact Hb3].
Qed.

(** C9. With dropout probability 0 the bias-dropout-add of the
    Transformer Engine variant drops nothing: for either value of the
    training flag it returns what [(x + bias) + residual] evaluates to, so
    the [bda_out] the Transformer Engine variant returns is the [bda_out]
    of the native variant.  The code adds [residual] on the left, the
    native one on the right: the arithmetic fact used is that addition
    commutes. *)
Theorem C9_dropout_zero_is_noop
    (native_dropout : Q -> Tensor F -> Tensor F)
    (layernorm_fwd_fp8 :
       TensorRef -> TensorRef -> TensorRef -> F -> FP8TensorMeta -> nat -> dtype ->
       nat -> bool -> TensorRef -> M F (TensorRef * TensorRef * TensorRef))
    (h : Heap F) x bias residual w_shape ln_weight ln_bias eps dt zcg
    scale_tensor amax_tensor m do_bprop lead n X B R W C s a0 :
  (forall a b : F, fadd a b = fadd b a) ->
  valid_inputs h x bias residual w_shape ln_weight ln_bias lead n X B R W C ->
  valid_meta h scale_tensor amax_tensor s a0 ->
  valid_meta_object h m s a0 ->
  te_kernel_returns layernorm_fwd_fp8 h ln_weight ln_bias eps m zcg (numel lead) n ->
  (forall training, exists out h1 sum h0 V,
     bias_dropout_add_fused native_dropout x bias residual 0 training h = (Ok out, h1)
     /\ (t <- torch_add x bias ;; torch_add t residual) h = (Ok sum, h0)
     /\ read h1 out = Some V /\ read h0 sum = Some V)
  /\ (exists bda_te ln_te amax_te h_te bda ln amax h' V,
        bias_add_ln_te native_dropout layernorm_fwd_fp8 x bias residual w_shape
          ln_weight ln_bias eps dt zcg (VMeta m) do_bprop h
        = (Ok (bda_te, ln_te, amax_te), h_te)
        /\ bias_add_ln_native x bias residual w_shape ln_weight ln_bias eps dt zcg
             scale_tensor amax_tensor h = (Ok (bda, ln, amax), h')
        /\ read h_te bda_te = Some V /\ read h' bda = Some V).
Proof.
  intros Hcomm Hvi Hvm Hvmo Hk.
  destruct (valid_inputs_dims _ _ _ _ _ _ _ _ _ _ _ _ _ _ Hvi)
    as (Hn & HX & HR & HB & HW & HC).
  pose proof (residual_add_comm n X B R lead Hcomm Hn HX HR HB) as Hsame.
  assert (Hlen : length (mjoin (spec_pre (rows_of n X) B (rows_of n R)))
                 = numel (lead ++ [n])).
  { rewrite (join_length_rows n) by (by apply (spec_pre_Forall n (numel lead))).
    by rewrite (spec_pre_length n (numel lead)), numel_snoc. }
  split.
  - intros training.
    eexists _, _, _, _, _.
    split; [by apply (bias_dropout_add_fused_run native_dropout h x bias residual
                        w_shape ln_weight ln_bias lead n X B R W C training)|].
    split; [by apply (bias_add_run h x bias residual w_shape ln_weight ln_bias
                        lead n X B R W C)|].
    rewrite Hsame. split; by apply read_alloc_new.
  - destruct (bias_add_ln_native_run h x bias residual w_shape ln_weight ln_bias
                eps dt zcg scale_tensor amax_tensor lead n X B R W C s a0 Hvi Hvm)
      as (b1 & l1 & h1 & m1 & E1 & Hb1 & _).
    destruct (bias_add_ln_te_run native_dropout layernorm_fwd_fp8 h x bias residual
                w_shape ln_weight ln_bias eps dt zcg m do_bprop lead n X B R W C
                s a0 Hvi Hvmo Hk)
      as (b2 & l2 & a2 & h2 & E2 & _ & Hb2 & _).
    rewrite Hsame in Hb2.
    eexists _, _, _, _, _, _, _, _, _. repeat split; eassumption.
Qed.

(** C10. The nvFuser forward never writes to the [amax_tensor] it is
    given.  However the call ends, the heap it leaves is the heap it found
    followed by new buffers, so [amax_tensor] reads as before; in the
    fusion the argument is bound to input number 6, which no operation and
    no output refers to; and on valid inputs the amax the call returns is
    a tensor in a buffer allocated by the call, not [amax_tensor]. *)
Theorem C10_nvfuser_leaves_amax_tensor (h : Heap F) x bias residual w_shape
    ln_weight ln_bias eps dt zcg scale_tensor amax_tensor do_bprop :
  (exists k,
     (bias_add_ln_nvfuser x bias residual w_shape ln_weight ln_bias eps dt zcg
        scale_tensor amax_tensor do_bprop h).2 = h ++ k)
  /\ (forall v,
        read h amax_tensor = Some v ->
        read (bias_add_ln_nvfuser x bias residual w_shape ln_weight ln_bias eps dt
                zcg scale_tensor amax_tensor do_bprop h).2 amax_tensor = Some v)
  /\ (forall x_2d residual_2d,
        fd_inputs (fusion_definition x_2d bias residual_2d ln_weight ln_bias
                     scale_tensor amax_tensor eps zcg) !! 6 = Some 6
        /\ 6 ∉ fd_uses (fusion_definition x_2d bias residual_2d ln_weight ln_bias
                          scale_tensor amax_tensor eps zcg))
  /\ (forall lead n X B R W C s a0,
        valid_inputs h x bias residual w_shape ln_weight ln_bias lead n X B R W C ->
        valid_meta h scale_tensor amax_tensor s a0 ->
        exists bda_out ln_out amax h' m,
          bias_add_ln_nvfuser x bias residual w_shape ln_weight ln_bias eps dt zcg
            scale_tensor amax_tensor do_bprop h = (Ok (bda_out, ln_out, amax), h')
          /\ length h <= t_buf amax
          /\ t_buf amax <> t_buf amax_tensor
          /\ read h' amax = Some (mkTensor [] [m])
          /\ read h' amax_tensor = Some (mkTensor [] [a0])).
Proof.
  pose proof (appends_nvfuser x bias residual w_shape ln_weight ln_bias eps dt zcg
                scale_tensor amax_tensor do_bprop h) as [k Hk].
  split; [by exists k|]. split.
  { intros v Hv. rewrite Hk. by apply read_app_old. }
  split.
  { intros x_2d residual_2d. apply fusion_amax_input_unused. }
  intros lead n X B R W C s a0 Hvi Hvm.
  destruct (bias_add_ln_nvfuser_run h x bias residual w_shape ln_weight ln_bias
              eps dt zcg scale_tensor amax_tensor do_bprop lead n X B R W C s a0
              Hvi Hvm)
    as (D31 & m & E & HD31 & _ & Hm).
  destruct Hvm as [_ Ha _]. pose proof (read_buf_lt _ _ _ Ha) as Hlt.
  eexists _, _, _, _, m. split; [exact E|]. simpl.
  split; [lia|]. split; [lia|]. split; [exact Hm|]. by apply read_app_old.
Qed.
End Claims.

(** ** The normalization invariant, over the reals *)

(** C4, as the code has it.  With [zero_centered_gamma] off, a zero
    [ln_weight] and a zero [ln_bias], the unscaled layer-norm output [U]
    (the tensor [ln_out] is [U] times the scale) is zero everywhere: every
    row has mean zero and variance zero, not one. *)
Theorem C4_zero_weight_gives_zero_rows (h : Heap R) x bias residual w_shape
    ln_weight ln_bias eps dt scale_tensor amax_tensor lead n X B Rs s a0 :
  valid_inputs h x bias residual w_shape ln_weight ln_bias lead n X B Rs
    (replicate n 0%R) (replicate n 0%R) ->
  valid_meta h scale_tensor amax_tensor s a0 ->
  exists bda_out ln_out amax h' U,
    bias_add_ln_native x bias residual w_shape ln_weight ln_bias eps dt false
      scale_tensor amax_tensor h = (Ok (bda_out, ln_out, amax), h')
    /\ U = spec_ln_unscaled eps false (replicate n 0%R) (replicate n 0%R)
             (spec_pre (rows_of n X) B (rows_of n Rs))
    /\ read h' ln_out = Some (mkTensor [numel lead; n] (mjoin (spec_ln_out s U)))
    /\ length U = numel lead
    /\ Forall (fun row => row = replicate n 0%R
                          /\ row_mean row = 0%R /\ row_variance row = 0%R) U.
Proof.
  intros Hvi Hvm.
  destruct (valid_inputs_dims _ _ _ _ _ _ _ _ _ _ _ _ _ _ Hvi)
    as (Hn & HX & HR & HB & HW & HC).
  destruct (bias_add_ln_native_run h x bias residual w_shape ln_weight ln_bias
              eps dt false scale_tensor amax_tensor lead n X B Rs _ _ s a0 Hvi Hvm)
    as (bda_out & ln_out & h' & m & E & _ & Hl & _).
  eexists bda_out, ln_out, amax_tensor, h', _.
  split; [exact E|]. split; [reflexivity|]. split; [exact Hl|].
  rewrite zero_weight_rows by (by apply (spec_pre_Forall n (numel lead))).
  rewrite length_replicate, (spec_pre_length n (numel lead)) by done.
  split; [done|]. apply Forall_replicate.
  split; [done|]. split; [apply row_mean_zeros | apply row_variance_zeros].
Qed.

(** C4 as stated fails on the example: [x] with rows [1 3] and [2 6],
    zero weight, zero bias, scale one.  The unscaled output [U] has rows of
    variance 0, which is not within one half of 1. *)
Lemma C4_counterexample :
  exists bda_out ln_out amax h' U,
    bias_add_ln_native Example.x Example.bias Example.residual Example.w_shape
      Example.zero_weight Example.ln_bias Example.eps bfloat16 false
      Example.scale_tensor Example.amax_tensor Example.heap1
    = (Ok (bda_out, ln_out, amax), h')
    /\ U = spec_ln_unscaled Example.eps false [0; 0]%R [0; 0]%R
             (spec_pre (rows_of 2 [1; 3; 2; 6]%R) [0; 0]%R (rows_of 2 [0; 0; 0; 0]%R))
    /\ read h' ln_out = Some (mkTensor [2; 2] (mjoin (spec_ln_out 1%R U)))
    /\ ~ normalized_rows (/ 2)%R U.
Proof.
  destruct (bias_add_ln_native_run Example.heap1 _ _ _ _ _ _ Example.eps bfloat16
              false _ _ _ _ _ _ _ _ _ _ _ example_inputs_zero_weight
              example_meta_scale_one)
    as (bda_out & ln_out & h' & m & E & _ & Hl & _).
  eexists bda_out, ln_out, Example.amax_tensor, h', _.
  split; [exact E|]. split; [reflexivity|]. split; [exact Hl|].
  change [0; 0]%R with (replicate 2 0%R).
  rewrite zero_weight_rows
    by (apply (spec_pre_Forall 2 2); [lia|reflexivity|reflexivity|reflexivity]).
  rewrite (spec_pre_length 2 2) by (try reflexivity; lia).
  intros Hnorm. apply Forall_inv in Hnorm as [_ Hvar].
  rewrite row_variance_zeros in Hvar.
  rewrite (Rabs_left (0 - 1)%R) in Hvar by lra. lra.
Qed.

(** ** The theorems at the concrete calls *)

Lemma C1_witness :
  exists bda_out ln_out amax h' m,
    bias_add_ln_native Example.x Example.bias Example.residual Example.w_shape
      Example.ln_weight Example.ln_bias Example.eps bfloat16 false
      Example.scale_tensor Example.amax_tensor Example.heap0
    = (Ok (bda_out, ln_out, amax), h')
    /\ read h' bda_out
       = Some (mkTensor [numel [2]; 2]
                 (mjoin (spec_pre (rows_of 2 [1; 3; 2; 6]%R) [0; 0]%R
                           (rows_of 2 [0; 0; 0; 0]%R))))
    /\ read h' ln_out
       = Some (mkTensor [numel [2]; 2]
                 (mjoin (spec_ln_out (/ 2)%R
                    (spec_ln_unscaled Example.eps false [1; 1]%R [0; 0]%R
                       (spec_pre (rows_of 2 [1; 3; 2; 6]%R) [0; 0]%R
                          (rows_of 2 [0; 0; 0; 0]%R))))))
    /\ spec_amax (spec_ln_unscaled Example.eps false [1; 1]%R [0; 0]%R
                    (spec_pre (rows_of 2 [1; 3; 2; 6]%R) [0; 0]%R
                       (rows_of 2 [0; 0; 0; 0]%R))) = Some m
    /\ read h' amax = Some (mkTensor [] [m]).
Proof.
  exact (C1_native_computes_reference Example.heap0 _ _ _ _ _ _ _ bfloat16 false
           _ _ _ _ _ _ _ _ _ _ _ example_inputs example_meta).
Defined.

Lemma C2_witness :
  exists bda1 ln1 amax1 h1' bda2 ln2 amax2 h2' L A,
    bias_add_ln_native Example.x Example.bias Example.residual Example.w_shape
      Example.ln_weight Example.ln_bias Example.eps bfloat16 false
      Example.scale_tensor Example.amax_tensor Example.heap0
    = (Ok (bda1, ln1, amax1), h1')
    /\ bias_add_ln_native Example.x Example.bias Example.residual Example.w_shape
         Example.ln_weight Example.ln_bias Example.eps bfloat16 false
         Example.scale_tensor Example.amax_tensor Example.heap1
       = (Ok (bda2, ln2, amax2), h2')
    /\ read h2' ln2 = Some (mkTensor [numel [2]; 2] L)
    /\ read h1' ln1
       = Some (mkTensor [numel [2]; 2] ((fun v => fmul v (/ 2)%R) <$> L))
    /\ read h1' amax1 = Some A
    /\ read h2' amax2 = Some A.
Proof.
  exact (C2_scale_rescales_ln_out_only Example.heap0 Example.heap1 _ _ _ _ _ _
           Example.eps bfloat16 false _ _ _ _ _ _ _ _ _ _ _ _
           Rmult_1_r example_inputs example_meta
           example_inputs_scale_one example_meta_scale_one).
Defined.

Lemma C3_witness :
  exists bda1 ln1 amax1 h1' bda2 ln2 amax2 h2' Vb Vl Va,
    bias_add_ln_native Example.x Example.bias Example.residual Example.w_shape
      Example.ln_weight Example.ln_bias Example.eps bfloat16 true
      Example.scale_tensor Example.amax_tensor Example.heap0
    = (Ok (bda1, ln1, amax1), h1')
    /\ bias_add_ln_native Example.x Example.bias Example.residual Example.w_shape
         Example.one_plus_weight Example.ln_bias Example.eps bfloat16 false
         Example.scale_tensor Example.amax_tensor Example.heap0
       = (Ok (bda2, ln2, amax2), h2')
    /\ read h1' bda1 = Some Vb /\ read h2' bda2 = Some Vb
    /\ read h1' ln1 = Some Vl /\ read h2' ln2 = Some Vl
    /\ read h1' amax1 = Some Va /\ read h2' amax2 = Some Va.
Proof.
  exact (C3_zero_centered_gamma Example.heap0 Example.heap0 _ _ _ _ _ _ _
           Example.eps bfloat16 _ _ _ _ _ _ _ _ _ _ _ _
           example_inputs example_meta example_inputs_one_plus example_meta).
Defined.

Lemma C4_witness :
  exists bda_out ln_out amax h' U,
    bias_add_ln_native Example.x Example.bias Example.residual Example.w_shape
      Example.zero_weight Example.ln_bias Example.eps bfloat16 false
      Example.scale_tensor Example.amax_tensor Example.heap1
    = (Ok (bda_out, ln_out, amax), h')
    /\ U = spec_ln_unscaled Example.eps false (replicate 2 0%R) (replicate 2 0%R)
             (spec_pre (rows_of 2 [1; 3; 2; 6]%R) [0; 0]%R (rows_of 2 [0; 0; 0; 0]%R))
    /\ read h' ln_out = Some (mkTensor [numel [2]; 2] (mjoin (spec_ln_out 1%R U)))
    /\ length U = numel [2]
    /\ Forall (fun row => row = replicate 2 0%R
                          /\ row_mean row = 0%R /\ row_variance row = 0%R) U.
Proof.
  exact (C4_zero_weight_gives_zero_rows Example.heap1 _ _ _ _ _ _ Example.eps
           bfloat16 _ _ _ _ _ _ _ _ _
           example_inputs_zero_weight example_meta_scale_one).
Defined.


Lemma C7_witness :
  bias_add_ln stub_dropout stub_layernorm_fwd_fp8 Example.args Example.bad_kwargs
    Example.heap0
  = (Raise (ValueError ("Implementation '" ++ "triton" ++ "' is not recognized.")),
     Example.heap0).
Proof.
  apply (C7_unrecognized_impl_raises stub_dropout stub_layernorm_fwd_fp8
           Example.args Example.bad_kwargs "triton" (VMeta Example.meta)
           (VBool false) Example.heap0);
    [reflexivity | reflexivity | reflexivity |].
  apply (bool_decide_unpack _). by vm_compute.
Defined.

Lemma C8_witness :
  (exists bda_out ln_out amax h' D,
     bias_add_ln_native Example.x Example.bias Example.residual Example.w_shape
       Example.ln_weight Example.ln_bias Example.eps bfloat16 false
       Example.scale_tensor Example.amax_tensor Example.heap0
     = (Ok (bda_out, ln_out, amax), h')
     /\ read h' bda_out = Some (mkTensor [numel [2]; 2] D))
  /\ (exists bda_out ln_out amax h' D,
        bias_add_ln_compile Example.x Example.bias Example.residual Example.w_shape
          Example.ln_weight Example.ln_bias Example.eps bfloat16 false
          Example.scale_tensor Example.amax_tensor Example.heap0
        = (Ok (bda_out, ln_out, amax), h')
        /\ read h' bda_out = Some (mkTensor [numel [2]; 2] D))
  /\ (exists bda_out ln_out amax h' D,
        bias_add_ln_te stub_dropout stub_layernorm_fwd_fp8
          Example.x Example.bias Example.residual Example.w_shape
          Example.ln_weight Example.ln_bias Example.eps bfloat16 false
          (VMeta Example.meta) (VBool false) Example.heap0
        = (Ok (bda_out, ln_out, amax), h')
        /\ read h' bda_out = Some (mkTensor [numel [2]; 2] D))
  /\ (exists bda_out ln_out amax h' D,
        bias_add_ln_nvfuser Example.x Example.bias Example.residual Example.w_shape
          Example.ln_weight Example.ln_bias Example.eps bfloat16 false
          Example.scale_tensor Example.amax_tensor (VBool false) Example.heap0
        = (Ok (bda_out, ln_out, amax), h')
        /\ read h' bda_out = Some (mkTensor [numel [2]; 2] D)).
Proof.
  exact (C8_bda_out_is_rows_by_n stub_dropout stub_layernorm_fwd_fp8
           Example.heap0 _ _ _ _ _ _ Example.eps bfloat16 false _ _ Example.meta
           (VBool false) _ _ _ _ _ _ _ _ _
           example_inputs example_meta example_meta_object
           (stub_kernel_returns _ _ _ _ _ _ _ _)).
Defined.

Lemma C9_witness :
  (forall training, exists out h1 sum h0 V,
     bias_dropout_add_fused stub_dropout Example.x Example.bias Example.residual
       0 training Example.heap0 = (Ok out, h1)
     /\ (t <- torch_add Example.x Example.bias ;; torch_add t Example.residual)
          Example.heap0 = (Ok sum, h0)
     /\ read h1 out = Some V /\ read h0 sum = Some V)
  /\ (exists bda_te ln_te amax_te h_te bda ln amax h' V,
        bias_add_ln_te stub_dropout stub_layernorm_fwd_fp8
          Example.x Example.bias Example.residual Example.w_shape
          Example.ln_weight Example.ln_bias Example.eps bfloat16 false
          (VMeta Example.meta) (VBool false) Example.heap0
        = (Ok (bda_te, ln_te, amax_te), h_te)
        /\ bias_add_ln_native Example.x Example.bias Example.residual
             Example.w_shape Example.ln_weight Example.ln_bias Example.eps
             bfloat16 false Example.scale_tensor Example.amax_tensor Example.heap0
           = (Ok (bda, ln, amax), h')
        /\ read h_te bda_te = Some V /\ read h' bda = Some V).
Proof.
  exact (C9_dropout_zero_is_noop stub_dropout stub_layernorm_fwd_fp8
           Example.heap0 _ _ _ _ _ _ Example.eps bfloat16 false _ _ Example.meta
           (VBool false) _ _ _ _ _ _ _ _ _
           Rplus_comm example_inputs example_meta example_meta_object
           (stub_kernel_returns _ _ _ _ _ _ _ _)).
Defined.

Lemma C10_witness :
  exists bda_out ln_out amax h' m,
    bias_add_ln_nvfuser Example.x Example.bias Example.residual Example.w_shape
      Example.ln_weight Example.ln_bias Example.eps bfloat16 false
      Example.scale_tensor Example.amax_tensor (VBool false) Example.heap0
    = (Ok (bda_out, ln_out, amax), h')
    /\ length Example.heap0 <= t_buf amax
    /\ t_buf amax <> t_buf Example.amax_tensor
    /\ read h' amax = Some (mkTensor [] [m])
    /\ read h' Example.amax_tensor = Some (mkTensor [] [0%R]).
Proof.
  exact (proj2 (proj2 (proj2
           (C10_nvfuser_leaves_amax_tensor Example.heap0 Example.x Example.bias
              Example.residual Example.w_shape Example.ln_weight Example.ln_bias
              Example.eps bfloat16 false Example.scale_tensor Example.amax_tensor
              (VBool false))))
           _ _ _ _ _ _ _ _ _ example_inputs example_meta).
Defined.

(* ===================================================================== *)
(** * Part IV: further properties of the code                             *)
(* ===================================================================== *)

(** ** The nvFuser variant computes the reference values *)

Section FurtherFusion.
Context {F : Type} {SF : Scalar F}.

(** X1. On valid inputs the nvFuser variant returns the three values of the
    reference model, as the native implementation does: [bda_out] is
    [x + bias + residual] in the layout [[rows; n]], [ln_out] the scaled
    layer normalization of its rows, [amax] the largest magnitude of the
    unscaled one.  The graph multiplies by [rsqrt(var + eps)] where
    [layer_norm] divides by [sqrt(var + eps)], and adds one to the weight
    on the right where the native code adds it on the left; the two laws
    that identify these are the only arithmetic facts assumed. *)
Theorem X1_nvfuser_computes_reference (h : Heap F) x bias residual w_shape
    ln_weight ln_bias eps dt zcg scale_tensor amax_tensor do_bprop
    lead n X B R W C s a0 :
  (forall a b : F, fdiv a (fsqrt b) = fmul a (frsqrt b)) ->
  (forall a : F, fadd a fone = fadd fone a) ->
  valid_inputs h x bias residual w_shape ln_weight ln_bias lead n X B R W C ->
  valid_meta h scale_tensor amax_tensor s a0 ->
  exists bda_out ln_out amax h' m,
    bias_add_ln_nvfuser x bias residual w_shape ln_weight ln_bias eps dt zcg
      scale_tensor amax_tensor do_bprop h
    = (Ok (bda_out, ln_out, amax), h')
    /\ read h' bda_out
       = Some (mkTensor [numel lead; n]
                 (mjoin (spec_pre (rows_of n X) B (rows_of n R))))
    /\ read h' ln_out
       = Some (mkTensor [numel lead; n]
                 (mjoin (spec_ln_out s
                    (spec_ln_unscaled eps zcg W C
                       (spec_pre (rows_of n X) B (rows_of n R))))))
    /\ spec_amax (spec_ln_unscaled eps zcg W C
                    (spec_pre (rows_of n X) B (rows_of n R))) = Some m
    /\ read h' amax = Some (mkTensor [] [m]).
Proof.
  intros Hdiv Hone Hvi Hvm.
  destruct (bias_add_ln_nvfuser_values h x bias residual w_shape ln_weight ln_bias
              eps dt zcg scale_tensor amax_tensor do_bprop lead n X B R W C s a0
              Hdiv Hone Hvi Hvm) as (m & E & Em).
  destruct (nvfuser_outputs_read h _ _ _ _ _ _ lead n X B R W C eps zcg s m Hvi)
    as (H1 & H2 & H3).
  eexists _, _, _, _, m. split; [exact E|]. auto.
Qed.
End FurtherFusion.

(** ** What the native implementation writes *)

Section FurtherFrame.
Context {F : Type} {SF : Scalar F}.

Lemma appends_writes_only {A : Type} b (m : M F A) : appends m -> writes_only b m.
Proof. intros H h. destruct (H h) as [k Hk]. by exists h, k. Qed.

Lemma writes_only_bind {A B : Type} b (m : M F A) (k : A -> M F B) :
  writes_only b m -> (forall a, writes_only b (k a)) -> writes_only b (bind m k).
Proof.
  intros Hm Hk h. unfold bind.
  destruct (Hm h) as (h0 & k0 & E0 & L0 & I0).
  destruct (m h) as [[a|e] h1] eqn:Em; simpl in E0; subst h1; [|by exists h0, k0].
  destruct (Hk a (h0 ++ k0)) as (h1 & k1 & E1 & L1 & I1).
  exists (take (length h) h1), (drop (length h) h1 ++ k1).
  rewrite app_assoc, take_drop. split; [done|].
  rewrite length_app in L1. split; [rewrite length_take; lia|].
  intros i Hi. destruct (decide (i < length h)) as [Hlt|Hge].
  - rewrite lookup_take_lt by done. rewrite (I1 i Hi), lookup_app_l by lia. by apply I0.
  - rewrite lookup_take_ge by lia. symmetry. apply lookup_ge_None. lia.
Qed.

Lemma writes_only_store_fill t (v : F) : writes_only (t_buf t) (store_fill t v).
Proof.
  intros h. unfold store_fill.
  destruct (h !! t_buf t) as [b|]; [|by exists h, []; rewrite app_nil_r].
  destruct (t_off t + numel (t_shape t) <=? length b);
    [|by exists h, []; rewrite app_nil_r].
  simpl. eexists _, []. rewrite app_nil_r. split; [reflexivity|].
  split; [by rewrite length_insert|].
  intros i Hi. by apply list_lookup_insert_ne.
Qed.

Lemma writes_only_fill_ t value : writes_only (F:=F) (t_buf t) (fill_ t value).
Proof.
  unfold fill_. apply writes_only_bind; [apply appends_writes_only, appends_load|].
  intros vv. destruct (shape vv) as [|? ?]; [|apply appends_writes_only, appends_raise].
  destruct (data vv) as [|v [|? ?]];
    first [apply writes_only_store_fill | apply appends_writes_only, appends_raise].
Qed.

Lemma appends_torch_binop f a b : appends (F:=F) (torch_binop f a b).
Proof.
  unfold torch_binop.
  repeat first [ apply appends_load | apply appends_lift | apply appends_alloc
               | apply appends_bind; [|intros ?] ].
Qed.

Lemma appends_tensor_map_alloc (f : F -> F) a :
  appends (F:=F) (va <- load a ;; alloc (tensor_map f va)).
Proof. apply appends_bind; [apply appends_load | intros ?; apply appends_alloc]. Qed.

Lemma appends_torch_amax a : appends (F:=F) (torch_amax a).
Proof.
  unfold torch_amax.
  repeat first [ apply appends_load | apply appends_lift | apply appends_alloc
               | apply appends_bind; [|intros ?] ].
Qed.

Lemma appends_layer_norm x ns w b (eps : F) : appends (layer_norm x ns w b eps).
Proof.
  unfold layer_norm.
  repeat first [ apply appends_load | apply appends_lift | apply appends_alloc
               | apply appends_bind; [|intros ?] ].
Qed.

Lemma writes_only_native x bias residual w_shape ln_weight ln_bias (eps : F) dt zcg
    scale_tensor amax_tensor :
  writes_only (t_buf amax_tensor)
    (bias_add_ln_native x bias residual w_shape ln_weight ln_bias eps dt zcg
       scale_tensor amax_tensor).
Proof.
  unfold bias_add_ln_native, torch_add, torch_mul, scalar_add, torch_abs.
  repeat first
    [ apply writes_only_fill_
    | apply appends_writes_only;
      first [ apply appends_torch_binop | apply appends_tuple_last
            | apply appends_view_neg1 | apply appends_tensor_map_alloc
            | apply appends_layer_norm | apply appends_torch_amax
            | apply appends_ret
            | destruct zcg; simpl;
              first [apply appends_ret | apply appends_tensor_map_alloc] ]
    | apply writes_only_bind; [|intros ?] ].
Qed.

(** X2. Whatever its arguments are and however the call ends, by returning
    or by raising, the native implementation changes no storage but that of
    [amax_tensor]: every tensor held in another buffer reads after the call
    as it read before, and no buffer is released. *)
Theorem X2_native_writes_only_amax x bias residual w_shape ln_weight ln_bias
    (eps : F) dt zcg scale_tensor amax_tensor (h : Heap F) t v :
  t_buf t <> t_buf amax_tensor ->
  read h t = Some v ->
  read (bias_add_ln_native x bias residual w_shape ln_weight ln_bias eps dt zcg
          scale_tensor amax_tensor h).2 t = Some v
  /\ length h <= length (bias_add_ln_native x bias residual w_shape ln_weight
                           ln_bias eps dt zcg scale_tensor amax_tensor h).2.
Proof.
  intros Hne Hr.
  destruct (writes_only_native x bias residual w_shape ln_weight ln_bias eps dt zcg
              scale_tensor amax_tensor h) as (h0 & k & -> & Hlen & Hsame).
  split; [|rewrite length_app; lia].
  apply read_app_old. unfold read in *. by rewrite (Hsame _ Hne).
Qed.
End FurtherFrame.

(** X2 at a concrete call that raises: the four elements of [x] cannot be
    viewed as rows of three. *)
Lemma X2_witness :
  (bias_add_ln_native Example.x Example.bias Example.residual [3]
     Example.ln_weight Example.ln_bias Example.eps bfloat16 false
     Example.scale_tensor Example.amax_tensor Example.heap0).1
  = Raise (RuntimeError "shape '[-1, n]' is invalid for input size")
  /\ read (bias_add_ln_native Example.x Example.bias Example.residual [3]
             Example.ln_weight Example.ln_bias Example.eps bfloat16 false
             Example.scale_tensor Example.amax_tensor Example.heap0).2 Example.x
     = Some (mkTensor [2; 2] [1; 3; 2; 6]%R)
  /\ length Example.heap0
     <= length (bias_add_ln_native Example.x Example.bias Example.residual [3]
                  Example.ln_weight Example.ln_bias Example.eps bfloat16 false
                  Example.scale_tensor Example.amax_tensor Example.heap0).2.
Proof.
  split; [reflexivity|].
  apply (X2_native_writes_only_amax Example.x Example.bias Example.residual [3]
           Example.ln_weight Example.ln_bias Example.eps bfloat16
           false Example.scale_tensor Example.amax_tensor Example.heap0 Example.x).
  - simpl. lia.
  - reflexivity.
Defined.

(** ** The dispatcher and the metadata object *)

Section FurtherDispatch.
Context {F : Type} {SF : Scalar F}.
Variable native_dropout : Q -> Tensor F -> Tensor F.
Variable layernorm_fwd_fp8 :
  TensorRef -> TensorRef -> TensorRef -> F -> FP8TensorMeta -> nat -> dtype ->
  nat -> bool -> TensorRef -> M F (TensorRef * TensorRef * TensorRef).

(** [meta.scale[0]] and [meta.amax_history[0][0]] are views of the first
    cell of the two metadata tensors. *)
Lemma meta_cells_run (h : Heap F) m s a0 :
  valid_meta_object h m s a0 ->
  let sc := mkRef (t_buf (scale m)) (t_off (scale m) + 0 * numel []) [] in
  let ac := mkRef (t_buf (amax_history m))
              (t_off (amax_history m) + 0 * numel [1] + 0 * numel []) [] in
  meta_scale_cell (VMeta m) h = (Ok sc, h)
  /\ meta_amax_cell (VMeta m) h = (Ok ac, h)
  /\ valid_meta h sc ac s a0.
Proof.
  intros [Hs Ha Hd] sc ac.
  pose proof (read_shape _ _ _ Hs) as Hss. pose proof (read_shape _ _ _ Ha) as Hsa.
  simpl in Hss, Hsa.
  split; [|split].
  - unfold meta_scale_cell, as_meta, FP8_TENSOR_INDEX.
    rewrite (bind_Ok _ _ h m h) by done. by rewrite (index_zero_run h _ []).
  - unfold meta_amax_cell, as_meta, FP8_TENSOR_INDEX.
    rewrite (bind_Ok _ _ h m h) by done.
    rewrite (bind_Ok _ _ _ _ _ (index_zero_run h _ [1] (eq_sym Hsa))).
    by rewrite (index_zero_run h _ []).
  - constructor; [| |done].
    + by apply read_index_zero.
    + apply (read_index_zero h (mkRef _ _ [1]) [] [a0]). by apply read_index_zero.
Qed.

(** The cell the dispatcher hands on as accumulator and the history tensor
    hold the same storage cell. *)
Lemma read_amax_history (h : Heap F) m v :
  t_shape (amax_history m) = [1; 1] ->
  read h (mkRef (t_buf (amax_history m))
            (t_off (amax_history m) + 0 * numel [1] + 0 * numel []) [])
  = Some (mkTensor [] [v]) ->
  read h (amax_history m) = Some (mkTensor [1; 1] [v]).
Proof.
  intros Hs Hr.
  pose proof (read_reshape h _ _ [1; 1] Hr eq_refl) as H. simpl in H.
  rewrite !Nat.add_0_r in H.
  destruct (amax_history m) as [b o sh]. simpl in *. by subst sh.
Qed.

(** X3. Through the dispatcher, the native and the compiled implementation
    write the amax into the metadata object itself: the accumulator they
    are given is the view [meta.amax_history[0][0]], so after the call
    [meta.amax_history] holds the maximum of this call, the tensor returned
    as third output shares its storage, and [meta.scale] is as before. *)
Theorem X3_dispatcher_native_updates_amax_history (h : Heap F) (args : Args F)
    (kwargs : gmap string PyVal) impl m d lead n X B R W C s a0 :
  kwargs !! "impl" = Some (VStr impl) ->
  impl = "native" \/ impl = "compile" ->
  kwargs !! "meta" = Some (VMeta m) ->
  kwargs !! "do_bprop" = Some d ->
  valid_inputs h (a_x args) (a_bias args) (a_residual args) (a_w_shape args)
    (a_ln_weight args) (a_ln_bias args) lead n X B R W C ->
  valid_meta_object h m s a0 ->
  exists bda_out ln_out amax h' mx,
    bias_add_ln native_dropout layernorm_fwd_fp8 args kwargs h
    = (Ok (bda_out, ln_out, amax), h')
    /\ spec_amax (spec_ln_unscaled (a_eps args) (a_zero_centered_gamma args) W C
                    (spec_pre (rows_of n X) B (rows_of n R))) = Some mx
    /\ read h' (amax_history m) = Some (mkTensor [1; 1] [mx])
    /\ read h' amax = Some (mkTensor [] [mx])
    /\ t_buf amax = t_buf (amax_history m)
    /\ read h' (scale m) = Some (mkTensor [1] [s]).
Proof.
  intros Hi Himpl Hm Hd Hvi Hvo.
  destruct (meta_cells_run h m s a0 Hvo) as (Esc & Eac & Hvm).
  destruct (bias_add_ln_native_run h _ _ _ _ _ _ (a_eps args) (a_output_dtype args)
              (a_zero_centered_gamma args) _ _ lead n X B R W C s a0 Hvi Hvm)
    as (bda_out & ln_out & h' & mx & E & _ & _ & Emx & Ha & Hframe).
  eexists bda_out, ln_out, _, h', mx. split.
  - unfold bias_add_ln.
    rewrite (bind_Ok _ _ _ _ _ (dict_get_run kwargs "impl" _ h Hi)).
    rewrite (bind_Ok _ _ _ _ _ (dict_get_run kwargs "meta" _ h Hm)).
    rewrite (bind_Ok _ _ _ _ _ (dict_get_run kwargs "do_bprop" _ h Hd)).
    destruct Himpl as [-> | ->]; cbn [py_eq_str String.eqb Ascii.eqb Bool.eqb];
      rewrite (bind_Ok _ _ _ _ _ Esc), (bind_Ok _ _ _ _ _ Eac); exact E.
  - split; [exact Emx|]. split; [|split; [exact Ha|split; [done|]]].
    + apply read_amax_history; [|exact Ha].
      destruct Hvo as [_ Hah _]. by apply read_shape in Hah.
    + destruct Hvo as [Hs _ Hdis]. by apply Hframe.
Qed.
(** X4. Called through the dispatcher on the same valid inputs and the same
    metadata, the native and the nvFuser implementation return tensors of
    equal values, for each of the three outputs: the differences the
    comparison of [main] prints for this pair are differences of a value
    with itself.  The two laws of X1 are assumed. *)
Theorem X4_dispatcher_native_nvfuser_agree (h : Heap F) (args : Args F)
    (kwargs : gmap string PyVal) m d lead n X B R W C s a0 :
  (forall a b : F, fdiv a (fsqrt b) = fmul a (frsqrt b)) ->
  (forall a : F, fadd a fone = fadd fone a) ->
  kwargs !! "meta" = Some (VMeta m) ->
  kwargs !! "do_bprop" = Some d ->
  valid_inputs h (a_x args) (a_bias args) (a_residual args) (a_w_shape args)
    (a_ln_weight args) (a_ln_bias args) lead n X B R W C ->
  valid_meta_object h m s a0 ->
  exists b1 l1 a1 h1 b2 l2 a2 h2 Vb Vl Va,
    bias_add_ln native_dropout layernorm_fwd_fp8 args
      (<["impl" := VStr "native"]> kwargs) h = (Ok (b1, l1, a1), h1)
    /\ bias_add_ln native_dropout layernorm_fwd_fp8 args
         (<["impl" := VStr "nvfuser"]> kwargs) h = (Ok (b2, l2, a2), h2)
    /\ read h1 b1 = Some Vb /\ read h2 b2 = Some Vb
    /\ read h1 l1 = Some Vl /\ read h2 l2 = Some Vl
    /\ read h1 a1 = Some Va /\ read h2 a2 = Some Va.
Proof.
  intros Hdiv Hone Hm Hd Hvi Hvo.
  destruct (meta_cells_run h m s a0 Hvo) as (Esc & Eac & Hvm).
  destruct (bias_add_ln_native_run h _ _ _ _ _ _ (a_eps args) (a_output_dtype args)
              (a_zero_centered_gamma args) _ _ lead n X B R W C s a0 Hvi Hvm)
    as (b1 & l1 & h1 & mx & E1 & Hb1 & Hl1 & Emx & Ha1 & _).
  destruct (bias_add_ln_nvfuser_values h _ _ _ _ _ _ (a_eps args)
              (a_output_dtype args) (a_zero_centered_gamma args) _ _ d
              lead n X B R W C s a0 Hdiv Hone Hvi Hvm) as (mx' & E2 & Emx').
  destruct (nvfuser_outputs_read h _ _ _ _ _ _ lead n X B R W C (a_eps args)
              (a_zero_centered_gamma args) s mx' Hvi) as (Hb2 & Hl2 & Ha2).
  assert (mx' = mx) as -> by congruence.
  assert (Hdisp : forall impl (h0 : Heap F),
             (<["impl" := VStr impl]> kwargs) !! "impl" = Some (VStr impl)
             /\ (<["impl" := VStr impl]> kwargs) !! "meta" = Some (VMeta m)
             /\ (<["impl" := VStr impl]> kwargs) !! "do_bprop" = Some d).
  { intros impl _. rewrite lookup_insert_eq, !lookup_insert_ne by done. done. }
  eexists b1, l1, _, h1, _, _, _, _, _, _, _. split; [|split].
  - destruct (Hdisp "native" h) as (Hi & Hm' & Hd'). unfold bias_add_ln.
    rewrite (bind_Ok _ _ _ _ _ (dict_get_run _ "impl" _ h Hi)).
    rewrite (bind_Ok _ _ _ _ _ (dict_get_run _ "meta" _ h Hm')).
    rewrite (bind_Ok _ _ _ _ _ (dict_get_run _ "do_bprop" _ h Hd')).
    cbn [py_eq_str String.eqb Ascii.eqb Bool.eqb].
    rewrite (bind_Ok _ _ _ _ _ Esc), (bind_Ok _ _ _ _ _ Eac). exact E1.
  - destruct (Hdisp "nvfuser" h) as (Hi & Hm' & Hd'). unfold bias_add_ln.
    rewrite (bind_Ok _ _ _ _ _ (dict_get_run _ "impl" _ h Hi)).
    rewrite (bind_Ok _ _ _ _ _ (dict_get_run _ "meta" _ h Hm')).
    rewrite (bind_Ok _ _ _ _ _ (dict_get_run _ "do_bprop" _ h Hd')).
    cbn [py_eq_str String.eqb Ascii.eqb Bool.eqb].
    rewrite (bind_Ok _ _ _ _ _ Esc), (bind_Ok _ _ _ _ _ Eac). exact E2.
  - repeat split; eassumption.
Qed.

(** X5. The dispatcher reads the three keywords [impl], [meta] and
    [do_bprop], in this order, before it looks at the selector: when one is
    missing it raises [KeyError] for the first missing one, also for a
    selector it would not recognize, and has computed nothing. *)
Theorem X5_missing_keyword_raises (h : Heap F) (args : Args F)
    (kwargs : gmap string PyVal) key :
  head (filter (fun k => kwargs !! k = None) ["impl"; "meta"; "do_bprop"])
  = Some key ->
  bias_add_ln native_dropout layernorm_fwd_fp8 args kwargs h
  = (Raise (KeyError key), h).
Proof.
  intros H. unfold bias_add_ln, dict_get. rewrite filter_cons in H.
  destruct (kwargs !! "impl") as [vi|].
  2:{ rewrite decide_True in H by done. by injection H as <-. }
  rewrite decide_False in H by done. rewrite filter_cons in H.
  rewrite (bind_Ok _ _ h vi h) by done.
  destruct (kwargs !! "meta") as [vm|].
  2:{ rewrite decide_True in H by done. by injection H as <-. }
  rewrite decide_False in H by done. rewrite filter_cons in H.
  rewrite (bind_Ok _ _ h vm h) by done.
  destruct (kwargs !! "do_bprop") as [vd|].
  2:{ rewrite decide_True in H by done. by injection H as <-. }
  rewrite decide_False in H by done. done.
Qed.
End FurtherDispatch.

(** ** The driver *)

Section FurtherDriver.
Context {F : Type} {SF : Scalar F}.
Variable native_dropout : Q -> Tensor F -> Tensor F.
Variable layernorm_fwd_fp8 :
  TensorRef -> TensorRef -> TensorRef -> F -> FP8TensorMeta -> nat -> dtype ->
  nat -> bool -> TensorRef -> M F (TensorRef * TensorRef * TensorRef).
Variables (eps_setting fp8_scale : F).
Variable backward : TensorRef -> M F unit.
Variable compare_bprop : IO (F:=F) unit.

Lemma valid_inputs_app (h k : Heap F) x bias residual w_shape ln_weight ln_bias
    lead n X B R W C :
  valid_inputs h x bias residual w_shape ln_weight ln_bias lead n X B R W C ->
  valid_inputs (h ++ k) x bias residual w_shape ln_weight ln_bias lead n X B R W C.
Proof. intros [? ? ? ? ? ? ?]. constructor; try done; by apply read_app_old. Qed.

Lemma clone_run (h : Heap F) t v :
  read h t = Some v ->
  clone t h = (Ok (mkRef (length h) 0 (shape v)), h ++ [data v])
  /\ read (h ++ [data v]) (mkRef (length h) 0 (shape v)) = Some v.
Proof.
  intros Hr. split.
  - unfold clone. by rewrite (bind_Ok _ _ _ _ _ (load_run _ _ _ Hr)).
  - rewrite read_alloc_new by (by apply read_length in Hr). by destruct v.
Qed.

Lemma ones_map_run (f : F -> F) (h : Heap F) :
  (o <- alloc (mkTensor [1] [fone]) ;; v <- load o ;; alloc (tensor_map f v)) h
  = (Ok (mkRef (length (h ++ [[fone]])) 0 [1]), (h ++ [[fone]]) ++ [[f fone]]).
Proof.
  rewrite (bind_Ok _ _ h (mkRef (length h) 0 [1]) (h ++ [[fone]])) by done.
  by rewrite (bind_Ok _ _ _ _ _
    (load_run _ _ _ (read_alloc_new h [1] [fone] eq_refl))).
Qed.

(** A loop of at least one iteration, each of which keeps an invariant of
    the heap and establishes [P] for its result: the loop ends normally,
    prints nothing, and hands on the result of its last iteration. *)
Lemma io_repeat_run {A : Type} (body : M F A) (Inv : Heap F -> Prop)
    (P : A -> Heap F -> Prop) :
  (forall h, Inv h ->
     exists a k, body h = (Ok a, h ++ k) /\ Inv (h ++ k) /\ P a (h ++ k)) ->
  forall n last (h : Heap F) (out : list (Line F)), Inv h ->
    exists a k,
      io_repeat (S n) (io_lift body) last (h, out) = (Ok (Some a), (h ++ k, out))
      /\ Inv (h ++ k) /\ P a (h ++ k).
Proof.
  intros Hbody n. induction n as [|n IH]; intros last h out Hinv;
    destruct (Hbody h Hinv) as (a & k & E & Hinv' & HP); cbn [io_repeat];
    rewrite (io_bind_Ok _ _ _ _ _ (io_lift_run _ _ h (h ++ k) out E)).
  - by exists a, k.
  - destruct (IH (Some a) (h ++ k) out Hinv') as (a' & k' & E' & Hinv'' & HP').
    exists a', (k ++ k'). rewrite app_assoc. done.
Qed.

(** One iteration of the benchmark loops for ["nvfuser"]: the inputs are
    cloned, a metadata object with scale [1 * fp8_scale] and a zero amax
    history is made, and the nvFuser variant is called on them with the
    settings of [main]. *)
Lemma iteration_nvfuser_run (P : TensorRef * TensorRef * TensorRef -> Heap F -> Prop)
    x_impl bias_impl residual_impl ln_weight_impl ln_bias_impl lead n X B R W C :
  (forall (h8 : Heap F) xc bc rc sc ac,
     valid_inputs h8 xc bc rc main_w_shape ln_weight_impl ln_bias_impl
       lead n X B R W C ->
     valid_meta h8 sc ac (fmul fone fp8_scale) fzero ->
     exists res k,
       bias_add_ln_nvfuser xc bc rc main_w_shape ln_weight_impl ln_bias_impl
         eps_setting bfloat16 zero_centered_gamma_setting sc ac
         (VBool do_bprop_setting) h8 = (Ok res, h8 ++ k)
       /\ P res (h8 ++ k)) ->
  forall h : Heap F,
    valid_inputs h x_impl bias_impl residual_impl main_w_shape ln_weight_impl
      ln_bias_impl lead n X B R W C ->
    exists res k,
      iteration native_dropout layernorm_fwd_fp8 eps_setting fp8_scale backward
        "nvfuser" x_impl bias_impl residual_impl ln_weight_impl ln_bias_impl h
      = (Ok res, h ++ k)
      /\ P res (h ++ k).
Proof.
  intros Hcall h Hvi. destruct Hvi as [Hx Hb Hr Hws Hw Hc Hne].
  destruct (clone_run h _ _ Hx) as [E1 R1]. simpl in E1, R1.
  set (h1 := h ++ [X]) in *.
  destruct (clone_run h1 _ _ (read_app_old h [X] _ _ Hb)) as [E2 R2]. simpl in E2, R2.
  set (h2 := h1 ++ [B]) in *.
  destruct (clone_run h2 _ _ (read_app_old h1 [B] _ _ (read_app_old h [X] _ _ Hr)))
    as [E3 R3]. simpl in E3, R3.
  set (h3 := h2 ++ [R]) in *.
  pose proof (ones_map_run (fun a => fmul a fp8_scale) h3) as E4.
  set (h4 := h3 ++ [[fone]]) in *. set (h5 := h4 ++ [[fmul fone fp8_scale]]) in *.
  pose proof (ones_map_run (fun a => fdiv a fp8_scale) h5) as E5.
  set (h6 := h5 ++ [[fone]]) in *. set (h7 := h6 ++ [[fdiv fone fp8_scale]]) in *.
  set (h8 := h7 ++ [[fzero]]).
  set (xc := mkRef (length h) 0 (lead ++ [n])) in *.
  set (bc := mkRef (length h1) 0 [n]) in *.
  set (rc := mkRef (length h2) 0 (lead ++ [n])) in *.
  set (meta := mkMeta (mkRef (length h4) 0 [1]) (mkRef (length h6) 0 [1])
                 (mkRef (length h7) 0 [1; 1])).
  assert (Hext : forall t v, read h t = Some v -> read h8 t = Some v).
  { intros t v Ht. unfold h8, h7, h6, h5, h4, h3, h2, h1. by do 8 apply read_app_old. }
  assert (Hvi8 : valid_inputs h8 xc bc rc main_w_shape ln_weight_impl ln_bias_impl
                   lead n X B R W C).
  { constructor; [| | |done| | |done].
    - unfold h8, h7, h6, h5, h4, h3, h2. by do 7 apply read_app_old.
    - unfold h8, h7, h6, h5, h4, h3. by do 6 apply read_app_old.
    - unfold h8, h7, h6, h5, h4. by do 5 apply read_app_old.
    - by apply Hext.
    - by apply Hext. }
  assert (Hvo : valid_meta_object h8 meta (fmul fone fp8_scale) fzero).
  { constructor; simpl.
    - unfold h8, h7, h6, h5. do 3 apply read_app_old. by apply read_alloc_new.
    - unfold h8. by apply read_alloc_new.
    - unfold h7, h6, h5. rewrite !length_app. simpl. lia. }
  destruct (meta_cells_run h8 meta _ _ Hvo) as (Esc & Eac & Hvm).
  destruct (Hcall h8 xc bc rc _ _ Hvi8 Hvm) as (res & k & Ecall & HP).
  exists res, ([X; B; R; [fone]; [fmul fone fp8_scale]; [fone];
                [fdiv fone fp8_scale]; [fzero]] ++ k).
  assert (Eh : h ++ [X; B; R; [fone]; [fmul fone fp8_scale]; [fone];
                     [fdiv fone fp8_scale]; [fzero]] ++ k = h8 ++ k).
  { unfold h8, h7, h6, h5, h4, h3, h2, h1. by rewrite <- !app_assoc. }
  rewrite Eh. split; [|exact HP].
  unfold iteration.
  rewrite (bind_Ok _ _ _ _ _ E1), (bind_Ok _ _ _ _ _ E2), (bind_Ok _ _ _ _ _ E3).
  unfold ones_times, ones_over, zeros_1_1.
  rewrite (bind_Ok _ _ _ _ _ E4), (bind_Ok _ _ _ _ _ E5).
  rewrite (bind_Ok _ _ h7 (mkRef (length h7) 0 [1; 1]) h8) by done.
  fold xc bc rc meta.
  match goal with
  | |- bind (bias_add_ln _ _ ?a ?kw) _ _ = _ =>
      assert (Edisp : bias_add_ln native_dropout layernorm_fwd_fp8 a kw h8
                      = (Ok res, h8 ++ k))
  end.
  { unfold bias_add_ln.
    rewrite (bind_Ok _ _ h8 (VStr "nvfuser") h8)
      by (unfold dict_get; by rewrite !lookup_insert_ne, lookup_insert_eq by done).
    rewrite (bind_Ok _ _ h8 (VMeta meta) h8)
      by (unfold dict_get; by rewrite lookup_insert_eq).
    rewrite (bind_Ok _ _ h8 (VBool do_bprop_setting) h8)
      by (unfold dict_get; by rewrite lookup_insert_ne, lookup_insert_eq by done).
    cbn [py_eq_str String.eqb Ascii.eqb Bool.eqb].
    rewrite (bind_Ok _ _ _ _ _ Esc), (bind_Ok _ _ _ _ _ Eac). exact Ecall. }
  rewrite (bind_Ok _ _ _ _ _ Edisp). reflexivity.
Qed.
(** The body of the run loop for ["nvfuser"]: the five clones, the two
    loops and the three lines printed. *)
Lemma run_impl_nvfuser_run (P : TensorRef * TensorRef * TensorRef -> Heap F -> Prop)
    ln_weight ln_bias x bias residual lead n X B R W C :
  (forall (h8 : Heap F) xc bc rc wc cc sc ac,
     valid_inputs h8 xc bc rc main_w_shape wc cc lead n X B R W C ->
     valid_meta h8 sc ac (fmul fone fp8_scale) fzero ->
     exists res k,
       bias_add_ln_nvfuser xc bc rc main_w_shape wc cc
         eps_setting bfloat16 zero_centered_gamma_setting sc ac
         (VBool do_bprop_setting) h8 = (Ok res, h8 ++ k)
       /\ P res (h8 ++ k)) ->
  forall (h : Heap F) out d,
    valid_inputs h x bias residual main_w_shape ln_weight ln_bias
      lead n X B R W C ->
    exists res k,
      run_impl native_dropout layernorm_fwd_fp8 eps_setting fp8_scale backward
        ln_weight ln_bias x bias residual d "nvfuser" (h, out)
      = (Ok (<["nvfuser" := res]> d),
         (h ++ k,
          out ++ [PrintText "Testing nvfuser...";
                  PrintText "Running 10 warmup iters for nvfuser...";
                  PrintText "Running 1000 main iters for nvfuser..."]))
      /\ P res (h ++ k).
Proof.
  intros Hcall h out d Hvi. destruct Hvi as [Hx Hb Hr Hws Hw Hc Hne].
  destruct (clone_run h _ _ Hw) as [E1 R1]. simpl in E1, R1.
  set (h1 := h ++ [W]) in *.
  destruct (clone_run h1 _ _ (read_app_old h [W] _ _ Hc)) as [E2 R2]. simpl in E2, R2.
  set (h2 := h1 ++ [C]) in *.
  destruct (clone_run h2 _ _ (read_app_old h1 [C] _ _ (read_app_old h [W] _ _ Hx)))
    as [E3 R3]. simpl in E3, R3.
  set (h3 := h2 ++ [X]) in *.
  destruct (clone_run h3 _ _
              (read_app_old h2 [X] _ _
                 (read_app_old h1 [C] _ _ (read_app_old h [W] _ _ Hb))))
    as [E4 R4]. simpl in E4, R4.
  set (h4 := h3 ++ [B]) in *.
  destruct (clone_run h4 _ _
              (read_app_old h3 [B] _ _
                 (read_app_old h2 [X] _ _
                    (read_app_old h1 [C] _ _ (read_app_old h [W] _ _ Hr)))))
    as [E5 R5]. simpl in E5, R5.
  set (h5 := h4 ++ [R]) in *.
  set (wi := mkRef (length h) 0 [n]) in *.
  set (ci := mkRef (length h1) 0 [n]) in *.
  set (xi := mkRef (length h2) 0 (lead ++ [n])) in *.
  set (bi := mkRef (length h3) 0 [n]) in *.
  set (ri := mkRef (length h4) 0 (lead ++ [n])) in *.
  assert (Hvi5 : valid_inputs h5 xi bi ri main_w_shape wi ci lead n X B R W C).
  { constructor; [| | |done| | |done].
    - unfold h5, h4. by do 2 apply read_app_old.
    - unfold h5. by apply read_app_old.
    - done.
    - unfold h5, h4, h3, h2. by do 4 apply read_app_old.
    - unfold h5, h4, h3. by do 3 apply read_app_old. }
  set (Inv := fun h' : Heap F =>
                valid_inputs h' xi bi ri main_w_shape wi ci lead n X B R W C).
  assert (Hbody : forall h', Inv h' ->
            exists a k,
              iteration native_dropout layernorm_fwd_fp8 eps_setting fp8_scale
                backward "nvfuser" xi bi ri wi ci h' = (Ok a, h' ++ k)
              /\ Inv (h' ++ k) /\ P a (h' ++ k)).
  { intros h' Hinv.
    destruct (iteration_nvfuser_run P xi bi ri wi ci lead n X B R W C
                (fun h8 xc bc rc => Hcall h8 xc bc rc wi ci) h' Hinv)
      as (a & k & E & HP).
    exists a, k. split; [done|]. split; [by apply valid_inputs_app | done]. }
  set (out2 := (out ++ [PrintText "Testing nvfuser..."])
                 ++ [PrintText "Running 10 warmup iters for nvfuser..."]).
  destruct (io_repeat_run _ Inv P Hbody 9 None h5 out2 Hvi5)
    as (a1 & k1 & Ew & Hinv1 & _).
  set (out3 := out2 ++ [PrintText "Running 1000 main iters for nvfuser..."]).
  destruct (io_repeat_run _ Inv P Hbody 999 (Some a1) (h5 ++ k1) out3 Hinv1)
    as (a2 & k2 & Em & _ & HP).
  exists a2, ([W; C; X; B; R] ++ k1 ++ k2).
  assert (Eh : h ++ [W; C; X; B; R] ++ k1 ++ k2 = (h5 ++ k1) ++ k2).
  { unfold h5, h4, h3, h2, h1. by rewrite <- !app_assoc. }
  rewrite Eh. split; [|exact HP].
  unfold run_impl.
  rewrite (io_bind_Ok _ _ _ _ _ (io_lift_run _ _ h h1 out E1)).
  rewrite (io_bind_Ok _ _ _ _ _ (io_lift_run _ _ h1 h2 out E2)).
  rewrite (io_bind_Ok _ _ _ _ _ (io_lift_run _ _ h2 h3 out E3)).
  rewrite (io_bind_Ok _ _ _ _ _ (io_lift_run _ _ h3 h4 out E4)).
  rewrite (io_bind_Ok _ _ _ _ _ (io_lift_run _ _ h4 h5 out E5)).
  rewrite (io_bind_Ok (print _) _ (h5, out) tt _ eq_refl).
  rewrite (io_bind_Ok (print _) _ _ tt _ eq_refl).
  cbn [fst snd].
  change (S 9) with warmup_iters in Ew. change (S 999) with main_iters in Em.
  fold wi ci xi bi ri.
  rewrite (io_bind_Ok _ _ _ _ _ Ew).
  rewrite (io_bind_Ok (print _) _ _ tt _ eq_refl).
  cbn [fst snd].
  rewrite (io_bind_Ok _ _ _ _ _ Em).
  unfold io_ret, out3, out2. by rewrite <- !app_assoc.
Qed.

(** X6. [main] as shipped, on tensors of the shapes it draws: the run of
    ["nvfuser"] completes (ten warm-up and a thousand main iterations),
    the comparison then asks for the result of ["native"], which was never
    run, and [main] ends in [KeyError] after printing these five lines and
    not one difference.  Every buffer that existed before is unchanged. *)
Theorem X6_main_ends_in_KeyError ln_weight ln_bias x bias residual
    (h : Heap F) out lead n X B R W C :
  valid_inputs h x bias residual main_w_shape ln_weight ln_bias
    lead n X B R W C ->
  exists k,
    main native_dropout layernorm_fwd_fp8 eps_setting fp8_scale backward
      compare_bprop ln_weight ln_bias x bias residual (h, out)
    = (Raise (KeyError "native"),
       (h ++ k,
        out ++ [PrintText "Testing nvfuser...";
                PrintText "Running 10 warmup iters for nvfuser...";
                PrintText "Running 1000 main iters for nvfuser...";
                PrintText "\nComparing fprop...\n";
                PrintText "[native] vs. [compile]"])).
Proof.
  intros Hvi.
  destruct (run_impl_nvfuser_run (fun _ _ => True) ln_weight ln_bias x bias
              residual lead n X B R W C) with (h := h) (out := out)
              (d := (∅ : gmap string (TensorRef * TensorRef * TensorRef)))
    as (res & k & E & _); [|exact Hvi|].
  { intros h8 xc bc rc wc cc sc ac Hvi8 Hvm.
    destruct (bias_add_ln_nvfuser_run h8 xc bc rc main_w_shape wc cc eps_setting
                bfloat16 zero_centered_gamma_setting sc ac (VBool do_bprop_setting)
                lead n X B R W C _ _ Hvi8 Hvm) as (D31 & m & Ecall & _).
    eauto. }
  exists k. unfold main, run_impls. cbn [run_all].
  rewrite (io_bind_Ok _ _ _ _ _ (io_bind_Ok _ _ _ _ _ E)).
  cbn [compare_setting]. unfold io_ret at 1.
  unfold io_bind at 1. rewrite compare_fprop_missing by done.
  by rewrite <- !app_assoc.
Qed.

(** X7. What the run loop of [main] records for ["nvfuser"] on tensors of
    the shapes it draws: the three values of the reference model for
    [zero_centered_gamma = True], the [eps] of the settings and the scale
    [1 * fp8_scale] of the metadata object made for each iteration.  The
    two laws of X1 are assumed. *)
Theorem X7_run_records_reference ln_weight ln_bias x bias residual
    (h : Heap F) out lead n X B R W C :
  (forall a b : F, fdiv a (fsqrt b) = fmul a (frsqrt b)) ->
  (forall a : F, fadd a fone = fadd fone a) ->
  valid_inputs h x bias residual main_w_shape ln_weight ln_bias
    lead n X B R W C ->
  exists bda_out ln_out amax k m,
    run_all native_dropout layernorm_fwd_fp8 eps_setting fp8_scale backward
      ln_weight ln_bias x bias residual run_impls ∅ (h, out)
    = (Ok (<["nvfuser" := (bda_out, ln_out, amax)]> ∅),
       (h ++ k,
        out ++ [PrintText "Testing nvfuser...";
                PrintText "Running 10 warmup iters for nvfuser...";
                PrintText "Running 1000 main iters for nvfuser..."]))
    /\ read (h ++ k) bda_out
       = Some (mkTensor [numel lead; n]
                 (mjoin (spec_pre (rows_of n X) B (rows_of n R))))
    /\ read (h ++ k) ln_out
       = Some (mkTensor [numel lead; n]
                 (mjoin (spec_ln_out (fmul fone fp8_scale)
                    (spec_ln_unscaled eps_setting true W C
                       (spec_pre (rows_of n X) B (rows_of n R))))))
    /\ spec_amax (spec_ln_unscaled eps_setting true W C
                    (spec_pre (rows_of n X) B (rows_of n R))) = Some m
    /\ read (h ++ k) amax = Some (mkTensor [] [m]).
Proof.
  intros Hdiv Hone Hvi.
  set (P := fun (res : TensorRef * TensorRef * TensorRef) (h' : Heap F) =>
              read h' res.1.1
              = Some (mkTensor [numel lead; n]
                        (mjoin (spec_pre (rows_of n X) B (rows_of n R))))
              /\ read h' res.1.2
                 = Some (mkTensor [numel lead; n]
                           (mjoin (spec_ln_out (fmul fone fp8_scale)
                              (spec_ln_unscaled eps_setting true W C
                                 (spec_pre (rows_of n X) B (rows_of n R))))))
              /\ exists m,
                   spec_amax (spec_ln_unscaled eps_setting true W C
                                (spec_pre (rows_of n X) B (rows_of n R))) = Some m
                   /\ read h' res.2 = Some (mkTensor [] [m])).
  destruct (run_impl_nvfuser_run P ln_weight ln_bias x bias
              residual lead n X B R W C) with (h := h) (out := out)
              (d := (∅ : gmap string (TensorRef * TensorRef * TensorRef)))
    as ([[bda_out ln_out] amax] & k & E & H1 & H2 & m & Hm & H3); [|exact Hvi|].
  { intros h8 xc bc rc wc cc sc ac Hvi8 Hvm.
    destruct (bias_add_ln_nvfuser_values h8 xc bc rc main_w_shape wc cc eps_setting
                bfloat16 zero_centered_gamma_setting sc ac (VBool do_bprop_setting)
                lead n X B R W C _ _ Hdiv Hone Hvi8 Hvm) as (m & Ecall & Em).
    destruct (nvfuser_outputs_read h8 _ _ _ _ _ _ lead n X B R W C eps_setting
                zero_centered_gamma_setting (fmul fone fp8_scale) m Hvi8)
      as (R1 & R2 & R3).
    eexists _, _. split; [exact Ecall|]. unfold P. simpl. eauto. }
  exists bda_out, ln_out, amax, k, m. split; [|done].
  unfold run_impls. cbn [run_all].
  by rewrite (io_bind_Ok _ _ _ _ _ E).
Qed.
(** X8. When every implementation of [all_impls] has a result, the three
    tensors of the results having the same shapes across implementations
    and at least one element, the comparison completes: for each of the six
    unordered pairs, in order, it prints the pair, the largest absolute
    difference of the two [bda_out], that of the two [ln_out], the absolute
    difference of the two amax values and an empty line; nothing is tested
    against a threshold and no result tensor is changed. *)
Theorem X8_compare_reports_all_pairs
    (d : gmap string (TensorRef * TensorRef * TensorRef)) (h : Heap F) out
    (S : list nat) (Db Dl : string -> list F) (v : string -> F) :
  numel S <> 0 ->
  (forall impl, impl ∈ all_impls ->
     exists b l a,
       d !! impl = Some (b, l, a)
       /\ read h b = Some (mkTensor S (Db impl))
       /\ read h l = Some (mkTensor S (Dl impl))
       /\ read h a = Some (mkTensor [] [v impl])) ->
  exists k reports,
    compare_fprop all_impls d (h, out)
    = (Ok tt, (h ++ k, (out ++ [PrintText "\nComparing fprop...\n"]) ++ mjoin reports))
    /\ Forall2
         (fun (p : string * string) (report : list (Line F)) =>
            exists bda_out_diff ln_out_diff,
              amax_list (fabs <$> zip_with fsub (Db p.1) (Db p.2)) = Ok bda_out_diff
              /\ amax_list (fabs <$> zip_with fsub (Dl p.1) (Dl p.2)) = Ok ln_out_diff
              /\ report
                 = [PrintText ("[" ++ p.1 ++ "] vs. [" ++ p.2 ++ "]");
                    PrintItem "Intermediate Bias-Dropout-Add output diff:" bda_out_diff;
                    PrintItem "LayerNorm output diff:" ln_out_diff;
                    PrintItem "Amax diff:" (fabs (fsub (v p.1) (v p.2)));
                    PrintText EmptyString])
         all_pairs reports.
Proof.
  intros HS Hd.
  assert (Hpairs : Forall (fun p : string * string =>
                             p.1 ∈ all_impls /\ p.2 ∈ all_impls) all_pairs).
  { unfold all_pairs, all_impls. repeat constructor; simpl; set_solver. }
  assert (Hgen : forall pairs,
             Forall (fun p : string * string =>
                       p.1 ∈ all_impls /\ p.2 ∈ all_impls) pairs ->
             forall out' (h' : Heap F),
               (forall t w, read h t = Some w -> read h' t = Some w) ->
               exists k reports,
                 io_for pairs (fun p => compare_pair d p.1 p.2) (h', out')
                 = (Ok tt, (h' ++ k, out' ++ mjoin reports))
                 /\ Forall2
                      (fun (p : string * string) (report : list (Line F)) =>
                         exists bda_out_diff ln_out_diff,
                           amax_list (fabs <$> zip_with fsub (Db p.1) (Db p.2))
                           = Ok bda_out_diff
                           /\ amax_list (fabs <$> zip_with fsub (Dl p.1) (Dl p.2))
                              = Ok ln_out_diff
                           /\ report
                              = [PrintText ("[" ++ p.1 ++ "] vs. [" ++ p.2 ++ "]");
                                 PrintItem "Intermediate Bias-Dropout-Add output diff:"
                                   bda_out_diff;
                                 PrintItem "LayerNorm output diff:" ln_out_diff;
                                 PrintItem "Amax diff:" (fabs (fsub (v p.1) (v p.2)));
                                 PrintText EmptyString])
                      pairs reports).
  { clear Hpairs. intros pairs Hpairs.
    induction Hpairs as [|[c r] pairs [Hc Hr] _ IH]; intros out' h' Hext.
    - exists [], []. rewrite !app_nil_r. split; [done|constructor].
    - destruct (Hd c Hc) as (b1 & l1 & m1 & Ed1 & Hb1 & Hl1 & Hm1).
      destruct (Hd r Hr) as (b2 & l2 & m2 & Ed2 & Hb2 & Hl2 & Hm2).
      assert (Hne : Db c <> []).
      { intros E. apply read_length in Hb1. simpl in Hb1. rewrite E in Hb1.
        simpl in Hb1. lia. }
      destruct (compare_pair_run d c r h' out' b1 l1 m1 b2 l2 m2 S _ _ _ _ _ _
                  Ed1 Ed2 (Hext _ _ Hb1) (Hext _ _ Hb2) (Hext _ _ Hl1)
                  (Hext _ _ Hl2) (Hext _ _ Hm1) (Hext _ _ Hm2) Hne)
        as (k1 & d1 & d2 & E1 & E2 & Ep).
      cbn [io_for fst snd]. rewrite (io_bind_Ok _ _ _ _ _ Ep).
      destruct (IH (out' ++ [PrintText ("[" ++ c ++ "] vs. [" ++ r ++ "]");
                             PrintItem "Intermediate Bias-Dropout-Add output diff:" d1;
                             PrintItem "LayerNorm output diff:" d2;
                             PrintItem "Amax diff:" (fabs (fsub (v c) (v r)));
                             PrintText EmptyString])
                  (h' ++ k1)) as (k2 & reports & Er & Hrep).
      { intros t w Ht. by apply read_app_old, Hext. }
      exists (k1 ++ k2),
        ([PrintText ("[" ++ c ++ "] vs. [" ++ r ++ "]");
          PrintItem "Intermediate Bias-Dropout-Add output diff:" d1;
          PrintItem "LayerNorm output diff:" d2;
          PrintItem "Amax diff:" (fabs (fsub (v c) (v r)));
          PrintText EmptyString] :: reports).
      split.
      + rewrite Er. cbn [mjoin list_join]. by rewrite !app_assoc.
      + constructor; [|done]. by exists d1, d2. }
  rewrite compare_fprop_pairs.
  rewrite (io_bind_Ok (print _) _ (h, out) tt _ eq_refl). cbn [fst snd].
  by apply Hgen.
Qed.
End FurtherDriver.

(** ** Over the reals: what the amax bounds, and the normalization *)

Lemma foldl_Rmax_ge_init (l : list R) (a : R) : (a <= foldl Rmax a l)%R.
Proof.
  revert a. induction l as [|b l IH]; intros a; simpl; [lra|].
  eapply Rle_trans; [apply (Rmax_l a b) | apply IH].
Qed.

Lemma foldl_Rmax_ge (l : list R) (a x : R) : x ∈ l -> (x <= foldl Rmax a l)%R.
Proof.
  revert a. induction l as [|b l IH]; intros a Hx; [by apply elem_of_nil in Hx|].
  simpl. apply elem_of_cons in Hx as [->|Hx]; [|by apply IH].
  eapply Rle_trans; [apply (Rmax_r a b) | apply foldl_Rmax_ge_init].
Qed.

Lemma foldl_Rmax_elem (l : list R) (a : R) : foldl Rmax a l ∈ a :: l.
Proof.
  revert a. induction l as [|b l IH]; intros a; simpl; [set_solver|].
  specialize (IH (Rmax a b)). apply elem_of_cons in IH as [E|IH].
  - rewrite E. unfold Rmax. destruct (Rle_dec a b); set_solver.
  - set_solver.
Qed.

(** The amax of the reference model is the largest magnitude: it bounds
    every element and is the magnitude of one of them. *)
Lemma spec_amax_bound (u : list (list R)) (m : R) :
  spec_amax u = Some m ->
  Forall (fun v => (Rabs v <= m)%R) (mjoin u)
  /\ Exists (fun v => Rabs v = m) (mjoin u).
Proof.
  unfold spec_amax. destruct (mjoin u) as [|v vs]; [done|]. csimpl.
  intros [= <-]. split.
  - apply Forall_forall. intros w Hw. apply elem_of_cons in Hw as [->|Hw].
    + apply foldl_Rmax_ge_init.
    + apply foldl_Rmax_ge. by apply list_elem_of_fmap_2.
  - pose proof (foldl_Rmax_elem (Rabs <$> vs) (Rabs v)) as Hin.
    change (Rabs v :: (Rabs <$> vs)) with (Rabs <$> (v :: vs)) in Hin.
    apply list_elem_of_fmap in Hin as (w & E & Hw).
    apply Exists_exists. exists w. split; [done|]. by simpl in *.
Qed.

(** X9. Over the reals, after a native call on valid inputs: the amax left
    in the accumulator is not negative, every element of the returned
    [ln_out] is at most [amax * |scale|] in magnitude, and one element
    attains that bound. *)
Theorem X9_amax_bounds_ln_out (h : Heap R) x bias residual w_shape
    ln_weight ln_bias eps dt zcg scale_tensor amax_tensor
    lead n X B Rs W C s a0 :
  valid_inputs h x bias residual w_shape ln_weight ln_bias lead n X B Rs W C ->
  valid_meta h scale_tensor amax_tensor s a0 ->
  exists bda_out ln_out amax h' m L,
    bias_add_ln_native x bias residual w_shape ln_weight ln_bias eps dt zcg
      scale_tensor amax_tensor h = (Ok (bda_out, ln_out, amax), h')
    /\ read h' amax = Some (mkTensor [] [m])
    /\ read h' ln_out = Some (mkTensor [numel lead; n] L)
    /\ (0 <= m)%R
    /\ Forall (fun v => (Rabs v <= m * Rabs s)%R) L
    /\ Exists (fun v => Rabs v = (m * Rabs s)%R) L.
Proof.
  intros Hvi Hvm.
  destruct (bias_add_ln_native_run h x bias residual w_shape ln_weight ln_bias
              eps dt zcg scale_tensor amax_tensor lead n X B Rs W C s a0 Hvi Hvm)
    as (bda_out & ln_out & h' & m & E & _ & Hl & Em & Ha & _).
  destruct (spec_amax_bound _ _ Em) as [Hle Hex].
  eexists bda_out, ln_out, amax_tensor, h', m, _.
  split; [exact E|]. split; [exact Ha|]. split; [exact Hl|].
  rewrite spec_ln_out_join. split; [|split].
  - apply Exists_exists in Hex as (v & _ & <-). apply Rabs_pos.
  - apply Forall_fmap. eapply Forall_impl; [exact Hle|]. intros v Hv. simpl.
    change (fmul v s) with (v * s)%R. rewrite Rabs_mult.
    apply Rmult_le_compat_r; [apply Rabs_pos | done].
  - apply Exists_fmap. eapply Exists_impl; [exact Hex|]. intros v Hv. simpl.
    change (fmul v s) with (v * s)%R. by rewrite Rabs_mult, Hv.
Qed.

Lemma foldl_Rplus_init (l : list R) (a : R) :
  foldl Rplus a l = (a + foldl Rplus 0 l)%R.
Proof.
  revert a. induction l as [|b l IH]; intros a; simpl; [lra|].
  rewrite (IH (a + b)%R), (IH (0 + b)%R). lra.
Qed.

Lemma sum_cons (a : R) (l : list R) :
  foldl Rplus 0%R (a :: l) = (a + foldl Rplus 0 l)%R.
Proof. simpl. rewrite foldl_Rplus_init. lra. Qed.

Lemma sum_scale (k : R) (f : R -> R) (l : list R) :
  foldl Rplus 0%R ((fun v => k * f v)%R <$> l)
  = (k * foldl Rplus 0 (f <$> l))%R.
Proof.
  induction l as [|a l IH]; [simpl; lra|].
  rewrite !fmap_cons, !sum_cons, IH. lra.
Qed.

Lemma sum_shift (c : R) (l : list R) :
  foldl Rplus 0%R ((fun v => v - c)%R <$> l)
  = (foldl Rplus 0 l - INR (length l) * c)%R.
Proof.
  induction l as [|a l IH]; [simpl; lra|].
  rewrite fmap_cons, !sum_cons, IH. cbn [length]. rewrite S_INR. lra.
Qed.

Lemma sum_squares_nonneg (f : R -> R) (l : list R) :
  (0 <= foldl Rplus 0 ((fun v => f v * f v) <$> l))%R.
Proof.
  induction l as [|a l IH]; [simpl; lra|].
  rewrite fmap_cons, sum_cons. pose proof (Rle_0_sqr (f a)) as H.
  unfold Rsqr in H. lra.
Qed.

Lemma row_variance_nonneg (row : list R) : row <> [] -> (0 <= row_variance row)%R.
Proof.
  intros Hne.
  pose proof (sum_squares_nonneg (fun v => v - spec_mean row)%R row) as H.
  unfold row_variance, spec_variance. simpl in *.
  apply Rmult_le_pos; [exact H|].
  apply Rlt_le, Rinv_0_lt_compat, lt_0_INR. destruct row; [done | simpl; lia].
Qed.

(** A row normalized with unit weight and zero bias has mean zero, and the
    variance of the row it comes from divided by that variance plus
    [eps]. *)
Lemma normalized_row_stats (eps : R) (row : list R) :
  (0 < eps)%R -> row <> [] ->
  let out := (fun v => v * (1 + 0) + 0)%R <$> spec_normalized eps row in
  row_mean out = 0%R
  /\ row_variance out = (row_variance row / (row_variance row + eps))%R.
Proof.
  intros Heps Hne out.
  pose proof (row_variance_nonneg row Hne) as Hvar.
  set (m := spec_mean row) in *. set (s := R_sqrt.sqrt (row_variance row + eps)).
  assert (Hs : (0 < s)%R) by (apply sqrt_lt_R0; lra).
  assert (Hss : (s * s = row_variance row + eps)%R) by (apply sqrt_sqrt; lra).
  assert (Hn : (0 < INR (length row))%R).
  { apply lt_0_INR. destruct row; [done | simpl; lia]. }
  assert (Hout : out = (fun v => / s * (v - m))%R <$> row).
  { unfold out, spec_normalized. rewrite <- list_fmap_compose.
    apply list_fmap_ext. intros _ v _.
    change (((v - m) / s * (1 + 0) + 0)%R = (/ s * (v - m))%R).
    unfold Rdiv. lra. }
  assert (Hlen : length out = length row) by (by rewrite Hout, length_fmap).
  assert (Hsum : foldl Rplus 0%R ((fun v => v - m)%R <$> row) = 0%R).
  { rewrite sum_shift. unfold m, spec_mean. simpl. field. lra. }
  assert (Hmean : row_mean out = 0%R).
  { unfold row_mean, spec_mean. simpl. rewrite Hlen, Hout.
    rewrite (sum_scale (/ s) (fun v => v - m)%R), Hsum. unfold Rdiv. lra. }
  split; [exact Hmean|].
  set (Sq := foldl Rplus 0%R ((fun v => (v - m) * (v - m))%R <$> row)).
  assert (Hvr : row_variance row = (Sq / INR (length row))%R) by reflexivity.
  assert (Hvo : row_variance out
                = (foldl Rplus 0
                     ((fun v => (v - row_mean out) * (v - row_mean out))%R <$> out)
                   / INR (length out))%R) by reflexivity.
  assert (Hsq : (fun v => (v - 0) * (v - 0))%R <$> ((fun v => / s * (v - m))%R <$> row)
                = (fun v => / (s * s) * ((v - m) * (v - m)))%R <$> row).
  { rewrite <- list_fmap_compose. apply list_fmap_ext. intros _ v _.
    unfold compose. field. lra. }
  rewrite Hvo, Hmean, Hlen, Hout, Hsq.
  rewrite (sum_scale (/ (s * s)) (fun v => (v - m) * (v - m))%R). fold Sq.
  assert (HSq : (0 <= Sq)%R) by apply (sum_squares_nonneg (fun v => v - m)%R).
  assert (Hen : (0 < eps * INR (length row))%R) by (by apply Rmult_lt_0_compat).
  rewrite Hss, Hvr. field. split; lra.
Qed.

(** X10. The normalization invariant in the configuration in which it
    holds.  Over the reals, with [zero_centered_gamma] on, a zero weight and
    a zero bias (an effective weight of one) and a positive [eps], every
    row of the unscaled layer-norm output has mean zero, and as variance
    the variance [v] of the corresponding row of [bda_out] divided by
    [v + eps]: not negative and below one. *)
Theorem X10_zero_centered_rows_normalized (h : Heap R) x bias residual w_shape
    ln_weight ln_bias eps dt scale_tensor amax_tensor lead n X B Rs s a0 :
  (0 < eps)%R ->
  valid_inputs h x bias residual w_shape ln_weight ln_bias lead n X B Rs
    (replicate n 0%R) (replicate n 0%R) ->
  valid_meta h scale_tensor amax_tensor s a0 ->
  exists bda_out ln_out amax h' P U,
    bias_add_ln_native x bias residual w_shape ln_weight ln_bias eps dt true
      scale_tensor amax_tensor h = (Ok (bda_out, ln_out, amax), h')
    /\ read h' bda_out = Some (mkTensor [numel lead; n] (mjoin P))
    /\ read h' ln_out = Some (mkTensor [numel lead; n] (mjoin (spec_ln_out s U)))
    /\ U = spec_ln_unscaled eps true (replicate n 0%R) (replicate n 0%R) P
    /\ length P = numel lead
    /\ Forall2 (fun row out =>
                  row_mean out = 0%R
                  /\ row_variance out
                     = (row_variance row / (row_variance row + eps))%R
                  /\ (0 <= row_variance out < 1)%R) P U.
Proof.
  intros Heps Hvi Hvm.
  destruct (valid_inputs_dims _ _ _ _ _ _ _ _ _ _ _ _ _ _ Hvi)
    as (Hn & HX & HR & HB & HW & HC).
  destruct (bias_add_ln_native_run h x bias residual w_shape ln_weight ln_bias
              eps dt true scale_tensor amax_tensor lead n X B Rs _ _ s a0 Hvi Hvm)
    as (bda_out & ln_out & h' & m & E & Hb & Hl & _).
  eexists bda_out, ln_out, amax_tensor, h', _, _.
  split; [exact E|]. split; [exact Hb|]. split; [exact Hl|].
  split; [reflexivity|]. split; [by apply spec_pre_length|].
  pose proof (spec_pre_Forall n (numel lead) X B Rs Hn HX HR HB) as Hrows.
  clear E Hb Hl. revert Hrows.
  generalize (spec_pre (rows_of n X) B (rows_of n Rs)). intros P Hrows.
  unfold spec_ln_unscaled.
  induction Hrows as [|row P Hrow _ IH]; csimpl; constructor; [|exact IH].
  assert (Hne : row <> []) by (intros ->; simpl in Hrow; lia).
  rewrite fmap_replicate.
  rewrite zip3_with_replicate by (unfold spec_normalized; by rewrite length_fmap).
  destruct (normalized_row_stats eps row Heps Hne) as [Hmean Hvar].
  change (fadd fone 0%R) with (1 + 0)%R.
  change (fun v : R => fadd (fmul v (1 + 0)%R) 0%R)
    with (fun v : R => (v * (1 + 0) + 0)%R).
  split; [exact Hmean|]. split; [exact Hvar|].
  pose proof (row_variance_nonneg row Hne) as Hv.
  assert (Hbound : (0 <= row_variance row / (row_variance row + eps) < 1)%R).
  { split.
    - apply Rmult_le_pos; [done|]. apply Rlt_le, Rinv_0_lt_compat. lra.
    - apply (Rmult_lt_reg_r (row_variance row + eps)); [lra|].
      unfold Rdiv. rewrite Rmult_assoc, Rinv_l by lra. lra. }
  exact (eq_ind_r (fun z => (0 <= z < 1)%R) Hbound Hvar).
Qed.

(** ** Edge cases of the calls *)

Section FurtherEdges.
Context {F : Type} {SF : Scalar F}.
Variable native_dropout : Q -> Tensor F -> Tensor F.
Variable layernorm_fwd_fp8 :
  TensorRef -> TensorRef -> TensorRef -> F -> FP8TensorMeta -> nat -> dtype ->
  nat -> bool -> TensorRef -> M F (TensorRef * TensorRef * TensorRef).

(** X11. [dropout] is skipped, and the masking kernel never called, for
    every admissible probability when the call is not in training mode, and
    for probability zero in either mode: [bias_dropout_add_fused] then
    returns [residual + (x + bias)] in a fresh tensor and changes no
    existing one. *)
Theorem X11_dropout_skipped (h : Heap F) x bias residual w_shape ln_weight
    ln_bias lead n X B R W C (p : Q) (training : bool) :
  valid_inputs h x bias residual w_shape ln_weight ln_bias lead n X B R W C ->
  Qle_bool 0 p && Qle_bool p 1 = true ->
  Qeq_bool p 0 || negb training = true ->
  exists out k,
    bias_dropout_add_fused native_dropout x bias residual p training h
    = (Ok out, h ++ k)
    /\ length h <= t_buf out
    /\ read (h ++ k) out
       = Some (mkTensor (lead ++ [n])
                 (zip_with fadd R
                    (zip_with fadd X (mjoin (replicate (numel lead) B))))).
Proof.
  intros Hvi Hp Hskip.
  destruct (valid_inputs_dims _ _ _ _ _ _ _ _ _ _ _ _ _ _ Hvi)
    as (Hn & HX & HR & HB & HW & HC).
  destruct Hvi as [Hx Hb Hr _ _ _ _].
  set (D0 := zip_with fadd X (mjoin (replicate (numel lead) B))).
  assert (HD0 : length D0 = numel lead * n).
  { unfold D0. rewrite length_zip_with, join_replicate_length. lia. }
  exists (mkRef (length (h ++ [D0])) 0 (lead ++ [n])), [D0; zip_with fadd R D0].
  split; [|split].
  - unfold bias_dropout_add_fused, torch_add.
    rewrite (bind_Ok _ _ _ _ _
      (torch_binop_run fadd x bias _ _ _ h Hx Hb
         (tensor_binop_prefix fadd lead [n] X B
            ltac:(by rewrite numel_snoc)
            ltac:(by rewrite HB; unfold numel; simpl; lia)))).
    simpl shape; simpl data. fold D0.
    assert (Edrop : dropout native_dropout (mkRef (length h) 0 (lead ++ [n])) p
                      training (h ++ [D0])
                    = (Ok (mkRef (length h) 0 (lead ++ [n])), h ++ [D0])).
    { unfold dropout. rewrite Hp. simpl negb. cbv iota.
      apply orb_true_iff in Hskip as [Hz | Ht]; rewrite ?Hz, ?Ht; simpl;
        [done | by rewrite orb_true_r]. }
    rewrite (bind_Ok _ _ _ _ _ Edrop).
    rewrite (bind_Ok _ _ _ _ _
      (torch_binop_run fadd residual _ _ _ _ (h ++ [D0])
         (read_app_old _ _ _ _ Hr)
         (read_alloc_new h (lead ++ [n]) D0 ltac:(by rewrite numel_snoc))
         (tensor_binop_same fadd (lead ++ [n]) R D0
            ltac:(by rewrite numel_snoc) ltac:(by rewrite numel_snoc)))).
    simpl. by rewrite <- app_assoc.
  - simpl. rewrite length_app. lia.
  - change (h ++ [D0; zip_with fadd R D0]) with (h ++ [D0] ++ [zip_with fadd R D0]).
    rewrite app_assoc. apply read_alloc_new.
    rewrite length_zip_with, numel_snoc. lia.
Qed.

(** X12. A probability outside [0, 1] is refused in either mode:
    [bias_dropout_add_fused] raises [ValueError] once [x + bias] is
    computed, and [residual] is never added. *)
Theorem X12_dropout_invalid_probability (h : Heap F) x bias residual w_shape
    ln_weight ln_bias lead n X B R W C (p : Q) (training : bool) :
  valid_inputs h x bias residual w_shape ln_weight ln_bias lead n X B R W C ->
  Qle_bool 0 p && Qle_bool p 1 = false ->
  exists msg,
    bias_dropout_add_fused native_dropout x bias residual p training h
    = (Raise (ValueError msg),
       h ++ [zip_with fadd X (mjoin (replicate (numel lead) B))]).
Proof.
  intros Hvi Hp.
  destruct (valid_inputs_dims _ _ _ _ _ _ _ _ _ _ _ _ _ _ Hvi)
    as (Hn & HX & HR & HB & HW & HC).
  destruct Hvi as [Hx Hb Hr _ _ _ _].
  eexists. unfold bias_dropout_add_fused, torch_add.
  rewrite (bind_Ok _ _ _ _ _
    (torch_binop_run fadd x bias _ _ _ h Hx Hb
       (tensor_binop_prefix fadd lead [n] X B
          ltac:(by rewrite numel_snoc)
          ltac:(by rewrite HB; unfold numel; simpl; lia)))).
  simpl shape; simpl data.
  apply bind_Raise. unfold dropout. by rewrite Hp.
Qed.

(** X13. An empty batch: with [x] and [residual] of a shape that holds no
    row, the native implementation computes the (empty) bias-add and layer
    norm and then raises in [torch.amax], which has no maximum to return;
    the accumulator is not written, nor any other existing buffer. *)
Theorem X13_native_empty_batch_raises (h : Heap F) x bias residual ln_weight
    ln_bias eps dt zcg scale_tensor amax_tensor lead n B W C :
  n <> 0 ->
  read h x = Some (mkTensor (lead ++ [n]) []) ->
  read h bias = Some (mkTensor [n] B) ->
  read h residual = Some (mkTensor (lead ++ [n]) []) ->
  read h ln_weight = Some (mkTensor [n] W) ->
  read h ln_bias = Some (mkTensor [n] C) ->
  exists k,
    bias_add_ln_native x bias residual [n] ln_weight ln_bias eps dt zcg
      scale_tensor amax_tensor h
    = (Raise (RuntimeError
                "amax(): Expected reduction dim to be specified for input.numel() == 0"),
       h ++ k).
Proof.
  intros Hn Hx Hb Hr Hw Hc.
  assert (Hrows : numel lead = 0).
  { apply read_length in Hx. simpl in Hx. rewrite numel_snoc in Hx. nia. }
  assert (HB : length B = n).
  { apply read_length in Hb. simpl in Hb. rewrite Hb. unfold numel. simpl. lia. }
  assert (Hshape : numel (lead ++ [n]) = 0) by (rewrite numel_snoc; lia).
  assert (Hshape2 : numel [0; n] = 0) by done.
  unfold bias_add_ln_native, torch_add.
  rewrite (bind_Ok _ _ _ _ _
    (torch_binop_run fadd x bias _ _ _ h Hx Hb
       (tensor_binop_prefix fadd lead [n] [] B
          ltac:(by rewrite Hshape)
          ltac:(by rewrite HB; unfold numel; simpl; lia)))).
  simpl shape; simpl data.
  set (h1 := h ++ [[]]).
  rewrite (bind_Ok _ _ _ _ _
    (torch_binop_run fadd _ residual _ _ _ h1
       (read_alloc_new h (lead ++ [n]) [] (eq_sym Hshape))
       (read_app_old _ _ _ _ Hr)
       (tensor_binop_same fadd (lead ++ [n]) [] []
          (eq_sym Hshape) (eq_sym Hshape)))).
  simpl shape; simpl data.
  set (h2 := h1 ++ [[]]).
  rewrite (bind_Ok _ _ _ _ _ (tuple_last_run h2 [] n)).
  rewrite (bind_Ok _ _ _ _ _
    (view_neg1_run (mkRef (length h1) 0 (lead ++ [n])) n 0 h2 Hn
       ltac:(by simpl; rewrite Hshape))).
  simpl t_buf; simpl t_off.
  assert (Hout1 : read h2 (mkRef (length h1) 0 [0; n]) = Some (mkTensor [0; n] [])).
  { by apply read_alloc_new. }
  destruct (effective_weight_run h2 zcg ln_weight n W) as (w' & k & Ew & Hw').
  { unfold h2, h1. solve_read. }
  rewrite (bind_Ok _ _ _ _ _ Ew).
  set (h3 := h2 ++ k) in *.
  rewrite (bind_Ok _ _ _ _ _
    (layer_norm_run (mkRef (length h1) 0 [0; n]) w' ln_bias _ _ _ [n] eps _ h3
       (read_app_old _ _ _ _ Hout1) Hw'
       ltac:(unfold h3, h2, h1; solve_read)
       (tensor_layer_norm_rows eps 0 n [] (spec_w_eff zcg W) C Hn eq_refl))).
  simpl shape; simpl data.
  set (h4 := h3 ++ [[]]).
  rewrite (bind_Ok _ _ _ _ _
    (torch_abs_run (mkRef (length h3) 0 [0; n]) _ h4
       (read_alloc_new h3 [0; n] [] eq_refl))).
  simpl shape; simpl data.
  set (h5 := h4 ++ [[]]).
  exists ([[]; []] ++ k ++ [[]; []]).
  assert (Eh : h ++ [[]; []] ++ k ++ [[]; []] = h5).
  { unfold h5, h4, h3, h2, h1. by rewrite <- !app_assoc. }
  rewrite Eh. apply bind_Raise. unfold torch_amax.
  rewrite (bind_Ok _ _ _ _ _
    (load_run _ _ _ (read_alloc_new h4 [0; n] [] eq_refl))).
  reflexivity.
Qed.
Lemma native_empty_w_shape_run (h : Heap F) x bias residual ln_weight ln_bias eps
    dt zcg scale_tensor amax_tensor lead n X B R :
  read h x = Some (mkTensor (lead ++ [n]) X) ->
  read h bias = Some (mkTensor [n] B) ->
  read h residual = Some (mkTensor (lead ++ [n]) R) ->
  exists k,
    bias_add_ln_native x bias residual [] ln_weight ln_bias eps dt zcg
      scale_tensor amax_tensor h
    = (Raise (IndexError "tuple index out of range"), h ++ k).
Proof.
  intros Hx Hb Hr.
  pose proof (read_length _ _ _ Hx) as HX. pose proof (read_length _ _ _ Hb) as HB.
  pose proof (read_length _ _ _ Hr) as HR. simpl in HX, HB, HR.
  set (D0 := zip_with fadd X (mjoin (replicate (numel lead) B))).
  assert (HD0 : length D0 = numel (lead ++ [n])).
  { unfold D0. rewrite length_zip_with, join_replicate_length, HX, HB, numel_snoc.
    unfold numel at 3. simpl. lia. }
  exists [D0; zip_with fadd D0 R].
  unfold bias_add_ln_native, torch_add.
  rewrite (bind_Ok _ _ _ _ _
    (torch_binop_run fadd x bias _ _ _ h Hx Hb
       (tensor_binop_prefix fadd lead [n] X B HX HB))).
  simpl shape; simpl data. fold D0.
  rewrite (bind_Ok _ _ _ _ _
    (torch_binop_run fadd _ residual _ _ _ (h ++ [D0])
       (read_alloc_new h (lead ++ [n]) D0 HD0) (read_app_old _ _ _ _ Hr)
       (tensor_binop_same fadd (lead ++ [n]) D0 R HD0 HR))).
  simpl shape; simpl data. by rewrite <- app_assoc.
Qed.

Lemma te_empty_w_shape_run (h : Heap F) x bias residual ln_weight ln_bias
    (eps : F) dt zcg meta do_bprop lead n X B R :
  read h x = Some (mkTensor (lead ++ [n]) X) ->
  read h bias = Some (mkTensor [n] B) ->
  read h residual = Some (mkTensor (lead ++ [n]) R) ->
  exists k,
    bias_add_ln_te native_dropout layernorm_fwd_fp8 x bias residual []
      ln_weight ln_bias eps dt zcg meta do_bprop h
    = (Raise (IndexError "tuple index out of range"), h ++ k).
Proof.
  intros Hx Hb Hr.
  pose proof (read_length _ _ _ Hx) as HX. pose proof (read_length _ _ _ Hb) as HB.
  pose proof (read_length _ _ _ Hr) as HR. simpl in HX, HB, HR.
  set (D0 := zip_with fadd X (mjoin (replicate (numel lead) B))).
  assert (HD0 : length D0 = numel (lead ++ [n])).
  { unfold D0. rewrite length_zip_with, join_replicate_length, HX, HB, numel_snoc.
    unfold numel at 3. simpl. lia. }
  exists [D0; zip_with fadd R D0].
  unfold bias_add_ln_te, bias_dropout_add_fused, torch_add.
  assert (Efused : (t <- torch_binop fadd x bias ;;
                    out <- dropout native_dropout t 0 true ;;
                    out <- torch_binop fadd residual out ;; ret out) h
                   = (Ok (mkRef (length (h ++ [D0])) 0 (lead ++ [n])),
                      (h ++ [D0]) ++ [zip_with fadd R D0])).
  { rewrite (bind_Ok _ _ _ _ _
      (torch_binop_run fadd x bias _ _ _ h Hx Hb
         (tensor_binop_prefix fadd lead [n] X B HX HB))).
    simpl shape; simpl data. fold D0.
    rewrite (bind_Ok _ _ _ _ _ (dropout_zero_run native_dropout (h ++ [D0]) _ true)).
    by rewrite (bind_Ok _ _ _ _ _
      (torch_binop_run fadd residual _ _ _ _ (h ++ [D0])
         (read_app_old _ _ _ _ Hr) (read_alloc_new h (lead ++ [n]) D0 HD0)
         (tensor_binop_same fadd (lead ++ [n]) R D0 HR HD0))). }
  rewrite (bind_Ok _ _ _ _ _ Efused). by rewrite <- app_assoc.
Qed.

(** X14. An empty [w_shape]: through the dispatcher each of the four
    implementations raises [IndexError] at [w_shape[-1]].  The nvFuser
    variant does so before it computes anything; the native, compiled and
    Transformer Engine variants take the last element only after the
    bias-add, whose result is dropped.  No layer norm is computed, the
    external kernel is not called and no existing buffer is changed. *)
Theorem X14_empty_w_shape_raises (h : Heap F) (args : Args F)
    (kwargs : gmap string PyVal) impl m d lead n X B R s a0 :
  kwargs !! "impl" = Some (VStr impl) ->
  impl ∈ all_impls ->
  kwargs !! "meta" = Some (VMeta m) ->
  kwargs !! "do_bprop" = Some d ->
  a_w_shape args = [] ->
  read h (a_x args) = Some (mkTensor (lead ++ [n]) X) ->
  read h (a_bias args) = Some (mkTensor [n] B) ->
  read h (a_residual args) = Some (mkTensor (lead ++ [n]) R) ->
  valid_meta_object h m s a0 ->
  exists k,
    bias_add_ln native_dropout layernorm_fwd_fp8 args kwargs h
    = (Raise (IndexError "tuple index out of range"), h ++ k)
    /\ (impl = "nvfuser" -> k = []).
Proof.
  intros Hi Himpl Hm Hd Hws Hx Hb Hr Hvo.
  destruct (meta_cells_run h m s a0 Hvo) as (Esc & Eac & Hvm).
  unfold bias_add_ln.
  rewrite (bind_Ok _ _ _ _ _ (dict_get_run kwargs "impl" _ h Hi)).
  rewrite (bind_Ok _ _ _ _ _ (dict_get_run kwargs "meta" _ h Hm)).
  rewrite (bind_Ok _ _ _ _ _ (dict_get_run kwargs "do_bprop" _ h Hd)).
  rewrite Hws. unfold all_impls in Himpl.
  repeat (apply elem_of_cons in Himpl as [->|Himpl]);
    [..|by apply elem_of_nil in Himpl];
    cbn [py_eq_str String.eqb Ascii.eqb Bool.eqb].
  - rewrite (bind_Ok _ _ _ _ _ Esc), (bind_Ok _ _ _ _ _ Eac).
    destruct (native_empty_w_shape_run h _ _ _ (a_ln_weight args) (a_ln_bias args)
                (a_eps args) (a_output_dtype args) (a_zero_centered_gamma args)
                (mkRef (t_buf (scale m)) (t_off (scale m) + 0 * numel []) [])
                (mkRef (t_buf (amax_history m))
                   (t_off (amax_history m) + 0 * numel [1] + 0 * numel []) [])
                lead n X B R Hx Hb Hr) as [k Ek].
    exists k. split; [exact Ek | done].
  - rewrite (bind_Ok _ _ _ _ _ Esc), (bind_Ok _ _ _ _ _ Eac).
    destruct (native_empty_w_shape_run h _ _ _ (a_ln_weight args) (a_ln_bias args)
                (a_eps args) (a_output_dtype args) (a_zero_centered_gamma args)
                (mkRef (t_buf (scale m)) (t_off (scale m) + 0 * numel []) [])
                (mkRef (t_buf (amax_history m))
                   (t_off (amax_history m) + 0 * numel [1] + 0 * numel []) [])
                lead n X B R Hx Hb Hr) as [k Ek].
    exists k. split; [exact Ek | done].
  - destruct (te_empty_w_shape_run h _ _ _ (a_ln_weight args) (a_ln_bias args)
                (a_eps args) (a_output_dtype args) (a_zero_centered_gamma args)
                (VMeta m) d lead n X B R Hx Hb Hr) as [k Ek].
    exists k. split; [exact Ek | done].
  - rewrite (bind_Ok _ _ _ _ _ Esc), (bind_Ok _ _ _ _ _ Eac).
    exists []. rewrite app_nil_r. done.
Qed.

(** X15. A metadata object whose scale tensor cannot be indexed, because it
    is 0-dimensional or has no element along its first axis, is refused
    with [IndexError] at [meta.scale[0]] by the native, the compiled and
    the nvFuser route, before anything is computed. *)
Theorem X15_unindexable_scale_raises (h : Heap F) (args : Args F)
    (kwargs : gmap string PyVal) impl m d :
  kwargs !! "impl" = Some (VStr impl) ->
  impl ∈ ["native"; "compile"; "nvfuser"] ->
  kwargs !! "meta" = Some (VMeta m) ->
  kwargs !! "do_bprop" = Some d ->
  t_shape (scale m) = [] \/ (exists s, t_shape (scale m) = 0 :: s) ->
  exists msg,
    bias_add_ln native_dropout layernorm_fwd_fp8 args kwargs h
    = (Raise (IndexError msg), h).
Proof.
  intros Hi Himpl Hm Hd Hs.
  assert (Esc : exists msg, meta_scale_cell (F:=F) (VMeta m) h
                            = (Raise (IndexError msg), h)).
  { unfold meta_scale_cell, as_meta, FP8_TENSOR_INDEX.
    rewrite (bind_Ok _ _ h m h) by done. unfold index.
    destruct Hs as [-> | [s ->]]; eauto. }
  destruct Esc as [msg Esc]. exists msg.
  unfold bias_add_ln.
  rewrite (bind_Ok _ _ _ _ _ (dict_get_run kwargs "impl" _ h Hi)).
  rewrite (bind_Ok _ _ _ _ _ (dict_get_run kwargs "meta" _ h Hm)).
  rewrite (bind_Ok _ _ _ _ _ (dict_get_run kwargs "do_bprop" _ h Hd)).
  repeat (apply elem_of_cons in Himpl as [->|Himpl]);
    [..|by apply elem_of_nil in Himpl];
    cbn [py_eq_str String.eqb Ascii.eqb Bool.eqb];
    by rewrite (bind_Raise _ _ _ _ _ Esc).
Qed.
(** X17. The Transformer Engine variant in terms of the external kernel.
    On valid inputs the kernel is called once, on [residual + (x + bias)]
    in the layout [[rows; n]] and a fresh output buffer of the same shape,
    with tensor index 0, the FP8 type E4M3 and margin 0.  If the kernel
    raises, the call raises the same exception and leaves the heap the
    kernel left.  If it returns, the call returns the bias-add tensor it
    handed to the kernel, a fresh tensor holding the kernel's [ln_out]
    converted to the output type, and the view [meta.amax_history[0][0]];
    the Python code writes no existing buffer. *)
Theorem X17_te_forward_by_kernel (h : Heap F) x bias residual w_shape ln_weight
    ln_bias eps dt zcg m do_bprop lead n X B R W C s a0 :
  valid_inputs h x bias residual w_shape ln_weight ln_bias lead n X B R W C ->
  valid_meta_object h m s a0 ->
  let D0 := zip_with fadd X (mjoin (replicate (numel lead) B)) in
  let D := zip_with fadd R D0 in
  let h2 := (h ++ [D0]) ++ [D] in
  let inp := mkRef (length (h ++ [D0])) 0 [numel lead; n] in
  let out := mkRef (length h2) 0 [numel lead; n] in
  let h3 := h2 ++ [replicate (numel [numel lead; n]) fzero] in
  let te := bias_add_ln_te native_dropout layernorm_fwd_fp8 x bias residual
              w_shape ln_weight ln_bias eps dt zcg (VMeta m) do_bprop h in
  read h3 inp = Some (mkTensor [numel lead; n] D)
  /\ read h3 out
     = Some (mkTensor [numel lead; n] (replicate (numel [numel lead; n]) fzero))
  /\ (forall e hk,
        layernorm_fwd_fp8 inp ln_weight ln_bias eps m FP8_TENSOR_INDEX kFloat8E4M3
          0 zcg out h3 = (Raise e, hk) ->
        te = (Raise e, hk))
  /\ (forall lo mu rs hk vlo,
        layernorm_fwd_fp8 inp ln_weight ln_bias eps m FP8_TENSOR_INDEX kFloat8E4M3
          0 zcg out h3 = (Ok (lo, mu, rs), hk) ->
        read hk lo = Some vlo ->
        te = (Ok (inp, mkRef (length hk) 0 (shape vlo),
                  mkRef (t_buf (amax_history m))
                    (t_off (amax_history m) + 0 * numel [1] + 0 * numel []) []),
              hk ++ [fcast dt <$> data vlo])).
Proof.
  intros Hvi Hvm D0 D h2 inp out h3 te.
  destruct (valid_inputs_dims _ _ _ _ _ _ _ _ _ _ _ _ _ _ Hvi)
    as (Hn & HX & HR & HB & HW & HC).
  pose proof (bias_dropout_add_fused_run native_dropout h _ _ _ _ _ _ _ _ _ _ _ _ _
                true Hvi) as Ebda.
  destruct Hvi as [Hx Hb Hr -> Hw Hc Hne]. destruct Hvm as [Hs Ha Hdis].
  set (rows := numel lead) in *.
  fold D0 in Ebda. fold D in Ebda. fold h2 in Ebda.
  assert (HD0 : length D0 = rows * n).
  { unfold D0. rewrite length_zip_with, join_replicate_length. lia. }
  assert (HD : length D = rows * n).
  { unfold D. rewrite length_zip_with. lia. }
  assert (Hshape2 : numel [rows; n] = rows * n) by (unfold numel; simpl; lia).
  assert (Hinp : read h2 inp = Some (mkTensor [rows; n] D)).
  { apply read_alloc_new. by rewrite Hshape2. }
  assert (Eprefix : forall (k : TensorRef -> M F (TensorRef * TensorRef * TensorRef)),
             (bda_out <- bias_dropout_add_fused native_dropout x bias residual 0 true ;;
              n0 <- tuple_last [n] ;;
              bda_out <- view_neg1 bda_out n0 ;; k bda_out) h
             = k inp h2).
  { intros k. rewrite (bind_Ok _ _ _ _ _ Ebda).
    rewrite (bind_Ok _ _ _ _ _ (tuple_last_run h2 [] n)).
    by rewrite (bind_Ok _ _ _ _ _
      (view_neg1_run (mkRef (length (h ++ [D0])) 0 (lead ++ [n])) n rows h2 Hn
         ltac:(by simpl; rewrite numel_snoc))). }
  split; [by apply read_app_old|]. split.
  { apply read_alloc_new. by rewrite length_replicate. }
  split.
  - intros e hk Ek. unfold te, bias_add_ln_te. rewrite Eprefix.
    apply bind_Raise. unfold LayerNormFP8TE_forward.
    rewrite (bind_Ok _ _ h2 out h3) by done.
    rewrite (bind_Ok (as_meta (VMeta m)) _ _ m _ eq_refl).
    by apply bind_Raise.
  - intros lo mu rs hk vlo Ek Hlo. unfold te, bias_add_ln_te. rewrite Eprefix.
    rewrite (bind_Ok _ _ _ _ _
      (LayerNormFP8TE_forward_run layernorm_fwd_fp8 h2 hk inp ln_weight ln_bias eps
         zcg dt m do_bprop lo mu rs vlo Ek Hlo)).
    rewrite (bind_Ok (as_meta (VMeta m)) _ _ m _ eq_refl).
    pose proof (read_shape _ _ _ Ha) as Hshape. simpl in Hshape.
    rewrite (bind_Ok _ _ _ _ _ (index_zero_run _ _ [1] (eq_sym Hshape))).
    unfold FP8_TENSOR_INDEX.
    by rewrite (bind_Ok _ _ _ _ _ (index_zero_run _ (mkRef _ _ [1]) [] eq_refl)).
Qed.
End FurtherEdges.

(** ** What the returned tensors share *)

Section FurtherAliasing.
Context {F : Type} {SF : Scalar F}.

Lemma bind_inv {A B : Type} (m : M F A) (k : A -> M F B) h b h' :
  bind m k h = (Ok b, h') ->
  exists a h1, m h = (Ok a, h1) /\ k a h1 = (Ok b, h').
Proof.
  unfold bind. destruct (m h) as [[a|e] h1]; [|done]. intros H. by exists a, h1.
Qed.

Lemma load_inv (t : TensorRef) (h : Heap F) v h' :
  load t h = (Ok v, h') -> h' = h.
Proof. unfold load. destruct (read h t); by intros [= _ <-]. Qed.

Lemma alloc_inv (v : Tensor F) (h : Heap F) t h' :
  alloc v h = (Ok t, h') -> t_buf t = length h /\ length h' = S (length h).
Proof.
  unfold alloc. intros [= <- <-]. split; [done|]. rewrite length_app. simpl. lia.
Qed.

Lemma lift_inv {A : Type} (r : Res A) (h : Heap F) a h' :
  lift r h = (Ok a, h') -> h' = h.
Proof. unfold lift. by intros [= _ <-]. Qed.

Lemma torch_binop_inv f a b (h : Heap F) t h' :
  torch_binop f a b h = (Ok t, h') ->
  t_buf t = length h /\ length h' = S (length h).
Proof.
  unfold torch_binop. intros H.
  apply bind_inv in H as (va & h1 & ->%load_inv & H).
  apply bind_inv in H as (vb & h2 & ->%load_inv & H).
  apply bind_inv in H as (v & h3 & ->%lift_inv & H).
  by apply alloc_inv in H.
Qed.

Lemma map_alloc_inv (f : F -> F) a (h : Heap F) t h' :
  (va <- load a ;; alloc (tensor_map f va)) h = (Ok t, h') ->
  t_buf t = length h /\ length h' = S (length h).
Proof.
  intros H. apply bind_inv in H as (va & h1 & ->%load_inv & H).
  by apply alloc_inv in H.
Qed.

Lemma layer_norm_inv x ns w b (eps : F) (h : Heap F) t h' :
  layer_norm x ns w b eps h = (Ok t, h') ->
  t_buf t = length h /\ length h' = S (length h).
Proof.
  unfold layer_norm. intros H.
  apply bind_inv in H as (vx & h1 & ->%load_inv & H).
  apply bind_inv in H as (vw & h2 & ->%load_inv & H).
  apply bind_inv in H as (vb & h3 & ->%load_inv & H).
  apply bind_inv in H as (v & h4 & ->%lift_inv & H).
  by apply alloc_inv in H.
Qed.

Lemma torch_amax_inv a (h : Heap F) t h' :
  torch_amax a h = (Ok t, h') -> length h' = S (length h).
Proof.
  unfold torch_amax. intros H.
  apply bind_inv in H as (va & h1 & ->%load_inv & H).
  apply bind_inv in H as (v & h2 & ->%lift_inv & H).
  by apply alloc_inv in H as [_ ?].
Qed.

Lemma view_neg1_inv t n (h : Heap F) t' h' :
  view_neg1 t n h = (Ok t', h') -> t_buf t' = t_buf t /\ h' = h.
Proof.
  unfold view_neg1. destruct (n =? 0); [done|].
  destruct (numel (t_shape t) mod n =? 0); [|done]. by intros [= <- <-].
Qed.

Lemma tuple_last_inv l (h : Heap F) n h' :
  tuple_last l h = (Ok n, h') -> h' = h.
Proof. unfold tuple_last. destruct (last l); [|done]. by intros [= _ <-]. Qed.

Lemma fill_inv t value (h : Heap F) u h' :
  fill_ t value h = (Ok u, h') -> length h' = length h.
Proof.
  unfold fill_. intros H. apply bind_inv in H as (vv & h1 & ->%load_inv & H).
  destruct (shape vv); [|done]. destruct (data vv) as [|v [|? ?]]; try done.
  unfold store_fill in H. destruct (h !! t_buf t) as [b|]; [|done].
  destruct (t_off t + numel (t_shape t) <=? length b); [|done].
  injection H as _ <-. apply length_insert.
Qed.

(** X16. Whenever the native implementation returns, for arguments of any
    kind: the third output is the [amax_tensor] it was given, the object
    itself and not a copy; [bda_out] and [ln_out] lie in two different
    buffers allocated by the call, so they share storage neither with each
    other nor with any tensor that existed before. *)
Theorem X16_native_outputs_fresh (h : Heap F) x bias residual w_shape ln_weight
    ln_bias eps dt zcg scale_tensor amax_tensor bda_out ln_out amax h' :
  bias_add_ln_native x bias residual w_shape ln_weight ln_bias eps dt zcg
    scale_tensor amax_tensor h = (Ok (bda_out, ln_out, amax), h') ->
  amax = amax_tensor
  /\ length h <= t_buf bda_out < length h'
  /\ length h <= t_buf ln_out < length h'
  /\ t_buf bda_out <> t_buf ln_out.
Proof.
  unfold bias_add_ln_native, torch_add, torch_mul, torch_abs. intros H.
  apply bind_inv in H as (t & h1 & [Ht L1]%torch_binop_inv & H).
  apply bind_inv in H as (o1 & h2 & [Ho1 L2]%torch_binop_inv & H).
  apply bind_inv in H as (n & h3 & ->%tuple_last_inv & H).
  apply bind_inv in H as (o1' & h4 & [Ho1' ->]%view_neg1_inv & H).
  apply bind_inv in H as (w & h5 & Hw & H).
  assert (L5 : length h2 <= length h5).
  { destruct zcg; simpl in Hw.
    - unfold scalar_add in Hw. apply map_alloc_inv in Hw as [_ ->]. lia.
    - unfold ret in Hw. injection Hw as _ <-. lia. }
  apply bind_inv in H as (o2 & h6 & [Ho2 L6]%layer_norm_inv & H).
  apply bind_inv in H as (a & h7 & [Ha L7]%map_alloc_inv & H).
  apply bind_inv in H as (mx & h8 & L8%torch_amax_inv & H).
  apply bind_inv in H as (u & h9 & L9%fill_inv & H).
  apply bind_inv in H as (o3 & h10 & [Ho3 L10]%torch_binop_inv & H).
  unfold ret in H. injection H as <- <- <- <-.
  split; [done|]. lia.
Qed.
End FurtherAliasing.

(** ** The further properties at concrete calls *)

(** Over the reals a quotient by a square root is a product with its
    inverse, by the definition of division. *)
Lemma real_div_sqrt (a b : R) : fdiv a (fsqrt b) = fmul a (frsqrt b).
Proof. reflexivity. Qed.

Lemma real_add_one_comm (a : R) : fadd a fone = fadd fone a.
Proof. apply Rplus_comm. Qed.

Lemma X1_witness :
  exists bda_out ln_out amax h' m,
    bias_add_ln_nvfuser Example.x Example.bias Example.residual Example.w_shape
      Example.ln_weight Example.ln_bias Example.eps bfloat16 true
      Example.scale_tensor Example.amax_tensor (VBool false) Example.heap0
    = (Ok (bda_out, ln_out, amax), h')
    /\ read h' bda_out
       = Some (mkTensor [numel [2]; 2]
                 (mjoin (spec_pre (rows_of 2 [1; 3; 2; 6]%R) [0; 0]%R
                           (rows_of 2 [0; 0; 0; 0]%R))))
    /\ read h' ln_out
       = Some (mkTensor [numel [2]; 2]
                 (mjoin (spec_ln_out (/ 2)%R
                    (spec_ln_unscaled Example.eps true [1; 1]%R [0; 0]%R
                       (spec_pre (rows_of 2 [1; 3; 2; 6]%R) [0; 0]%R
                          (rows_of 2 [0; 0; 0; 0]%R))))))
    /\ spec_amax (spec_ln_unscaled Example.eps true [1; 1]%R [0; 0]%R
                    (spec_pre (rows_of 2 [1; 3; 2; 6]%R) [0; 0]%R
                       (rows_of 2 [0; 0; 0; 0]%R))) = Some m
    /\ read h' amax = Some (mkTensor [] [m]).
Proof.
  exact (X1_nvfuser_computes_reference Example.heap0 _ _ _ _ _ _ Example.eps
           bfloat16 true _ _ (VBool false) _ _ _ _ _ _ _ _ _
           real_div_sqrt real_add_one_comm example_inputs example_meta).
Defined.

Lemma X3_witness :
  exists bda_out ln_out amax h' mx,
    bias_add_ln stub_dropout stub_layernorm_fwd_fp8 Example.args
      (<["meta" := VMeta Example.meta]>
         (<["do_bprop" := VBool false]> (<["impl" := VStr "native"]> ∅))) Example.heap0
    = (Ok (bda_out, ln_out, amax), h')
    /\ spec_amax (spec_ln_unscaled Example.eps false [1; 1]%R [0; 0]%R
                    (spec_pre (rows_of 2 [1; 3; 2; 6]%R) [0; 0]%R
                       (rows_of 2 [0; 0; 0; 0]%R))) = Some mx
    /\ read h' (amax_history Example.meta) = Some (mkTensor [1; 1] [mx])
    /\ read h' amax = Some (mkTensor [] [mx])
    /\ t_buf amax = t_buf (amax_history Example.meta)
    /\ read h' (scale Example.meta) = Some (mkTensor [1] [(/ 2)%R]).
Proof.
  exact (X3_dispatcher_native_updates_amax_history stub_dropout
           stub_layernorm_fwd_fp8 Example.heap0 Example.args
           (<["meta" := VMeta Example.meta]>
              (<["do_bprop" := VBool false]> (<["impl" := VStr "native"]> ∅)))
           "native" Example.meta (VBool false) _ _ _ _ _ _ _ _ _
           eq_refl (or_introl eq_refl) eq_refl eq_refl
           example_inputs example_meta_object).
Defined.

Lemma X4_witness :
  exists b1 l1 a1 h1 b2 l2 a2 h2 Vb Vl Va,
    bias_add_ln stub_dropout stub_layernorm_fwd_fp8 Example.args
      (<["impl" := VStr "native"]>
         (<["meta" := VMeta Example.meta]> (<["do_bprop" := VBool false]> ∅)))
      Example.heap0 = (Ok (b1, l1, a1), h1)
    /\ bias_add_ln stub_dropout stub_layernorm_fwd_fp8 Example.args
         (<["impl" := VStr "nvfuser"]>
            (<["meta" := VMeta Example.meta]> (<["do_bprop" := VBool false]> ∅)))
         Example.heap0 = (Ok (b2, l2, a2), h2)
    /\ read h1 b1 = Some Vb /\ read h2 b2 = Some Vb
    /\ read h1 l1 = Some Vl /\ read h2 l2 = Some Vl
    /\ read h1 a1 = Some Va /\ read h2 a2 = Some Va.
Proof.
  exact (X4_dispatcher_native_nvfuser_agree stub_dropout stub_layernorm_fwd_fp8
           Example.heap0 Example.args
           (<["meta" := VMeta Example.meta]> (<["do_bprop" := VBool false]> ∅))
           Example.meta (VBool false) _ _ _ _ _ _ _ _ _
           real_div_sqrt real_add_one_comm eq_refl eq_refl
           example_inputs example_meta_object).
Defined.

(** A selector the dispatcher does not know, and no [meta]: the missing
    keyword is reported, not the selector. *)
Lemma X5_witness :
  bias_add_ln stub_dropout stub_layernorm_fwd_fp8 Example.args
    (<["do_bprop" := VBool false]> (<["impl" := VStr "triton"]> ∅)) Example.heap0
  = (Raise (KeyError "meta"), Example.heap0).
Proof.
  exact (X5_missing_keyword_raises stub_dropout stub_layernorm_fwd_fp8
           Example.heap0 Example.args
           (<["do_bprop" := VBool false]> (<["impl" := VStr "triton"]> ∅))
           "meta" eq_refl).
Defined.

Lemma main_example_inputs :
  valid_inputs MainExample.heap0 MainExample.x MainExample.bias
    MainExample.residual main_w_shape MainExample.ln_weight MainExample.ln_bias
    [1; 1] (12 * 1024) (replicate (12 * 1024) 0%R) (replicate (12 * 1024) 0%R)
    (replicate (12 * 1024) 0%R) (replicate (12 * 1024) 1%R)
    (replicate (12 * 1024) 0%R).
Proof.
  constructor; try (vm_compute; reflexivity).
  intros H. apply (f_equal length) in H. by rewrite length_replicate in H.
Qed.

Lemma X6_witness :
  exists k,
    main stub_dropout stub_layernorm_fwd_fp8 (/ 100000)%R (/ 2)%R
      MainExample.stub_backward MainExample.stub_compare_bprop
      MainExample.ln_weight MainExample.ln_bias MainExample.x MainExample.bias
      MainExample.residual (MainExample.heap0, [])
    = (Raise (KeyError "native"),
       (MainExample.heap0 ++ k,
        [] ++ [PrintText "Testing nvfuser...";
               PrintText "Running 10 warmup iters for nvfuser...";
               PrintText "Running 1000 main iters for nvfuser...";
               PrintText "\nComparing fprop...\n";
               PrintText "[native] vs. [compile]"])).
Proof.
  exact (X6_main_ends_in_KeyError stub_dropout stub_layernorm_fwd_fp8
           (/ 100000)%R (/ 2)%R MainExample.stub_backward
           MainExample.stub_compare_bprop _ _ _ _ _ MainExample.heap0 []
           _ _ _ _ _ _ _ main_example_inputs).
Defined.

Lemma X7_witness :
  exists bda_out ln_out amax k m,
    run_all stub_dropout stub_layernorm_fwd_fp8 (/ 100000)%R (/ 2)%R
      MainExample.stub_backward
      MainExample.ln_weight MainExample.ln_bias MainExample.x MainExample.bias
      MainExample.residual run_impls ∅ (MainExample.heap0, [])
    = (Ok (<["nvfuser" := (bda_out, ln_out, amax)]> ∅),
       (MainExample.heap0 ++ k,
        [] ++ [PrintText "Testing nvfuser...";
               PrintText "Running 10 warmup iters for nvfuser...";
               PrintText "Running 1000 main iters for nvfuser..."]))
    /\ read (MainExample.heap0 ++ k) bda_out
       = Some (mkTensor [numel [1; 1]; 12 * 1024]
                 (mjoin (spec_pre (rows_of (12 * 1024) (replicate (12 * 1024) 0%R))
                           (replicate (12 * 1024) 0%R)
                           (rows_of (12 * 1024) (replicate (12 * 1024) 0%R)))))
    /\ read (MainExample.heap0 ++ k) ln_out
       = Some (mkTensor [numel [1; 1]; 12 * 1024]
                 (mjoin (spec_ln_out (fmul fone (/ 2)%R)
                    (spec_ln_unscaled (/ 100000)%R true
                       (replicate (12 * 1024) 1%R) (replicate (12 * 1024) 0%R)
                       (spec_pre (rows_of (12 * 1024) (replicate (12 * 1024) 0%R))
                          (replicate (12 * 1024) 0%R)
                          (rows_of (12 * 1024) (replicate (12 * 1024) 0%R)))))))
    /\ spec_amax (spec_ln_unscaled (/ 100000)%R true
                    (replicate (12 * 1024) 1%R) (replicate (12 * 1024) 0%R)
                    (spec_pre (rows_of (12 * 1024) (replicate (12 * 1024) 0%R))
                       (replicate (12 * 1024) 0%R)
                       (rows_of (12 * 1024) (replicate (12 * 1024) 0%R)))) = Some m
    /\ read (MainExample.heap0 ++ k) amax = Some (mkTensor [] [m]).
Proof.
  exact (X7_run_records_reference stub_dropout stub_layernorm_fwd_fp8
           (/ 100000)%R (/ 2)%R MainExample.stub_backward
           _ _ _ _ _ MainExample.heap0 [] _ _ _ _ _ _ _
           real_div_sqrt real_add_one_comm main_example_inputs).
Defined.

Lemma main_example_results impl :
  impl ∈ all_impls ->
  exists b l a,
    MainExample.results !! impl = Some (b, l, a)
    /\ read Example.heap0 b = Some (mkTensor [2; 2] [1; 3; 2; 6]%R)
    /\ read Example.heap0 l = Some (mkTensor [2; 2] [0; 1; 0; 1]%R)
    /\ read Example.heap0 a = Some (mkTensor [] [0%R]).
Proof.
  intros Hin. exists Example.x, Example.x2, Example.amax_tensor.
  unfold all_impls in Hin.
  repeat (apply elem_of_cons in Hin as [->|Hin]);
    [..|by apply elem_of_nil in Hin]; by repeat split.
Qed.

Lemma X8_witness :
  exists k reports,
    compare_fprop all_impls MainExample.results (Example.heap0, [])
    = (Ok tt, (Example.heap0 ++ k,
               ([] ++ [PrintText "\nComparing fprop...\n"]) ++ mjoin reports))
    /\ Forall2
         (fun (p : string * string) (report : list (Line R)) =>
            exists bda_out_diff ln_out_diff,
              amax_list (fabs <$> zip_with fsub [1; 3; 2; 6]%R [1; 3; 2; 6]%R)
              = Ok bda_out_diff
              /\ amax_list (fabs <$> zip_with fsub [0; 1; 0; 1]%R [0; 1; 0; 1]%R)
                 = Ok ln_out_diff
              /\ report
                 = [PrintText ("[" ++ p.1 ++ "] vs. [" ++ p.2 ++ "]");
                    PrintItem "Intermediate Bias-Dropout-Add output diff:" bda_out_diff;
                    PrintItem "LayerNorm output diff:" ln_out_diff;
                    PrintItem "Amax diff:" (fabs (fsub 0%R 0%R));
                    PrintText EmptyString])
         all_pairs reports.
Proof.
  exact (X8_compare_reports_all_pairs MainExample.results Example.heap0 [] [2; 2]
           (fun _ => [1; 3; 2; 6]%R) (fun _ => [0; 1; 0; 1]%R) (fun _ => 0%R)
           ltac:(vm_compute; lia) main_example_results).
Defined.

Lemma X9_witness :
  exists bda_out ln_out amax h' m L,
    bias_add_ln_native Example.x Example.bias Example.residual Example.w_shape
      Example.ln_weight Example.ln_bias Example.eps bfloat16 false
      Example.scale_tensor Example.amax_tensor Example.heap0
    = (Ok (bda_out, ln_out, amax), h')
    /\ read h' amax = Some (mkTensor [] [m])
    /\ read h' ln_out = Some (mkTensor [numel [2]; 2] L)
    /\ (0 <= m)%R
    /\ Forall (fun v => (Rabs v <= m * Rabs (/ 2))%R) L
    /\ Exists (fun v => Rabs v = (m * Rabs (/ 2))%R) L.
Proof.
  exact (X9_amax_bounds_ln_out Example.heap0 _ _ _ _ _ _ Example.eps bfloat16 false
           _ _ _ _ _ _ _ _ _ _ _ example_inputs example_meta).
Defined.

Lemma X10_witness :
  exists bda_out ln_out amax h' P U,
    bias_add_ln_native Example.x Example.bias Example.residual Example.w_shape
      Example.zero_weight Example.ln_bias Example.eps bfloat16 true
      Example.scale_tensor Example.amax_tensor Example.heap1
    = (Ok (bda_out, ln_out, amax), h')
    /\ read h' bda_out = Some (mkTensor [numel [2]; 2] (mjoin P))
    /\ read h' ln_out = Some (mkTensor [numel [2]; 2] (mjoin (spec_ln_out 1%R U)))
    /\ U = spec_ln_unscaled Example.eps true (replicate 2 0%R) (replicate 2 0%R) P
    /\ length P = numel [2]
    /\ Forall2 (fun row out =>
                  row_mean out = 0%R
                  /\ row_variance out
                     = (row_variance row / (row_variance row + Example.eps))%R
                  /\ (0 <= row_variance out < 1)%R) P U.
Proof.
  exact (X10_zero_centered_rows_normalized Example.heap1 _ _ _ _ _ _ Example.eps
           bfloat16 _ _ _ _ _ _ _ _ _ Rlt_0_1 example_inputs_zero_weight
           example_meta_scale_one).
Defined.

(** Evaluation mode with probability one half. *)
Lemma X11_witness :
  exists out k,
    bias_dropout_add_fused stub_dropout Example.x Example.bias Example.residual
      (1 # 2)%Q false Example.heap0 = (Ok out, Example.heap0 ++ k)
    /\ length Example.heap0 <= t_buf out
    /\ read (Example.heap0 ++ k) out
       = Some (mkTensor ([2] ++ [2])
                 (zip_with fadd [0; 0; 0; 0]%R
                    (zip_with fadd [1; 3; 2; 6]%R
                       (mjoin (replicate (numel [2]) [0; 0]%R))))).
Proof.
  exact (X11_dropout_skipped stub_dropout Example.heap0 _ _ _ _ _ _ _ _ _ _ _ _ _
           (1 # 2)%Q false example_inputs eq_refl eq_refl).
Defined.

(** Training mode with probability two. *)
Lemma X12_witness :
  exists msg,
    bias_dropout_add_fused stub_dropout Example.x Example.bias Example.residual
      (2 # 1)%Q true Example.heap0
    = (Raise (ValueError msg),
       Example.heap0
         ++ [zip_with fadd [1; 3; 2; 6]%R (mjoin (replicate (numel [2]) [0; 0]%R))]).
Proof.
  exact (X12_dropout_invalid_probability stub_dropout Example.heap0 _ _ _ _ _ _ _
           _ _ _ _ _ _ (2 # 1)%Q true example_inputs eq_refl).
Defined.

(** [x] and [residual] of shape (0, 2). *)
Lemma X13_witness :
  exists k,
    bias_add_ln_native (mkRef 0 0 [0; 2]) (mkRef 1 0 [2]) (mkRef 0 0 [0; 2]) [2]
      (mkRef 2 0 [2]) (mkRef 1 0 [2]) 1%R bfloat16 false
      (mkRef 3 0 []) (mkRef 4 0 []) [[]; [0; 0]; [1; 1]; [1]; [0]]%R
    = (Raise (RuntimeError
                "amax(): Expected reduction dim to be specified for input.numel() == 0"),
       [[]; [0; 0]; [1; 1]; [1]; [0]]%R ++ k).
Proof.
  apply (X13_native_empty_batch_raises [[]; [0; 0]; [1; 1]; [1]; [0]]%R
           (mkRef 0 0 [0; 2]) (mkRef 1 0 [2]) (mkRef 0 0 [0; 2])
           (mkRef 2 0 [2]) (mkRef 1 0 [2]) 1%R bfloat16 false
           (mkRef 3 0 []) (mkRef 4 0 []) [0] 2 [0; 0]%R [1; 1]%R [0; 0]%R);
    [lia | reflexivity..].
Defined.

(** The Transformer Engine route with [w_shape = ()]. *)
Lemma X14_witness :
  exists k,
    bias_add_ln stub_dropout stub_layernorm_fwd_fp8
      (mkArgs Example.x Example.bias Example.residual [] Example.ln_weight
         Example.ln_bias Example.eps bfloat16 false)
      (<["meta" := VMeta Example.meta]>
         (<["do_bprop" := VBool false]> (<["impl" := VStr "te"]> ∅)))
      Example.heap0
    = (Raise (IndexError "tuple index out of range"), Example.heap0 ++ k)
    /\ ("te" = "nvfuser" -> k = []).
Proof.
  apply (X14_empty_w_shape_raises stub_dropout stub_layernorm_fwd_fp8
           Example.heap0
           (mkArgs Example.x Example.bias Example.residual [] Example.ln_weight
              Example.ln_bias Example.eps bfloat16 false)
           (<["meta" := VMeta Example.meta]>
              (<["do_bprop" := VBool false]> (<["impl" := VStr "te"]> ∅)))
           "te" Example.meta (VBool false) [2] 2
           [1; 3; 2; 6]%R [0; 0]%R [0; 0; 0; 0]%R (/ 2)%R 0%R);
    [reflexivity | unfold all_impls; set_solver | reflexivity..
    | exact example_meta_object].
Defined.

(** A metadata object whose scale tensor is empty. *)
Lemma X15_witness :
  exists msg,
    bias_add_ln stub_dropout stub_layernorm_fwd_fp8 Example.args
      (<["meta" := VMeta (mkMeta (mkRef 5 0 [0]) (mkRef 7 0 [1]) (mkRef 6 0 [1; 1]))]>
         (<["do_bprop" := VBool false]> (<["impl" := VStr "nvfuser"]> ∅)))
      Example.heap0
    = (Raise (IndexError msg), Example.heap0).
Proof.
  apply (X15_unindexable_scale_raises stub_dropout stub_layernorm_fwd_fp8
           Example.heap0 Example.args
           (<["meta" := VMeta (mkMeta (mkRef 5 0 [0]) (mkRef 7 0 [1])
                                 (mkRef 6 0 [1; 1]))]>
              (<["do_bprop" := VBool false]> (<["impl" := VStr "nvfuser"]> ∅)))
           "nvfuser" (mkMeta (mkRef 5 0 [0]) (mkRef 7 0 [1]) (mkRef 6 0 [1; 1]))
           (VBool false));
    [reflexivity | set_solver | reflexivity | reflexivity
    | right; by exists [] ].
Defined.

Lemma X16_witness :
  exists bda_out ln_out amax h',
    bias_add_ln_native Example.x Example.bias Example.residual Example.w_shape
      Example.ln_weight Example.ln_bias Example.eps bfloat16 false
      Example.scale_tensor Example.amax_tensor Example.heap0
    = (Ok (bda_out, ln_out, amax), h')
    /\ amax = Example.amax_tensor
    /\ length Example.heap0 <= t_buf bda_out < length h'
    /\ length Example.heap0 <= t_buf ln_out < length h'
    /\ t_buf bda_out <> t_buf ln_out.
Proof.
  destruct (bias_add_ln_native_run Example.heap0 _ _ _ _ _ _ Example.eps bfloat16
              false _ _ _ _ _ _ _ _ _ _ _ example_inputs example_meta)
    as (bda_out & ln_out & h' & m & E & _).
  exists bda_out, ln_out, Example.amax_tensor, h'. split; [exact E|].
  exact (X16_native_outputs_fresh Example.heap0 _ _ _ _ _ _ _ _ _ _ _ _ _ _ _ E).
Defined.

(** With the stand-in kernel, which hands back the output buffer it was
    given. *)
Lemma X17_witness :
  exists ln_out h',
    bias_add_ln_te stub_dropout stub_layernorm_fwd_fp8 Example.x Example.bias
      Example.residual Example.w_shape Example.ln_weight Example.ln_bias
      Example.eps bfloat16 false (VMeta Example.meta) (VBool false) Example.heap0
    = (Ok (mkRef 12 0 [2; 2], ln_out,
           mkRef 6 (0 + 0 * numel [1] + 0 * numel []) []), h').
Proof.
  eexists _, _.
  eapply (proj2 (proj2 (proj2
            (X17_te_forward_by_kernel stub_dropout stub_layernorm_fwd_fp8
               Example.heap0 _ _ _ _ _ _ Example.eps bfloat16 false Example.meta
               (VBool false) _ _ _ _ _ _ _ _ _
               example_inputs example_meta_object)))); reflexivity.
Defined.
